(** * ReZZan runtime: a shallow embedding of [rezzan_runtime.c]

    The runtime wraps every heap object with nonce tokens stored in band at
    8-byte granularity, and the intercepted libc routines test those tokens
    before touching memory.  This file embeds the token primitives, the
    poison-window check, the pool, the quarantine, [rezzan_malloc],
    [rezzan_free], [rezzan_realloc], [rezzan_calloc], [malloc_usable_size],
    [memcpy], [memmove] and the string functions as executable Rocq
    functions over an explicit process state, and settles the properties of
    the specification against them.

    Conventions.
    - [size_t], [uintptr_t] and [uint64_t] values are [Z] in [0, 2^64); the
      wrap-around of the C arithmetic is written out with [wrap64].
      [uint32_t] fields wrap with [wrap32], and a conversion to [int] is
      [to_int] (gcc: reduction modulo 2^32 into the signed range).
    - A pointer into process memory is its address; [NULL] is [0].  A
      [FreeNode *] is the index of the node in [quarantine_pool], or [None]
      for [NULL].
    - Memory is a total map from the address of an 8-byte aligned word to
      its 64-bit content (x86-64, little endian); bytes are read and written
      through the word that holds them.
    - [asm ("ud2")] ends the process with SIGILL.  A computation is a
      function from the state to an outcome and the state at that point, so
      that what memory looks like when the trap fires can be stated.
    - The model starts after [rezzan_init] with the runtime enabled; the
      delegation to libc for a disabled runtime is not modelled. *)

From Stdlib Require Import ZArith List Bool Lia.
Import ListNotations.
Local Open Scope Z_scope.

(** ** Machine integers *)

Definition wrap64 (z : Z) : Z := z mod 2 ^ 64.
Definition wrap32 (z : Z) : Z := z mod 2 ^ 32.
Definition to_int (z : Z) : Z := (z + 2 ^ 31) mod 2 ^ 32 - 2 ^ 31.

Definition PAGE_SIZE : Z := 4096.
Definition sizeof_Token : Z := 8.
Definition sizeof_Unit : Z := 16.
Definition sizeof_FreeNode : Z := 16.
Definition POOL_SIZE : Z := 2 ^ 31.
Definition POOL_MMAP_SIZE : Z := 2 ^ 15 / sizeof_Unit.
Definition QUARANTINE_MMAP_SIZE : Z := (2 * PAGE_SIZE) / sizeof_FreeNode.
Definition QUARANTINE_CLASSES : Z := 20.
Definition ENOMEM : Z := 12.
Definition NULL : Z := 0.

(** ** Data model *)

Record FreeNode := mkFreeNode {
  ptr128 : Z;
  size128 : Z;
  next : option Z
}.

Record Entry := mkEntry {
  front : option Z;
  back : option Z
}.

(** What [rezzan_init] fixes once: the options, the nonce stored in the
    read-only page at [NONCE_ADDR], and the base of the pool. *)
Record config := mkConfig {
  nonce_size : Z;
  nonce : Z;
  quarantine_size : Z;
  pool_size : Z;
  quarantine_pool_size : Z;
  option_checks : bool;
  pool : Z
}.

(** The mutable globals of the module, the content of the quarantine node
    pool ([nodes]) and the memory of the process ([mem]). *)
Record state := mkState {
  cfg : config;
  pool_ptr : Z;
  pool_mmap : Z;
  quarantine_ptr : Z;
  quarantine_mmap : Z;
  quarantine_free : option Z;
  quarantine : Z -> Entry;
  quarantine_usage : Z;
  nodes : Z -> FreeNode;
  mem : Z -> Z;
  errno : Z
}.

Definition upd {A : Type} (f : Z -> A) (k : Z) (v : A) : Z -> A :=
  fun x => if x =? k then v else f x.

Definition set_pool_ptr (v : Z) (st : state) : state :=
  mkState (cfg st) v (pool_mmap st) (quarantine_ptr st) (quarantine_mmap st)
    (quarantine_free st) (quarantine st) (quarantine_usage st) (nodes st)
    (mem st) (errno st).
Definition set_pool_mmap (v : Z) (st : state) : state :=
  mkState (cfg st) (pool_ptr st) v (quarantine_ptr st) (quarantine_mmap st)
    (quarantine_free st) (quarantine st) (quarantine_usage st) (nodes st)
    (mem st) (errno st).
Definition set_quarantine_ptr (v : Z) (st : state) : state :=
  mkState (cfg st) (pool_ptr st) (pool_mmap st) v (quarantine_mmap st)
    (quarantine_free st) (quarantine st) (quarantine_usage st) (nodes st)
    (mem st) (errno st).
Definition set_quarantine_mmap (v : Z) (st : state) : state :=
  mkState (cfg st) (pool_ptr st) (pool_mmap st) (quarantine_ptr st) v
    (quarantine_free st) (quarantine st) (quarantine_usage st) (nodes st)
    (mem st) (errno st).
Definition set_quarantine_free (v : option Z) (st : state) : state :=
  mkState (cfg st) (pool_ptr st) (pool_mmap st) (quarantine_ptr st)
    (quarantine_mmap st) v (quarantine st) (quarantine_usage st) (nodes st)
    (mem st) (errno st).
Definition set_quarantine (v : Z -> Entry) (st : state) : state :=
  mkState (cfg st) (pool_ptr st) (pool_mmap st) (quarantine_ptr st)
    (quarantine_mmap st) (quarantine_free st) v (quarantine_usage st)
    (nodes st) (mem st) (errno st).
Definition set_quarantine_usage (v : Z) (st : state) : state :=
  mkState (cfg st) (pool_ptr st) (pool_mmap st) (quarantine_ptr st)
    (quarantine_mmap st) (quarantine_free st) (quarantine st) v (nodes st)
    (mem st) (errno st).
Definition set_nodes (v : Z -> FreeNode) (st : state) : state :=
  mkState (cfg st) (pool_ptr st) (pool_mmap st) (quarantine_ptr st)
    (quarantine_mmap st) (quarantine_free st) (quarantine st)
    (quarantine_usage st) v (mem st) (errno st).
Definition set_mem (v : Z -> Z) (st : state) : state :=
  mkState (cfg st) (pool_ptr st) (pool_mmap st) (quarantine_ptr st)
    (quarantine_mmap st) (quarantine_free st) (quarantine st)
    (quarantine_usage st) (nodes st) v (errno st).
Definition set_errno (v : Z) (st : state) : state :=
  mkState (cfg st) (pool_ptr st) (pool_mmap st) (quarantine_ptr st)
    (quarantine_mmap st) (quarantine_free st) (quarantine st)
    (quarantine_usage st) (nodes st) (mem st) v.

(** Field assignments through a pointer. *)
Definition set_node_next (n : Z) (v : option Z) (st : state) : state :=
  let nd := nodes st n in
  set_nodes (upd (nodes st) n (mkFreeNode (ptr128 nd) (size128 nd) v)) st.
Definition set_node_size128 (n : Z) (v : Z) (st : state) : state :=
  let nd := nodes st n in
  set_nodes (upd (nodes st) n (mkFreeNode (ptr128 nd) v (next nd))) st.
Definition set_node_ptr128 (n : Z) (v : Z) (st : state) : state :=
  let nd := nodes st n in
  set_nodes (upd (nodes st) n (mkFreeNode v (size128 nd) (next nd))) st.
Definition set_front (i : Z) (v : option Z) (st : state) : state :=
  set_quarantine
    (upd (quarantine st) i (mkEntry v (back (quarantine st i)))) st.
Definition set_back (i : Z) (v : option Z) (st : state) : state :=
  set_quarantine
    (upd (quarantine st) i (mkEntry (front (quarantine st i)) v)) st.

(** ** Outcomes and the computation monad *)

Inductive result (A : Type) : Type :=
| Ok (a : A)      (* the call returns *)
| Sigill          (* [asm ("ud2")], also at the end of [error] *)
| Segv            (* a token walk left the committed pool *)
| Undefined.      (* an access outside an array of the module *)
Arguments Ok {A} a.
Arguments Sigill {A}.
Arguments Segv {A}.
Arguments Undefined {A}.

Definition M (A : Type) : Type := state -> result A * state.

Definition ret {A} (a : A) : M A := fun st => (Ok a, st).
Definition bind {A B} (c : M A) (k : A -> M B) : M B :=
  fun st =>
    match c st with
    | (Ok a, st') => k a st'
    | (Sigill, st') => (Sigill, st')
    | (Segv, st') => (Segv, st')
    | (Undefined, st') => (Undefined, st')
    end.
Definition get : M state := fun st => (Ok st, st).
Definition modify (f : state -> state) : M unit := fun st => (Ok tt, f st).
Definition ud2 {A} : M A := fun st => (Sigill, st).
Definition error {A} : M A := ud2.
Definition segv {A} : M A := fun st => (Segv, st).
Definition undefined {A} : M A := fun st => (Undefined, st).

Notation "x <- c1 ;; c2" := (bind c1 (fun x => c2))
  (at level 61, c1 at next level, right associativity).
Notation "c1 ;; c2" := (bind c1 (fun _ => c2))
  (at level 61, right associativity).

(** ** Token primitives (the [asm] block) *)

Definition is_null (p : option Z) : bool :=
  match p with None => true | Some _ => false end.
Definition ptr_eqb (p q : option Z) : bool :=
  match p, q with
  | None, None => true
  | Some a, Some b => a =? b
  | _, _ => false
  end.

(** [mov 0x10000,%rax; mov %rax,(%rdi); negq (%rdi)] *)
Definition rezzan_set_token64 (ptr64 : Z) : M unit :=
  modify (fun st =>
    set_mem (upd (mem st) ptr64 (wrap64 (- nonce (cfg st)))) st).

(** [mov (%rdi),%rdi; lea (%rdi,%rax),%rax; testq %rax,%rax; sete %al] *)
Definition rezzan_test_token64 (st : state) (ptr64 : Z) : bool :=
  wrap64 (mem st ptr64 + nonce (cfg st)) =? 0.

(** [negq %rax; andq $-0x8,%rax; xor %rsi,%rax; mov %rax,(%rdi)] *)
Definition rezzan_set_token61 (ptr64 : Z) (boundary : Z) : M unit :=
  modify (fun st =>
    set_mem
      (upd (mem st) ptr64
         (Z.lxor (Z.land (wrap64 (- nonce (cfg st))) (-8)) boundary))
      st).

(** [mov (%rdi),%rdi; andq $-0x8,%rdi; lea (%rdi,%rax),%rax; testq; sete] *)
Definition rezzan_test_token61 (st : state) (ptr64 : Z) : bool :=
  wrap64 (Z.land (mem st ptr64) (-8) + nonce (cfg st)) =? 0.

Definition rezzan_zero_token (ptr64 : Z) : M unit :=
  modify (fun st => set_mem (upd (mem st) ptr64 0) st).

(** The bit-field [boundary:3] of a token. *)
Definition boundary (w : Z) : Z := Z.land w 7.

Definition poison (ptr64 : Z) (size : Z) : M unit :=
  fun st =>
    if nonce_size (cfg st) =? 61 then
      rezzan_set_token61 ptr64 (size mod sizeof_Token) st
    else if nonce_size (cfg st) =? 64 then rezzan_set_token64 ptr64 st
    else ret tt st.

Definition zero (ptr64 : Z) : M unit := rezzan_zero_token ptr64.

(** [rezzan_init] admits the nonce sizes 61 and 64 only; the [switch] has
    no other case and the function then returns nothing, modelled as
    [false]. *)
Definition is_poisoned (st : state) (ptr64 : Z) : bool :=
  if nonce_size (cfg st) =? 61 then rezzan_test_token61 st ptr64
  else if nonce_size (cfg st) =? 64 then rezzan_test_token64 st ptr64
  else false.

(** ** The poison-window check *)

(** [for (size_t i = 0; i < check_len; i++) if (is_poisoned(ptr64 + i)) ud2] *)
Fixpoint check_tokens (ptr64 : Z) (count : nat) : M unit :=
  match count with
  | O => ret tt
  | S c =>
      st <- get ;;
      if is_poisoned st ptr64 then ud2
      else check_tokens (ptr64 + sizeof_Token) c
  end.

Definition check_poisoned (ptr : Z) (n : Z) : M unit :=
  let iptr := ptr in
  let front_delta := iptr mod sizeof_Token in
  let check_len := to_int (wrap64 (n + front_delta)) in
  let iptr := iptr - front_delta in
  let end_delta := wrap64 check_len mod sizeof_Token in
  let check_len :=
    if end_delta =? 0 then check_len
    else to_int (wrap64 (wrap64 check_len + sizeof_Token)) in
  let check_len := to_int (wrap64 check_len / sizeof_Token) in
  let ptr64 := iptr in
  check_tokens ptr64 (Z.to_nat (wrap64 check_len)) ;;
  st <- get ;;
  if negb (end_delta =? 0) && (nonce_size (cfg st) =? 61) then
    let ptr64 := wrap64 (ptr64 + sizeof_Token * check_len) in
    if negb (ptr64 mod PAGE_SIZE =? 0) && rezzan_test_token61 st ptr64 then
      let tail_token := mem st ptr64 in
      if negb (boundary tail_token =? 0) && (boundary tail_token <? end_delta)
      then ud2
      else ret tt
    else ret tt
  else ret tt.

(** ** Initialisation *)

(** The options [rezzan_init] reads with [get_config], and the eight bytes
    [getrandom] delivers. *)
Record environment := mkEnvironment {
  REZZAN_NONCE_SIZE : Z;
  REZZAN_QUARANTINE_SIZE : Z;
  REZZAN_POOL_SIZE : Z;
  REZZAN_CHECKS : Z;
  random_bytes : Z
}.

Definition POOL_BASE : Z := 0xaaa00000000.

(** A fresh anonymous mapping of the words in [start, stop): zero pages. *)
Definition mmap (start stop : Z) : M unit :=
  modify (fun st =>
    set_mem
      (fun a => if (start <=? a) && (a <? stop) then 0 else mem st a) st).

Definition rezzan_init (env : environment) : result unit * state :=
  let nonce_size := REZZAN_NONCE_SIZE env in
  let QUARANTINE_POOL_SIZE_MIN := 2 ^ 20 in
  let quarantine_size := REZZAN_QUARANTINE_SIZE env / sizeof_Unit in
  let pool_size := REZZAN_POOL_SIZE env in
  let nonce :=
    if nonce_size =? 61 then
      random_bytes env - boundary (random_bytes env)   (* token->boundary = 0 *)
    else random_bytes env in
  let quarantine_pool_size := 2 * quarantine_size in
  let quarantine_pool_size :=
    if quarantine_pool_size <? QUARANTINE_POOL_SIZE_MIN
    then QUARANTINE_POOL_SIZE_MIN else quarantine_pool_size in
  let st0 :=
    mkState
      (mkConfig nonce_size nonce quarantine_size (pool_size / sizeof_Unit)
         quarantine_pool_size (negb (REZZAN_CHECKS env =? 0)) POOL_BASE)
      0 POOL_MMAP_SIZE 0 QUARANTINE_MMAP_SIZE None
      (fun _ => mkEntry None None) 0
      (fun _ => mkFreeNode 0 0 None) (fun _ => 0) 0 in
  (if negb ((nonce_size =? 61) || (nonce_size =? 64)) then error
   else if pool_size <? POOL_MMAP_SIZE * sizeof_Unit then error
   else if negb (pool_size mod PAGE_SIZE =? 0) then error
   else
     (* Poison the first unit so underflows will be detected: *)
     poison POOL_BASE 0 ;;
     poison (POOL_BASE + sizeof_Token) 0 ;;
     modify (fun st => set_pool_ptr (pool_ptr st + 1) st)) st0.

(** ** Quarantine *)

(** [__builtin_clzll]: the number of zero bits above the highest set bit of
    a 64-bit value, counted from bit 63 downwards. *)
Fixpoint clz_from (x : Z) (bits : nat) : Z :=
  match bits with
  | O => 0
  | S b => if Z.testbit x (Z.of_nat b) then 0 else 1 + clz_from x b
  end.
Definition builtin_clzll (x : Z) : Z := clz_from x 64.

Definition quarantine_index (size128 : Z) : Z :=
  if size128 =? 0 then 0
  else
    let i := 64 - builtin_clzll size128 in
    let max := QUARANTINE_CLASSES in
    if i >=? QUARANTINE_CLASSES then max - 1 else i.

Definition quarantine_node_alloc : M (option Z) :=
  st <- get ;;
  match quarantine_free st with
  | Some node =>
      modify (set_quarantine_free (next (nodes st node))) ;;
      ret (Some node)
  | None =>
      (if quarantine_ptr st >=? quarantine_mmap st then
         modify (fun st =>
           set_quarantine_mmap (quarantine_mmap st + QUARANTINE_MMAP_SIZE) st)
       else ret tt) ;;
      st <- get ;;
      if quarantine_ptr st >=? quarantine_pool_size (cfg st) then
        error                (* "failed to allocate quarantine node" *)
      else
        let node := quarantine_ptr st in
        modify (set_quarantine_ptr (quarantine_ptr st + 1)) ;;
        ret (Some node)
  end.

(** [ptr] is the address of the region, [ptr128 - pool] its unit offset. *)
Definition quarantine_insert (ptr : Z) (size128 : Z) : M unit :=
  node <- quarantine_node_alloc ;;
  match node with
  | None => ret tt        (* Memory leaks... *)
  | Some node =>
      st <- get ;;
      modify (set_node_size128 node (wrap32 size128)) ;;
      modify (set_node_ptr128 node
                (wrap32 ((ptr - pool (cfg st)) / sizeof_Unit))) ;;
      modify (set_node_next node None) ;;
      let i := quarantine_index size128 in
      st <- get ;;
      match back (quarantine st i) with
      | None =>
          modify (set_front i (Some node)) ;;
          modify (set_back i (Some node))
      | Some b =>
          modify (set_node_next b (Some node)) ;;
          modify (set_back i (Some node))
      end ;;
      modify (fun st =>
        set_quarantine_usage (wrap64 (quarantine_usage st + size128)) st)
  end.

(** The first loop of [quarantine_malloc]: at most [LIMIT] iterations, each
    stepping over a node that is too small. *)
Fixpoint scan_list (nodes : Z -> FreeNode) (size : Z) (budget : nat)
    (prev node : option Z) : option Z * option Z :=
  match budget with
  | O => (prev, node)
  | S b =>
      match node with
      | None => (prev, node)
      | Some n =>
          if size128 (nodes n) >=? size then (prev, node)
          else scan_list nodes size b (Some n) (next (nodes n))
      end
  end.

(** The second loop: [for (++i; i < 20; i++)], [node] keeping the front it
    read last. *)
Fixpoint scan_classes (st : state) (size : Z) (count : nat) (i : Z)
    (node : option Z) : Z * option Z :=
  match count with
  | O => (i, node)
  | S c =>
      if i <? QUARANTINE_CLASSES then
        let node := front (quarantine st i) in
        match node with
        | Some n =>
            if size128 (nodes st n) >=? size then (i, node)
            else scan_classes st size c (i + 1) node
        | None => scan_classes st size c (i + 1) node
        end
      else (i, node)
  end.

Definition LIMIT : nat := 8.

(** The node the first phase settles on, with its predecessor. *)
Definition first_phase (st : state) (size : Z) : option Z * option Z :=
  let i := quarantine_index size in
  let '(prev, node) :=
    scan_list (nodes st) size LIMIT None (front (quarantine st i)) in
  let node :=
    match node with
    | Some n => if size128 (nodes st n) <? size then None else node
    | None => node
    end in
  (prev, node).

Definition quarantine_malloc (size : Z) : M Z :=
  st <- get ;;
  let i := quarantine_index size in
  let '(prev, node) := first_phase st size in
  let '(prev, i, node) :=
    match node with
    | None =>
        let '(i, node) :=
          scan_classes st size (Z.to_nat QUARANTINE_CLASSES) (i + 1) node in
        (None, i, node)
    | Some _ => (prev, i, node)
    end in
  match node with
  | None => ret NULL
  | Some node =>
      match prev with
      | Some p => modify (set_node_next p (next (nodes st node)))
      | None =>
          if i >=? QUARANTINE_CLASSES then undefined
          else if negb (ptr_eqb (front (quarantine st i))
                          (back (quarantine st i)))
          then modify (set_front i (next (nodes st node)))
          else modify (set_front i None) ;; modify (set_back i None)
      end ;;
      modify (fun st =>
        set_quarantine_usage (wrap64 (quarantine_usage st - size)) st) ;;
      st <- get ;;
      if size128 (nodes st node) =? size then
        (* Exact match: *)
        let ptr :=
          wrap64 (pool (cfg st) + sizeof_Unit * ptr128 (nodes st node)) in
        modify (set_node_next node (quarantine_free st)) ;;
        modify (set_quarantine_free (Some node)) ;;
        ret ptr
      else
        (* Inexact match, we can recycle the remaining memory: *)
        let diff128 := wrap64 (size128 (nodes st node) - size) in
        let ptr :=
          wrap64 (pool (cfg st) + sizeof_Unit * ptr128 (nodes st node)
                  + sizeof_Unit * diff128) in
        let j := quarantine_index diff128 in
        modify (set_node_size128 node (wrap32 diff128)) ;;
        modify (set_node_next node None) ;;
        match front (quarantine st j) with
        | Some f =>
            modify (set_node_next node (Some f)) ;;
            modify (set_front j (Some node))
        | None =>
            modify (set_front j (Some node)) ;;
            modify (set_back j (Some node))
        end ;;
        ret ptr
  end.

(** ** The pool *)

Definition pool_malloc (size128 : Z) : M Z :=
  st <- get ;;
  let ptr := wrap64 (pool (cfg st) + sizeof_Unit * pool_ptr st) in
  let new_pool_ptr := wrap64 (pool_ptr st + size128) in
  if new_pool_ptr >? pool_size (cfg st) then
    (* Out-of-space: *)
    modify (set_errno ENOMEM) ;;
    ret NULL
  else
    (if new_pool_ptr >? pool_mmap st then
       let old_pool_mmap := pool_mmap st in
       let pool_mmap := wrap64 (new_pool_ptr + POOL_MMAP_SIZE) in
       let page_units := PAGE_SIZE / sizeof_Unit in
       let pool_mmap :=
         if negb (pool_mmap mod page_units =? 0) then
           let pool_mmap := wrap64 (pool_mmap + page_units) in
           pool_mmap - pool_mmap mod page_units
         else pool_mmap in
       let pool_mmap :=
         if pool_mmap >? pool_size (cfg st) then pool_size (cfg st)
         else pool_mmap in
       modify (set_pool_mmap pool_mmap) ;;
       mmap (pool (cfg st) + sizeof_Unit * old_pool_mmap)
            (pool (cfg st) + sizeof_Unit * pool_mmap)
     else ret tt) ;;
    modify (fun st => set_pool_ptr (wrap64 (pool_ptr st + size128)) st) ;;
    ret ptr.

(** ** Malloc *)

(** The unit count [rezzan_malloc] computes for a request of [size] bytes. *)
Definition malloc_size128 (size : Z) : Z :=
  let size := if size =? 0 then 1 else size in
  let size128 := size in
  let size128 := wrap64 (size128 + sizeof_Token) in
  let size128 :=
    if negb (size128 mod sizeof_Unit =? 0) then
      wrap64 (size128 - size128 mod sizeof_Unit + sizeof_Unit)
    else size128 in
  size128 / sizeof_Unit.

(** [for (; start64 < end64; start64++) zero(start64)] *)
Fixpoint zero_tokens (count : nat) (start64 end64 : Z) : M unit :=
  match count with
  | O => ret tt
  | S c =>
      if start64 <? end64 then
        zero start64 ;; zero_tokens c (start64 + sizeof_Token) end64
      else ret tt
  end.

(** [for (...; (uint8_t * )end64 >= end8; end64--) poison(end64, size)];
    the value is [end64] when the loop is left. *)
Fixpoint poison_redzone (count : nat) (end64 end8 size : Z) : M Z :=
  match count with
  | O => ret end64
  | S c =>
      if end64 >=? end8 then
        poison end64 size ;;
        poison_redzone c (end64 - sizeof_Token) end8 size
      else ret end64
  end.

(** The number of iterations a loop needs to move by words from [lo] up to
    [hi] (or from [hi] down to [lo]), both included. *)
Definition word_steps (lo hi : Z) : nat :=
  Z.to_nat ((hi - lo) / sizeof_Token + 1).

Fixpoint any_poisoned (st : state) (ptr64 : Z) (count : nat) : bool :=
  match count with
  | O => false
  | S c =>
      if is_poisoned st ptr64 then true
      else any_poisoned st (ptr64 + sizeof_Token) c
  end.

Fixpoint any_unpoisoned (st : state) (ptr64 : Z) (count : nat) : bool :=
  match count with
  | O => false
  | S c =>
      if is_poisoned st ptr64 then
        any_unpoisoned st (ptr64 + sizeof_Token) c
      else true
  end.

(** The block under [if (option_checks)]: [true] when one of its tests
    calls [error]. *)
Definition sanity_checks_fail (st : state) (ptr size size128 end64 end8 : Z)
    : bool :=
  if negb (ptr mod 16 =? 0) then true
  else if size >=? wrap64 (size128 * sizeof_Unit) then true
  else if wrap64 (end64 - end8) <? sizeof_Token then true
  else if negb (is_poisoned st (ptr - sizeof_Token)) then true
  else
    let i := (size + sizeof_Token - 1) / sizeof_Token in
    if any_poisoned st ptr (Z.to_nat i) then true
    else if negb (is_poisoned st (ptr + sizeof_Token * i)) then true
    else
      let i := i + 1 in
      let size64 := 2 * size128 in
      any_unpoisoned st (ptr + sizeof_Token * i) (Z.to_nat (size64 - i)).

Definition rezzan_malloc (size : Z) : M Z :=
  (* Calculate the necessary sizes: *)
  let size128 := malloc_size128 size in
  let size := if size =? 0 then 1 else size in
  (* Allocate from the pool or the quarantine: *)
  st <- get ;;
  ptr <- (if quarantine_usage st >? quarantine_size (cfg st)
          then quarantine_malloc size128 else ret NULL) ;;
  let q := negb (ptr =? NULL) in
  ptr <- (if negb q then pool_malloc size128 else ret ptr) ;;
  if ptr =? NULL then error       (* "failed to allocate memory" *)
  else
    (* Make sure the last word is poisoned *before* releasing the lock: *)
    let end64 := wrap64 (ptr + size128 * sizeof_Unit) in
    let end64 := wrap64 (end64 - sizeof_Token) in
    poison end64 size ;;
    (* If allocated from the quarantine, zero the memory: *)
    (if q then
       let start64 := ptr in
       let size64 := size in
       let size64 :=
         if negb (size64 mod sizeof_Token =? 0) then
           wrap64 (size64 - size64 mod sizeof_Token + sizeof_Token)
         else size64 in
       let end64 := wrap64 (start64 + sizeof_Token * (size64 / sizeof_Token)) in
       zero_tokens (word_steps start64 end64) start64 end64
     else ret tt) ;;
    (* Poison the rest of the redzone: *)
    let end8 := wrap64 (ptr + size) in
    let end64 := wrap64 (end64 - sizeof_Token) in
    end64 <- poison_redzone (word_steps end8 end64) end64 end8 size ;;
    st <- get ;;
    if option_checks (cfg st)
    then if sanity_checks_fail st ptr size size128 end64 end8 then error
         else ret ptr
    else ret ptr.

(** ** Free *)

(** [for (; !is_poisoned(ptr64 + i); i++) poison(ptr64 + i, 0)], run over
    the [count] words up to the end of the committed pool; a walk that
    finds no token there leaves the pool. *)
Fixpoint poison_object (count : nat) (ptr64 : Z) (i : Z) : M Z :=
  match count with
  | O => segv
  | S c =>
      st <- get ;;
      if is_poisoned st (ptr64 + sizeof_Token * i) then ret i
      else
        poison (ptr64 + sizeof_Token * i) 0 ;;
        poison_object c ptr64 (i + 1)
  end.

Definition rezzan_free (ptr : Z) : M unit :=
  if ptr =? NULL then ret tt
  else
    st <- get ;;
    if negb (ptr mod sizeof_Unit =? 0) then error
    else if (ptr <? pool (cfg st))
            || (ptr >=? pool (cfg st) + sizeof_Unit * pool_size (cfg st))
    then ret tt        (* Not allocated by us: __libc_free *)
    else if is_poisoned st ptr then error
    else
      let ptr64 := ptr in
      if negb (is_poisoned st (ptr64 - sizeof_Token)) then error
      else
        (* Poison the free'ed memory, and work out the object size. *)
        let committed := pool (cfg st) + sizeof_Unit * pool_mmap st in
        i <- poison_object (Z.to_nat ((committed - ptr64) / sizeof_Token))
               ptr64 0 ;;
        let size64 := i + 1 in
        let size64 := if size64 mod 2 =? 1 then size64 + 1 else size64 in
        let size128 := size64 / 2 in
        quarantine_insert ptr size128.

(** ** The glibc runtime support *)

Definition load8 (st : state) (a : Z) : Z :=
  let k := a mod sizeof_Token in
  Z.land (Z.shiftr (mem st (a - k)) (8 * k)) 255.

Definition store8 (a : Z) (b : Z) : M unit :=
  modify (fun st =>
    let k := a mod sizeof_Token in
    let w := mem st (a - k) in
    let w' :=
      Z.lor (Z.land w (Z.lnot (Z.shiftl 255 (8 * k)))) (Z.shiftl b (8 * k)) in
    set_mem (upd (mem st) (a - k) w') st).

(** [for (size_t i = 0; i < n; i++) dst8[i] = src8[i]] *)
Fixpoint copy_forward (count : nat) (dst8 src8 : Z) : M unit :=
  match count with
  | O => ret tt
  | S c =>
      st <- get ;;
      store8 dst8 (load8 st src8) ;;
      copy_forward c (dst8 + 1) (src8 + 1)
  end.

(** [while (n--) *lastd-- = *lasts--] *)
Fixpoint copy_backward (count : nat) (lastd lasts : Z) : M unit :=
  match count with
  | O => ret tt
  | S c =>
      st <- get ;;
      store8 lastd (load8 st lasts) ;;
      copy_backward c (lastd - 1) (lasts - 1)
  end.

Definition memcpy (dst src n : Z) : M Z :=
  check_poisoned dst n ;;
  check_poisoned src n ;;
  copy_forward (Z.to_nat n) dst src ;;
  ret dst.

Definition memmove (dst src n : Z) : M Z :=
  check_poisoned dst n ;;
  check_poisoned src n ;;
  (if dst <? src then copy_forward (Z.to_nat n) dst src
   else copy_backward (Z.to_nat n) (dst + (n - 1)) (src + (n - 1))) ;;
  ret dst.

(** ** Realloc, calloc and the usable size *)

(** The answer of an entry point that hands a pointer outside the pool to
    glibc ([__libc_realloc], glibc's [malloc_usable_size]); what glibc does
    with it is not modelled. *)
Inductive handled (A : Type) : Type :=
| Here (a : A)    (* answered by the runtime *)
| Glibc.          (* Not allocated by us... *)
Arguments Here {A} a.
Arguments Glibc {A}.

(** [while (!is_poisoned(ptr64++)) size64++], run over the [count] words up
    to the end of the committed pool; [None] when the walk finds no token
    there. *)
Fixpoint count_words (st : state) (count : nat) (ptr64 size64 : Z)
    : option Z :=
  match count with
  | O => None
  | S c =>
      if is_poisoned st ptr64 then Some size64
      else count_words st c (ptr64 + sizeof_Token) (size64 + 1)
  end.

Definition rezzan_realloc (ptr size : Z) : M (handled Z) :=
  if ptr =? NULL then
    p <- rezzan_malloc size ;; ret (Here p)
  else
    st <- get ;;
    if negb (ptr mod sizeof_Unit =? 0) then error
    else if (ptr <? pool (cfg st))
            || (ptr >=? pool (cfg st) + sizeof_Unit * pool_size (cfg st))
    then ret Glibc     (* Not allocated by us: __libc_realloc *)
    else
      let committed := pool (cfg st) + sizeof_Unit * pool_mmap st in
      match count_words st (Z.to_nat ((committed - ptr) / sizeof_Token))
              ptr 0 with
      | None => segv
      | Some old_size64 =>
          let old_size := wrap64 (old_size64 * sizeof_Token) in
          let new_size := size in
          let copy_size :=
            if old_size <? new_size then old_size else new_size in
          let old_ptr := ptr in
          new_ptr <- rezzan_malloc new_size ;;
          if new_ptr =? NULL then ret (Here new_ptr)
          else
            copy_forward (Z.to_nat copy_size) new_ptr old_ptr ;;
            rezzan_free old_ptr ;;
            ret (Here new_ptr)
      end.

(** [for (size_t i = 0; i < nmemb * size; i++) if (ptr8[i] != 0x0) error] *)
Fixpoint any_nonzero (st : state) (count : nat) (ptr8 : Z) : bool :=
  match count with
  | O => false
  | S c =>
      if negb (load8 st ptr8 =? 0) then true
      else any_nonzero st c (ptr8 + 1)
  end.

Definition rezzan_calloc (nmemb size : Z) : M Z :=
  (* ReZZan's malloc() already zero's memory. *)
  ptr <- rezzan_malloc (wrap64 (nmemb * size)) ;;
  st <- get ;;
  if negb (ptr =? NULL) && option_checks (cfg st) then
    if any_nonzero st (Z.to_nat (wrap64 (nmemb * size))) ptr then error
    else ret ptr
  else ret ptr.


(** ** The string functions *)

Definition himagic : Z :=
  Z.lor (Z.shiftl (Z.shiftl 0x80808080 16) 16) 0x80808080.
Definition lomagic : Z :=
  Z.lor (Z.shiftl (Z.shiftl 0x01010101 16) 16) 0x01010101.

(** [for (char_ptr = str; (char_ptr & 7) != 0; ++char_ptr)
       if ( *char_ptr == 0) return char_ptr - str;]
    [inl] is the value returned from inside the loop, [inr] the aligned
    [char_ptr] the loop ends with. *)
Fixpoint strlen_head (st : state) (count : nat) (str char_ptr : Z) : Z + Z :=
  match count with
  | O => inr char_ptr
  | S c =>
      if negb (Z.land char_ptr (sizeof_Token - 1) =? 0) then
        if load8 st char_ptr =? 0 then inl (char_ptr - str)
        else strlen_head st c str (char_ptr + 1)
      else inr char_ptr
  end.

(** The [for (;;)] loop of [strlen], a longword at a time; [None] when the
    scan runs off the address space. *)
Fixpoint strlen_words (st : state) (count : nat) (str longword_ptr : Z)
    : option Z :=
  match count with
  | O => None
  | S c =>
      let longword := mem st longword_ptr in
      let longword_ptr := longword_ptr + sizeof_Token in
      if negb (Z.land (Z.land (wrap64 (longword - lomagic))
                         (wrap64 (Z.lnot longword))) himagic =? 0)
      then
        (* Which of the bytes was the zero? *)
        let cp := longword_ptr - sizeof_Token in
        if load8 st cp =? 0 then Some (cp - str)
        else if load8 st (cp + 1) =? 0 then Some (cp - str + 1)
        else if load8 st (cp + 2) =? 0 then Some (cp - str + 2)
        else if load8 st (cp + 3) =? 0 then Some (cp - str + 3)
        else if load8 st (cp + 4) =? 0 then Some (cp - str + 4)
        else if load8 st (cp + 5) =? 0 then Some (cp - str + 5)
        else if load8 st (cp + 6) =? 0 then Some (cp - str + 6)
        else if load8 st (cp + 7) =? 0 then Some (cp - str + 7)
        else strlen_words st c str longword_ptr    (* a misfire *)
      else strlen_words st c str longword_ptr
  end.

Definition strlen (str : Z) : M Z :=
  st <- get ;;
  (* To avoid the situation that the first byte is the zero byte of the
     token *)
  if is_poisoned st (Z.land str (-8)) then ud2
  else
    match strlen_head st (Z.to_nat sizeof_Token) str str with
    | inl n => ret n
    | inr longword_ptr =>
        match strlen_words st (Z.to_nat ((2 ^ 64 - longword_ptr) / sizeof_Token))
                str longword_ptr with
        | Some n => ret n
        | None => segv
        end
    end.

(** [for (i = 0; i < maxlen; ++i) if (s[i] == 0) break;] *)
Fixpoint strnlen_loop (st : state) (count : nat) (s i maxlen : Z) : Z :=
  match count with
  | O => i
  | S c =>
      if i <? maxlen then
        if load8 st (s + i) =? 0 then i
        else strnlen_loop st c s (i + 1) maxlen
      else i
  end.

Definition strnlen (s maxlen : Z) : M Z :=
  st <- get ;;
  if is_poisoned st (Z.land s (-8)) then ud2
  else ret (strnlen_loop st (Z.to_nat maxlen) s 0 maxlen).

Definition strcpy (dest src : Z) : M Z :=
  n <- strlen src ;;
  memcpy dest src (wrap64 (n + 1)).

Definition strcat (dest src : Z) : M Z :=
  n <- strlen dest ;;
  strcpy (dest + n) src ;;
  ret dest.

(** [memset] is not defined by the runtime: the call in [strncpy] reaches
    glibc's, which stores [n] bytes and tests no token. *)
Fixpoint fill (count : nat) (s8 c : Z) : M unit :=
  match count with
  | O => ret tt
  | S k => store8 s8 c ;; fill k (s8 + 1) c
  end.

Definition memset (s c n : Z) : M Z :=
  fill (Z.to_nat n) s (c mod 256) ;;
  ret s.

Definition strncpy (s1 s2 n : Z) : M Z :=
  size <- strnlen s2 n ;;
  (if negb (size =? n) then
     memset (s1 + size) 0 (wrap64 (n - size)) ;; ret tt
   else ret tt) ;;
  memcpy s1 s2 (wrap64 (size + 1)).

Definition strncat (s1 s2 n : Z) : M Z :=
  let s := s1 in
  (* Find the end of S1. *)
  len <- strlen s1 ;;
  let s1 := s1 + len in
  ss <- strnlen s2 n ;;
  store8 (s1 + ss) 0 ;;
  memcpy s1 s2 ss ;;
  ret s.

(** ** The wide-character functions *)

Definition sizeof_wchar_t : Z := 4.

Definition load32 (st : state) (a : Z) : Z :=
  load8 st a + 2 ^ 8 * load8 st (a + 1) + 2 ^ 16 * load8 st (a + 2)
  + 2 ^ 24 * load8 st (a + 3).

Definition __wmemcpy (s1 s2 n : Z) : M Z :=
  memcpy s1 s2 (wrap64 (n * sizeof_wchar_t)).

(** The loop of [__wcslen], four elements an iteration; [None] when the
    scan runs off the address space. *)
Fixpoint wcslen_loop (st : state) (count : nat) (s len : Z) : option Z :=
  match count with
  | O => None
  | S c =>
      if negb (load32 st (s + sizeof_wchar_t * len) =? 0) then
        let len := len + 1 in
        if load32 st (s + sizeof_wchar_t * len) =? 0 then Some len
        else
          let len := len + 1 in
          if load32 st (s + sizeof_wchar_t * len) =? 0 then Some len
          else
            let len := len + 1 in
            if load32 st (s + sizeof_wchar_t * len) =? 0 then Some len
            else
              let len := len + 1 in
              wcslen_loop st c s len
      else Some len
  end.

Definition __wcslen (s : Z) : M Z :=
  st <- get ;;
  match wcslen_loop st (Z.to_nat ((2 ^ 64 - s) / (4 * sizeof_wchar_t) + 1))
          s 0 with
  | Some len => ret len
  | None => segv
  end.

Definition wcscpy (dest src : Z) : M Z :=
  n <- __wcslen src ;;
  __wmemcpy dest src (wrap64 (n + 1)).

(** ** Vocabulary of the properties *)

(** The word [poison] writes and the test [is_poisoned] makes, as functions
    of the configuration and of the word alone. *)
Definition poison_word (c : config) (size : Z) : Z :=
  if nonce_size c =? 61 then
    Z.lxor (Z.land (wrap64 (- nonce c)) (-8)) (size mod sizeof_Token)
  else wrap64 (- nonce c).

Definition word_poisoned (c : config) (w : Z) : bool :=
  if nonce_size c =? 61 then wrap64 (Z.land w (-8) + nonce c) =? 0
  else if nonce_size c =? 64 then wrap64 (w + nonce c) =? 0
  else false.

(** What [rezzan_init] establishes about the configuration, for a random
    nonce other than zero. *)
Record config_ok (c : config) : Prop := mkConfigOk {
  mode_ok : nonce_size c = 61 \/ nonce_size c = 64;
  nonce_range : 0 < nonce c < 2 ^ 64;
  nonce_low : nonce_size c = 61 -> nonce c mod 8 = 0;
  pool_aligned : pool c mod PAGE_SIZE = 0;
  pool_low : PAGE_SIZE <= pool c;
  pool_high : pool c + sizeof_Unit * pool_size c < 2 ^ 64;
  pool_size_pos : 0 <= pool_size c
}.

(** Rounding up: [ceil (a / b)]. *)
Definition ceil_div (a b : Z) : Z := (a + b - 1) / b.

(** The address of word [k] of the pool region that starts at [ptr]. *)
Definition word_at (ptr k : Z) : Z := ptr + sizeof_Token * k.

(** A live object of [size] bytes and [units] units at [ptr]: base marker,
    user words, redzone with its boundary field. *)
Record object_at (st : state) (ptr size units : Z) : Prop := mkObjectAt {
  obj_size : 1 <= size;
  obj_units : units = ceil_div (size + sizeof_Token) sizeof_Unit;
  obj_aligned : ptr mod sizeof_Unit = 0;
  obj_low : pool (cfg st) + sizeof_Unit <= ptr;
  obj_high :
    ptr + sizeof_Unit * units <= pool (cfg st) + sizeof_Unit * pool_mmap st;
  obj_mapped : pool_mmap st <= pool_size (cfg st);
  obj_base : is_poisoned st (ptr - sizeof_Token) = true;
  obj_user : forall k, 0 <= k < ceil_div size 8 ->
    is_poisoned st (word_at ptr k) = false;
  obj_redzone : forall k, ceil_div size 8 <= k < 2 * units ->
    mem st (word_at ptr k) = poison_word (cfg st) size
}.

(** The nodes met from [node] along [next], at most [count] of them. *)
Fixpoint chain (nodes : Z -> FreeNode) (count : nat) (node : option Z)
    : list Z :=
  match count with
  | O => []
  | S c =>
      match node with
      | None => []
      | Some n => n :: chain nodes c (next (nodes n))
      end
  end.

(** The region a quarantine node describes is inside the allocated part of
    the pool and poisoned, the token before it included. *)
Record region_ok (st : state) (nd : FreeNode) : Prop := mkRegionOk {
  reg_low : 1 <= ptr128 nd;
  reg_size : 1 <= size128 nd;
  reg_high : ptr128 nd + size128 nd <= pool_ptr st;
  reg_poisoned : forall k, -1 <= k < 2 * size128 nd ->
    is_poisoned st
      (word_at (pool (cfg st) + sizeof_Unit * ptr128 nd) k) = true
}.

(** The state invariant the allocator relies on: configuration, pool
    bounds, the token that ends the allocated part, untouched memory above
    it, and poisoned regions behind every node on a quarantine list. *)
Record heap_ok (st : state) : Prop := mkHeapOk {
  heap_cfg : config_ok (cfg st);
  heap_ptr : 1 <= pool_ptr st <= pool_mmap st;
  heap_mmap : pool_mmap st <= pool_size (cfg st);
  heap_top :
    is_poisoned st
      (pool (cfg st) + sizeof_Unit * pool_ptr st - sizeof_Token) = true;
  heap_fresh : forall a,
    pool (cfg st) + sizeof_Unit * pool_ptr st <= a -> mem st a = 0;
  heap_quarantine : forall i count n,
    0 <= i < QUARANTINE_CLASSES ->
    In n (chain (nodes st) count (front (quarantine st i))) ->
    region_ok st (nodes st n)
}.

(** List well-formedness, as a test: [back] is the last node met from
    [front], and its [next] is [NULL]. *)
Definition entry_wf (st : state) (i : Z) : bool :=
  let e := quarantine st i in
  match front e, back e with
  | None, None => true
  | Some f, Some b =>
      let l := chain (nodes st) (Z.to_nat (quarantine_ptr st)) (Some f) in
      (last l f =? b) && is_null (next (nodes st b))
  | _, _ => false
  end.

Definition classes : list Z :=
  [0; 1; 2; 3; 4; 5; 6; 7; 8; 9; 10; 11; 12; 13; 14; 15; 16; 17; 18; 19].

Definition quarantine_wf (st : state) : bool := forallb (entry_wf st) classes.

(** The nodes on list [i], and whether node [n] is referenced by a list. *)
Definition list_nodes (st : state) (i : Z) : list Z :=
  chain (nodes st) (Z.to_nat (quarantine_ptr st)) (front (quarantine st i)).

Definition on_some_list (st : state) (n : Z) : bool :=
  existsb
    (fun i =>
       existsb (Z.eqb n) (list_nodes st i)
       || ptr_eqb (back (quarantine st i)) (Some n))
    classes.

(** The sum of [size128] over the nodes reachable on the 20 lists. *)
Definition quarantine_sum (st : state) : Z :=
  fold_right Z.add 0
    (map (fun i =>
            fold_right Z.add 0
              (map (fun n => size128 (nodes st n)) (list_nodes st i)))
       classes).

(** Running a computation for its outcome or for its state. *)
Definition outcome {A} (c : M A) (st : state) : result A := fst (c st).
Definition exec {A} (c : M A) (st : state) : state := snd (c st).

(** ** Scenarios *)

(** The defaults of [rezzan_init], with some random nonce. *)
Definition default_env : environment :=
  mkEnvironment 61 (2 ^ 28) POOL_SIZE 0 0x1234567890abcdef.

Definition boot (env : environment) : state := snd (rezzan_init env).
Definition st_init : state := boot default_env.

(** Scenario A: [p = malloc(5)]. *)
Definition st_A : state := exec (rezzan_malloc 5) st_init.
Definition p_A : Z := POOL_BASE + 16.

(** An object whose first redzone token starts a page:
    [malloc(4056); p = malloc(13)] puts [p] 16 bytes below a page
    boundary. *)
Definition st_page : state :=
  exec (rezzan_malloc 4056 ;; rezzan_malloc 13) st_init.
Definition p_page : Z := POOL_BASE + 4080.

(** [p = malloc(24); q = malloc(40); free(p); free(q)]: list 2 holds a
    2-unit node followed by a 3-unit node. *)
Definition st_two_freed : state :=
  exec (p <- rezzan_malloc 24 ;; q <- rezzan_malloc 40 ;;
        rezzan_free p ;; rezzan_free q) st_init.
Definition q_two : Z := POOL_BASE + 48.

(** ... then [quarantine_malloc(3)], which takes the second node ... *)
Definition st_detached : state := exec (quarantine_malloc 3) st_two_freed.

(** ... then the region goes back with [quarantine_insert]. *)
Definition st_lost : state := exec (quarantine_insert q_two 3) st_detached.

(** Eight 2-unit objects and one 3-unit object, freed in that order. *)
Definition st_nine_freed : state :=
  exec (p0 <- rezzan_malloc 24 ;; p1 <- rezzan_malloc 24 ;;
        p2 <- rezzan_malloc 24 ;; p3 <- rezzan_malloc 24 ;;
        p4 <- rezzan_malloc 24 ;; p5 <- rezzan_malloc 24 ;;
        p6 <- rezzan_malloc 24 ;; p7 <- rezzan_malloc 24 ;;
        p8 <- rezzan_malloc 40 ;;
        rezzan_free p0 ;; rezzan_free p1 ;; rezzan_free p2 ;;
        rezzan_free p3 ;; rezzan_free p4 ;; rezzan_free p5 ;;
        rezzan_free p6 ;; rezzan_free p7 ;; rezzan_free p8) st_init.

(** [p = malloc(5); q = malloc(24)]. *)
Definition st_AB : state := exec (rezzan_malloc 24) st_A.
Definition p_B : Z := POOL_BASE + 32.

(** [p = malloc(5); free(p)]. *)
Definition st_A_freed : state := exec (rezzan_free p_A) st_A.

(** [p = malloc(5); q = malloc(24); q[0] = 'h'; q[1] = 'i']. *)
Definition st_str : state :=
  exec (store8 p_B 104 ;; store8 (p_B + 1) 105) st_AB.

(** [q = malloc(24); p = malloc(8); strcpy(p, "abc"); strcpy(q, "hello")],
    the strings stored byte by byte. *)
Definition q_cat : Z := POOL_BASE + 16.
Definition p_cat : Z := POOL_BASE + 48.
Definition st_cat : state :=
  exec (rezzan_malloc 24 ;; rezzan_malloc 8 ;;
        store8 p_cat 97 ;; store8 (p_cat + 1) 98 ;; store8 (p_cat + 2) 99 ;;
        store8 q_cat 104 ;; store8 (q_cat + 1) 101 ;;
        store8 (q_cat + 2) 108 ;; store8 (q_cat + 3) 108 ;;
        store8 (q_cat + 4) 111) st_init.

(** ** Definitions used by the proofs *)

(** The size [rezzan_malloc] works with: a request of 0 bytes is one of 1
    byte. *)
Definition effective_size (size : Z) : Z := if size =? 0 then 1 else size.

(** [rezzan_malloc] from the point where the region is chosen. *)
Definition malloc_finish (q : bool) (ptr size size128 : Z) : M Z :=
  let end64 := wrap64 (ptr + size128 * sizeof_Unit) in
  let end64 := wrap64 (end64 - sizeof_Token) in
  poison end64 size ;;
  (if q then
     let start64 := ptr in
     let size64 := size in
     let size64 :=
       if negb (size64 mod sizeof_Token =? 0) then
         wrap64 (size64 - size64 mod sizeof_Token + sizeof_Token)
       else size64 in
     let end64 := wrap64 (start64 + sizeof_Token * (size64 / sizeof_Token)) in
     zero_tokens (word_steps start64 end64) start64 end64
   else ret tt) ;;
  let end8 := wrap64 (ptr + size) in
  let end64 := wrap64 (end64 - sizeof_Token) in
  end64 <- poison_redzone (word_steps end8 end64) end64 end8 size ;;
  st <- get ;;
  if option_checks (cfg st)
  then if sanity_checks_fail st ptr size size128 end64 end8 then error
       else ret ptr
  else ret ptr.

(** The tail inspection of the 61-bit mode, for the word at [t] and a
    window that ends [end_delta] bytes into the word before it. *)
Definition tail_traps (st : state) (t end_delta : Z) : bool :=
  negb (end_delta =? 0) && (nonce_size (cfg st) =? 61)
  && negb (t mod PAGE_SIZE =? 0) && rezzan_test_token61 st t
  && negb (boundary (mem st t) =? 0) && (boundary (mem st t) <? end_delta).


(** The state after [p = malloc(5)], [N] times [malloc(8)] and the [N]
    frees of those one-unit objects, in closed form: [N] nodes on list 1,
    the pool committed up to [committed] units. *)
Definition st_after_frees (N committed : Z) : state :=
  let c := cfg st_init in
  mkState c (N + 2) committed N
    (QUARANTINE_MMAP_SIZE * ((N - 1) / QUARANTINE_MMAP_SIZE + 1)) None
    (fun i =>
       if i =? 1 then mkEntry (Some 0) (Some (N - 1)) else mkEntry None None)
    N
    (fun k =>
       if (0 <=? k) && (k <? N) then
         mkFreeNode (k + 2) 1 (if k + 1 <? N then Some (k + 1) else None)
       else mkFreeNode 0 0 None)
    (fun a =>
       if a =? p_A then 0
       else if a =? p_A + 8 then poison_word c 5
       else if (POOL_BASE <=? a) && (a <? POOL_BASE + 16 * (N + 2))
               && (a mod 8 =? 0)
       then poison_word c 0
       else 0)
    0.

(** What can be compared of two states: the globals, the first nodes and
    the first words of the pool. *)
Definition observe (st : state) :=
  (pool_ptr st, pool_mmap st, quarantine_ptr st, quarantine_mmap st,
   quarantine_free st, map (quarantine st) classes, quarantine_usage st,
   map (nodes st) [0; 1; 2; 3; 4],
   map (fun k => mem st (POOL_BASE + 8 * k))
     [-2; -1; 0; 1; 2; 3; 4; 5; 6; 7; 8; 9; 10; 11; 12],
   errno st).

Definition st_three_freed : state :=
  exec (p <- rezzan_malloc 5 ;; a <- rezzan_malloc 8 ;;
        b <- rezzan_malloc 8 ;; c <- rezzan_malloc 8 ;;
        rezzan_free a ;; rezzan_free b ;; rezzan_free c) st_init.


(** Some buffer outside the pool. *)
Definition src_buf : Z := 0x7f0000000000.

(** The memory after [store8 a b]. *)
Definition stored8 (m : Z -> Z) (a b : Z) : Z -> Z :=
  let k := a mod sizeof_Token in
  upd m (a - k)
    (Z.lor (Z.land (m (a - k)) (Z.lnot (Z.shiftl 255 (8 * k))))
       (Z.shiftl b (8 * k))).

(** * Properties *)

(** ** Arithmetic and tokens *)

Lemma wrap64_small z : 0 <= z < 2 ^ 64 -> wrap64 z = z.
Proof. intros H. unfold wrap64. apply Z.mod_small. exact H. Qed.

Lemma wrap64_range z : 0 <= wrap64 z < 2 ^ 64.
Proof. unfold wrap64. apply Z.mod_pos_bound. lia. Qed.

Lemma to_int_small z : - 2 ^ 31 <= z < 2 ^ 31 -> to_int z = z.
Proof. intros H. unfold to_int. rewrite Z.mod_small; lia. Qed.

Lemma land_m8 x : Z.land x (-8) = x - x mod 8.
Proof.
  change (-8) with (Z.lnot (Z.ones 3)).
  rewrite <- Z.ldiff_land, Z.ldiff_ones_r by lia.
  rewrite Z.shiftr_div_pow2, Z.shiftl_mul_pow2 by lia.
  change (2 ^ 3) with 8. pose proof (Z.div_mod x 8). lia.
Qed.

Lemma land_7 x : Z.land x 7 = x mod 8.
Proof. change 7 with (Z.ones 3). rewrite Z.land_ones by lia. reflexivity. Qed.

Lemma lxor_low x b : x mod 8 = 0 -> 0 <= b < 8 -> Z.lxor x b = x + b.
Proof.
  intros Hx Hb. symmetry. apply Z.add_nocarry_lxor.
  assert (Eb : b = Z.land b 7) by (rewrite land_7, Z.mod_small; lia).
  rewrite Eb, Z.land_assoc, (Z.land_comm x b), <- Z.land_assoc.
  rewrite (land_7 x), Hx. apply Z.land_0_r.
Qed.

Lemma is_poisoned_word st a :
  is_poisoned st a = word_poisoned (cfg st) (mem st a).
Proof. reflexivity. Qed.

Lemma wrap64_neg x : 0 < x < 2 ^ 64 -> wrap64 (- x) = 2 ^ 64 - x.
Proof.
  intros H. unfold wrap64.
  replace (- x) with (2 ^ 64 - x + (-1) * 2 ^ 64) by lia.
  rewrite Z.mod_add by lia. apply Z.mod_small. lia.
Qed.

Lemma neg_nonce_mod8 c :
  config_ok c -> nonce_size c = 61 -> wrap64 (- nonce c) mod 8 = 0.
Proof.
  intros [_ Hr Hl _ _ _ _] H61. specialize (Hl H61).
  rewrite wrap64_neg by exact Hr.
  pose proof (Z.div_mod (nonce c) 8).
  replace (2 ^ 64 - nonce c) with ((2 ^ 61 - nonce c / 8) * 8) by lia.
  apply Z.mod_mul. lia.
Qed.

Lemma poison_word_61 c size :
  config_ok c -> nonce_size c = 61 ->
  poison_word c size = 2 ^ 64 - nonce c + size mod 8.
Proof.
  intros Hc H61. unfold poison_word. rewrite H61. simpl (61 =? 61).
  cbv iota. pose proof (neg_nonce_mod8 c Hc H61) as Hm.
  rewrite land_m8, Hm, Z.sub_0_r.
  unfold sizeof_Token. rewrite lxor_low.
  - rewrite wrap64_neg by apply Hc. reflexivity.
  - exact Hm.
  - apply Z.mod_pos_bound. lia.
Qed.

Lemma word_poisoned_poison_word c size :
  config_ok c -> word_poisoned c (poison_word c size) = true.
Proof.
  intros Hc. destruct (mode_ok c Hc) as [H61 | H64].
  - rewrite poison_word_61 by assumption.
    unfold word_poisoned. rewrite H61. simpl (61 =? 61). cbv iota.
    rewrite land_m8. pose proof (nonce_low c Hc H61) as Hl.
    pose proof (nonce_range c Hc) as Hr.
    pose proof (Z.mod_pos_bound size 8 ltac:(lia)) as Hs.
    replace ((2 ^ 64 - nonce c + size mod 8) mod 8) with (size mod 8).
    + apply Z.eqb_eq. unfold wrap64.
      replace (2 ^ 64 - nonce c + size mod 8 - size mod 8 + nonce c)
        with (1 * 2 ^ 64) by lia.
      apply Z.mod_mul. lia.
    + pose proof (Z.div_mod (nonce c) 8).
      replace (2 ^ 64 - nonce c + size mod 8)
        with (size mod 8 + (2 ^ 61 - nonce c / 8) * 8) by lia.
      rewrite Z.mod_add by lia. symmetry. apply Z.mod_small. exact Hs.
  - unfold word_poisoned, poison_word. rewrite H64. simpl.
    rewrite wrap64_neg by apply Hc. apply Z.eqb_eq. unfold wrap64.
    replace (2 ^ 64 - nonce c + nonce c) with (1 * 2 ^ 64) by lia.
    apply Z.mod_mul. lia.
Qed.

Lemma word_poisoned_zero c : config_ok c -> word_poisoned c 0 = false.
Proof.
  intros Hc. pose proof (nonce_range c Hc) as Hr.
  unfold word_poisoned.
  destruct (mode_ok c Hc) as [H | H]; rewrite H; simpl;
    apply Z.eqb_neq; rewrite wrap64_small; lia.
Qed.

Lemma boundary_poison_word c size :
  config_ok c -> nonce_size c = 61 ->
  boundary (poison_word c size) = size mod 8.
Proof.
  intros Hc H61. rewrite poison_word_61 by assumption.
  unfold boundary. rewrite land_7.
  pose proof (nonce_low c Hc H61) as Hl.
  pose proof (Z.div_mod (nonce c) 8).
  replace (2 ^ 64 - nonce c + size mod 8)
    with (size mod 8 + (2 ^ 61 - nonce c / 8) * 8) by lia.
  rewrite Z.mod_add by lia. apply Z.mod_small. apply Z.mod_pos_bound. lia.
Qed.

Lemma poison_run c a size st :
  cfg st = c -> config_ok c ->
  poison a size st =
    (Ok tt, set_mem (upd (mem st) a (poison_word c size)) st).
Proof.
  intros <- Hc. unfold poison, poison_word.
  destruct (mode_ok _ Hc) as [H | H]; rewrite H; reflexivity.
Qed.

Ltac zdiv := Z.to_euclidean_division_equations; lia.

Lemma poison_redzone_run c count : forall end64 end8 size st,
  cfg st = c -> config_ok c ->
  Z.of_nat count = (if end64 >=? end8 then (end64 - end8) / 8 + 1 else 0) ->
  exists m',
    poison_redzone count end64 end8 size st
      = (Ok (end64 - 8 * Z.of_nat count), set_mem m' st)
    /\ (forall j, 0 <= j < Z.of_nat count ->
          m' (end64 - 8 * j) = poison_word c size)
    /\ (forall a, (forall j, 0 <= j < Z.of_nat count -> a <> end64 - 8 * j) ->
          m' a = mem st a).
Proof.
  induction count as [| n IH]; intros end64 end8 size st Hcfg Hc Hn.
  - exists (mem st). cbn [poison_redzone]. unfold ret.
    replace (end64 - 8 * Z.of_nat 0) with end64 by lia.
    destruct st; repeat split; intros; try reflexivity; lia.
  - rewrite Nat2Z.inj_succ in *. unfold Z.succ in *.
    cbn [poison_redzone].
    destruct (Z.geb_spec end64 end8) as [Hge | Hlt]; [| lia].
    unfold bind at 1. rewrite (poison_run c) by assumption.
    set (st2 := set_mem (upd (mem st) end64 (poison_word c size)) st).
    destruct (IH (end64 - sizeof_Token) end8 size st2 Hcfg Hc)
      as (m' & Hrun & Hin & Hout).
    { unfold sizeof_Token.
      destruct (Z.geb_spec (end64 - 8) end8); zdiv. }
    exists m'. split; [| split].
    + rewrite Hrun. unfold sizeof_Token. f_equal. f_equal. lia.
    + intros j Hj. destruct (Z.eq_dec j 0) as [-> | Hnz].
      * replace (end64 - 8 * 0) with end64 by lia. rewrite Hout.
        -- unfold st2, set_mem, upd. cbn [mem]. rewrite Z.eqb_refl. reflexivity.
        -- intros j Hj'. unfold sizeof_Token. lia.
      * replace (end64 - 8 * j) with (end64 - sizeof_Token - 8 * (j - 1))
          by (unfold sizeof_Token; lia).
        apply Hin. lia.
    + intros a Ha. rewrite Hout.
      * unfold st2, set_mem, upd. cbn [mem].
        destruct (Z.eqb_spec a end64) as [-> |]; [| reflexivity].
        exfalso. apply (Ha 0); lia.
      * intros j Hj E. apply (Ha (j + 1)); unfold sizeof_Token in *; lia.
Qed.

Lemma zero_tokens_run count : forall start64 end64 st,
  Z.of_nat count >= (end64 - start64) / 8 -> (end64 - start64) mod 8 = 0 ->
  exists m',
    zero_tokens count start64 end64 st = (Ok tt, set_mem m' st)
    /\ (forall j, 0 <= j < (end64 - start64) / 8 -> m' (start64 + 8 * j) = 0)
    /\ (forall a, (forall j, 0 <= j < (end64 - start64) / 8 ->
                     a <> start64 + 8 * j) -> m' a = mem st a).
Proof.
  induction count as [| n IH]; intros start64 end64 st Hn Hm.
  - exists (mem st). cbn [zero_tokens]. unfold ret.
    destruct st; repeat split; intros; try reflexivity. cbn in *. lia.
  - rewrite Nat2Z.inj_succ in *. unfold Z.succ in *.
    cbn [zero_tokens].
    destruct (Z.ltb_spec start64 end64) as [Hlt | Hge].
    + unfold bind at 1, zero, rezzan_zero_token, modify.
      set (st2 := set_mem (upd (mem st) start64 0) st).
      destruct (IH (start64 + sizeof_Token) end64 st2) as (m' & Hrun & Hin & Hout).
      { unfold sizeof_Token. zdiv. }
      { unfold sizeof_Token. zdiv. }
      unfold sizeof_Token in *.
      assert (E : (end64 - (start64 + 8)) / 8 = (end64 - start64) / 8 - 1) by zdiv.
      rewrite E in *.
      exists m'. split; [exact Hrun | split].
      * intros j Hj. destruct (Z.eq_dec j 0) as [-> | Hnz].
        -- replace (start64 + 8 * 0) with start64 by lia. rewrite Hout.
           ++ unfold st2, set_mem, upd. cbn [mem]. rewrite Z.eqb_refl. reflexivity.
           ++ intros j Hj'. lia.
        -- replace (start64 + 8 * j) with (start64 + 8 + 8 * (j - 1)) by lia.
           apply Hin. lia.
      * intros a Ha. rewrite Hout.
        -- unfold st2, set_mem, upd. cbn [mem].
           destruct (Z.eqb_spec a start64) as [-> |]; [| reflexivity].
           exfalso. apply (Ha 0); [zdiv | lia].
        -- intros j Hj E'. apply (Ha (j + 1)); lia.
    + exists (mem st). unfold ret.
      assert ((end64 - start64) / 8 <= 0) by zdiv.
      destruct st; repeat split; intros; try reflexivity. cbn in *. lia.
Qed.

Lemma poison_object_run c ptr u : forall k fuel i st,
  cfg st = c -> config_ok c ->
  i + Z.of_nat k = u -> (k < fuel)%nat ->
  (forall j, i <= j < u -> is_poisoned st (word_at ptr j) = false) ->
  is_poisoned st (word_at ptr u) = true ->
  exists m',
    poison_object fuel ptr i st = (Ok u, set_mem m' st)
    /\ (forall j, i <= j < u -> m' (word_at ptr j) = poison_word c 0)
    /\ (forall a, (forall j, i <= j < u -> a <> word_at ptr j) ->
          m' a = mem st a).
Proof.
  induction k as [| n IH]; intros fuel i st Hcfg Hc Hi Hfuel Huser Hend.
  - destruct fuel as [| f]; [lia |]. cbn [poison_object].
    assert (i = u) by lia. subst i.
    unfold bind, get. unfold word_at in Hend. rewrite Hend.
    exists (mem st). unfold ret.
    destruct st; repeat split; intros; try reflexivity. lia.
  - destruct fuel as [| f]; [lia |]. cbn [poison_object].
    rewrite Nat2Z.inj_succ in Hi. unfold Z.succ in Hi.
    unfold bind at 1, get.
    pose proof (Huser i ltac:(lia)) as Hi0. unfold word_at in Hi0.
    rewrite Hi0. unfold bind at 1. rewrite (poison_run c) by assumption.
    set (st2 := set_mem (upd (mem st) (ptr + sizeof_Token * i) (poison_word c 0)) st).
    destruct (IH f (i + 1) st2 Hcfg Hc ltac:(lia) ltac:(lia)) as (m' & Hrun & Hin & Hout).
    { intros j Hj. rewrite is_poisoned_word. unfold st2, set_mem, upd. cbn [mem cfg].
      destruct (Z.eqb_spec (word_at ptr j) (ptr + sizeof_Token * i)) as [E | _].
      - unfold word_at, sizeof_Token in E. lia.
      - apply (Huser j). lia. }
    { rewrite is_poisoned_word. unfold st2, set_mem, upd. cbn [mem cfg].
      destruct (Z.eqb_spec (word_at ptr u) (ptr + sizeof_Token * i)) as [E | _].
      - unfold word_at, sizeof_Token in E. lia.
      - exact Hend. }
    exists m'. split; [exact Hrun | split].
    + intros j Hj. destruct (Z.eq_dec j i) as [-> | Hne].
      * rewrite Hout.
        -- unfold st2, set_mem, upd, word_at. cbn [mem]. rewrite Z.eqb_refl. reflexivity.
        -- intros j Hj' E. unfold word_at, sizeof_Token in E. lia.
      * apply Hin. lia.
    + intros a Ha. rewrite Hout.
      * unfold st2, set_mem, upd. cbn [mem].
        destruct (Z.eqb_spec a (ptr + sizeof_Token * i)) as [-> |]; [| reflexivity].
        exfalso. apply (Ha i); [lia | reflexivity].
      * intros j Hj. apply Ha. lia.
Qed.

(** *** The pool *)

Lemma pool_malloc_full st size128 :
  0 <= pool_ptr st -> 0 <= size128 -> pool_ptr st + size128 < 2 ^ 64 ->
  pool_ptr st + size128 > pool_size (cfg st) ->
  pool_malloc size128 st = (Ok NULL, set_errno ENOMEM st).
Proof.
  intros H0 H1 H2 H3. unfold pool_malloc, bind at 1, get.
  rewrite wrap64_small by lia.
  destruct (Z.gtb_spec (pool_ptr st + size128) (pool_size (cfg st))); [| lia].
  reflexivity.
Qed.

Lemma pool_malloc_ok st size128 :
  heap_ok st -> 0 <= size128 ->
  pool_ptr st + size128 <= pool_size (cfg st) ->
  exists st',
    pool_malloc size128 st
      = (Ok (pool (cfg st) + sizeof_Unit * pool_ptr st), st')
    /\ cfg st' = cfg st
    /\ pool_ptr st' = pool_ptr st + size128
    /\ pool_ptr st' <= pool_mmap st' <= pool_size (cfg st)
    /\ (forall a, mem st' a = mem st a)
    /\ nodes st' = nodes st /\ quarantine st' = quarantine st.
Proof.
  intros Hok H0 Hfit.
  destruct Hok as [Hc Hptr Hmmap Htop Hfresh _].
  pose proof (pool_high _ Hc) as Hhigh. pose proof (pool_low _ Hc) as Hlow.
  unfold PAGE_SIZE, sizeof_Unit in *.
  unfold pool_malloc, bind at 1, get. unfold sizeof_Unit.
  rewrite (wrap64_small (pool_ptr st + size128)) by lia.
  rewrite (wrap64_small (pool (cfg st) + 16 * pool_ptr st)) by lia.
  destruct (Z.gtb_spec (pool_ptr st + size128) (pool_size (cfg st))); [lia |].
  destruct (Z.gtb_spec (pool_ptr st + size128) (pool_mmap st)) as [Hgrow | Hin].
  - set (m1 := wrap64 (pool_ptr st + size128 + POOL_MMAP_SIZE)).
    set (m2 := if negb (m1 mod (PAGE_SIZE / 16) =? 0)
               then wrap64 (m1 + PAGE_SIZE / 16)
                    - wrap64 (m1 + PAGE_SIZE / 16) mod (PAGE_SIZE / 16)
               else m1).
    set (m3 := if m2 >? pool_size (cfg st) then pool_size (cfg st) else m2).
    assert (Hm1 : m1 = pool_ptr st + size128 + 2048).
    { unfold m1, POOL_MMAP_SIZE, sizeof_Unit. apply wrap64_small.
      change (2 ^ 15 / 16) with 2048. lia. }
    assert (Hm2 : m1 <= m2).
    { unfold m2, PAGE_SIZE. change (4096 / 16) with 256.
      destruct (negb (m1 mod 256 =? 0)); [| lia].
      rewrite (wrap64_small (m1 + 256)) by lia. zdiv. }
    assert (Hm3 : pool_ptr st + size128 <= m3 <= pool_size (cfg st)).
    { unfold m3. destruct (Z.gtb_spec m2 (pool_size (cfg st))); lia. }
    eexists. split; [reflexivity |].
    cbn [cfg pool_ptr pool_mmap mem set_pool_ptr set_pool_mmap set_mem].
    rewrite (wrap64_small (pool_ptr st + size128)) by lia.
    fold m3. repeat split; try lia.
    intros a.
    destruct (Z.leb_spec (pool (cfg st) + 16 * pool_mmap st) a); cbn [andb];
      [| reflexivity].
    destruct (a <? pool (cfg st) + 16 * m3); [| reflexivity].
    symmetry. apply Hfresh. lia.
  - eexists. split; [reflexivity |].
    cbn [cfg pool_ptr pool_mmap mem set_pool_ptr set_pool_mmap set_mem].
    rewrite (wrap64_small (pool_ptr st + size128)) by lia.
    repeat split; lia.
Qed.

(** *** The quarantine *)

Lemma clz_from_range x bits : 0 <= clz_from x bits <= Z.of_nat bits.
Proof.
  induction bits as [| b IH]; [cbn; lia |].
  rewrite Nat2Z.inj_succ. cbn [clz_from].
  destruct (Z.testbit x (Z.of_nat b)); lia.
Qed.

Lemma quarantine_index_range s : 0 <= quarantine_index s < QUARANTINE_CLASSES.
Proof.
  unfold quarantine_index, QUARANTINE_CLASSES.
  destruct (s =? 0); [lia |].
  pose proof (clz_from_range s 64) as H. unfold builtin_clzll.
  change (Z.of_nat 64) with 64 in H.
  destruct (Z.geb_spec (64 - clz_from s 64) 20); lia.
Qed.

Lemma scan_list_in nodes size budget : forall prev node prev' n,
  scan_list nodes size budget prev node = (prev', Some n) ->
  In n (chain nodes (S budget) node).
Proof.
  induction budget as [| b IH]; intros prev node prev' n H.
  - cbn in H. inversion H; subst. cbn. left. reflexivity.
  - cbn [scan_list] in H. destruct node as [m |]; [| discriminate].
    destruct (size128 (nodes m) >=? size).
    + inversion H; subst. cbn. left. reflexivity.
    + cbn [chain]. right. eapply IH. exact H.
Qed.

Lemma first_phase_in st size prev n :
  first_phase st size = (prev, Some n) ->
  In n (chain (nodes st) (S LIMIT)
          (front (quarantine st (quarantine_index size))))
  /\ size <= size128 (nodes st n).
Proof.
  unfold first_phase.
  destruct (scan_list (nodes st) size LIMIT None
              (front (quarantine st (quarantine_index size))))
    as [prev0 node0] eqn:E.
  intros H. destruct node0 as [m |]; [| discriminate].
  destruct (Z.ltb_spec (size128 (nodes st m)) size); [discriminate |].
  inversion H; subst. split; [| lia].
  eapply scan_list_in. exact E.
Qed.

Lemma scan_classes_found st size count : forall i node i' n,
  0 <= i -> QUARANTINE_CLASSES <= i + Z.of_nat count ->
  scan_classes st size count i node = (i', Some n) ->
  QUARANTINE_CLASSES <= i'
  \/ (0 <= i' < QUARANTINE_CLASSES
      /\ front (quarantine st i') = Some n
      /\ size <= size128 (nodes st n)).
Proof.
  induction count as [| c IH]; intros i node i' n Hi Hc H.
  - cbn in H. inversion H; subst. left. lia.
  - cbn [scan_classes] in H. rewrite Nat2Z.inj_succ in Hc.
    destruct (Z.ltb_spec i QUARANTINE_CLASSES) as [Hlt | Hge].
    + destruct (front (quarantine st i)) as [m |] eqn:Ef.
      * destruct (Z.geb_spec (size128 (nodes st m)) size).
        -- inversion H; subst. right. repeat split; try lia. exact Ef.
        -- apply (IH (i + 1) (Some m)); [lia | lia | exact H].
      * apply (IH (i + 1) None); [lia | lia | exact H].
    + inversion H; subst. left. lia.
Qed.

Lemma upd_node_ptr128 (nd : Z -> FreeNode) p x n :
  ptr128 (upd nd p (mkFreeNode (ptr128 (nd p)) (size128 (nd p)) x) n)
  = ptr128 (nd n).
Proof. unfold upd. destruct (Z.eqb_spec n p); subst; reflexivity. Qed.

Lemma upd_node_size128 (nd : Z -> FreeNode) p x n :
  size128 (upd nd p (mkFreeNode (ptr128 (nd p)) (size128 (nd p)) x) n)
  = size128 (nd n).
Proof. unfold upd. destruct (Z.eqb_spec n p); subst; reflexivity. Qed.

Ltac state_simpl :=
  cbn [cfg pool_ptr pool_mmap quarantine_ptr quarantine_mmap quarantine_free
       quarantine quarantine_usage nodes mem errno
       set_pool_ptr set_pool_mmap set_quarantine_ptr set_quarantine_mmap
       set_quarantine_free set_quarantine set_quarantine_usage set_nodes
       set_mem set_errno set_node_next set_node_size128 set_node_ptr128
       set_front set_back fst snd].
Ltac state_simpl_in H :=
  cbn [cfg pool_ptr pool_mmap quarantine_ptr quarantine_mmap quarantine_free
       quarantine quarantine_usage nodes mem errno
       set_pool_ptr set_pool_mmap set_quarantine_ptr set_quarantine_mmap
       set_quarantine_free set_quarantine set_quarantine_usage set_nodes
       set_mem set_errno set_node_next set_node_size128 set_node_ptr128
       set_front set_back fst snd] in H.
Ltac run_in H := unfold bind, modify, get, ret, undefined, error, ud2 in H.

(** What [quarantine_malloc] hands out: nothing, leaving the state as it
    is, or the tail [size] units of the region of a listed node. *)
Lemma quarantine_malloc_ok st size ptr st' :
  heap_ok st -> 0 <= size ->
  quarantine_malloc size st = (Ok ptr, st') ->
  (ptr = NULL /\ st' = st)
  \/ (cfg st' = cfg st /\ mem st' = mem st
      /\ pool_ptr st' = pool_ptr st /\ pool_mmap st' = pool_mmap st
      /\ exists nd d,
           region_ok st nd /\ 0 <= d /\ d + size = size128 nd
           /\ ptr = pool (cfg st) + sizeof_Unit * (ptr128 nd + d)).
Proof.
  intros Hok Hsize.
  pose proof (heap_cfg _ Hok) as Hc.
  pose proof (pool_high _ Hc) as Hhigh. pose proof (pool_low _ Hc) as Hlow.
  pose proof (heap_ptr _ Hok) as Hptr. pose proof (heap_mmap _ Hok) as Hmm.
  pose proof (quarantine_index_range size) as Hidx.
  assert (Hexact :
    forall i count n, 0 <= i < QUARANTINE_CLASSES ->
      In n (chain (nodes st) count (front (quarantine st i))) ->
      size128 (nodes st n) = size ->
      exists nd d,
        region_ok st nd /\ 0 <= d /\ d + size = size128 nd
        /\ wrap64 (pool (cfg st) + sizeof_Unit * ptr128 (nodes st n))
           = pool (cfg st) + sizeof_Unit * (ptr128 nd + d)).
  { intros i count n Hi Hin E.
    pose proof (heap_quarantine _ Hok i count n Hi Hin) as Hreg.
    exists (nodes st n), 0. destruct Hreg as [Rl Rs Rh Rp].
    split; [constructor; assumption |]. split; [lia |]. split; [lia |].
    unfold sizeof_Unit, PAGE_SIZE in *. rewrite wrap64_small by lia. lia. }
  assert (Hsplit :
    forall i count n, 0 <= i < QUARANTINE_CLASSES ->
      In n (chain (nodes st) count (front (quarantine st i))) ->
      size <= size128 (nodes st n) ->
      exists nd d,
        region_ok st nd /\ 0 <= d /\ d + size = size128 nd
        /\ wrap64 (pool (cfg st) + sizeof_Unit * ptr128 (nodes st n)
                   + sizeof_Unit * wrap64 (size128 (nodes st n) - size))
           = pool (cfg st) + sizeof_Unit * (ptr128 nd + d)).
  { intros i count n Hi Hin E.
    pose proof (heap_quarantine _ Hok i count n Hi Hin) as Hreg.
    exists (nodes st n), (size128 (nodes st n) - size).
    destruct Hreg as [Rl Rs Rh Rp].
    split; [constructor; assumption |]. split; [lia |]. split; [lia |].
    unfold sizeof_Unit, PAGE_SIZE in *.
    rewrite (wrap64_small (size128 (nodes st n) - size)) by lia.
    rewrite wrap64_small by lia. lia. }
  unfold quarantine_malloc, bind at 1, get.
  destruct (first_phase st size) as [prev node] eqn:E1.
  destruct node as [n |].
  - (* found on the list of the class *)
    destruct (first_phase_in _ _ _ _ E1) as [Hin Hge].
    specialize (Hexact _ _ _ Hidx Hin). specialize (Hsplit _ _ _ Hidx Hin Hge).
    intros H. right.
    destruct prev as [p |];
      [| destruct (Z.geb_spec (quarantine_index size) QUARANTINE_CLASSES)
           as [Hg | Hg];
         [lia |];
         destruct (negb (ptr_eqb (front (quarantine st (quarantine_index size)))
                           (back (quarantine st (quarantine_index size)))))];
      run_in H; state_simpl_in H;
      repeat rewrite upd_node_size128 in H;
      repeat rewrite upd_node_ptr128 in H;
      (destruct (Z.eqb_spec (size128 (nodes st n)) size) as [Eq | Eq];
       [| match type of H with
          | context [match front ?e with _ => _ end] => destruct (front e)
          end ]);
      inversion H; subst ptr st'; clear H; state_simpl;
      (split; [reflexivity |]); (split; [reflexivity |]);
      (split; [reflexivity |]); (split; [reflexivity |]);
      first [ apply Hexact; exact Eq | exact Hsplit ].
  - (* escalation to the larger classes *)
    destruct (scan_classes st size (Z.to_nat QUARANTINE_CLASSES)
                (quarantine_index size + 1) None) as [i node] eqn:E2.
    destruct node as [n |].
    + assert (H0 : 0 <= quarantine_index size + 1) by lia.
      assert (H1 : QUARANTINE_CLASSES
                   <= quarantine_index size + 1
                      + Z.of_nat (Z.to_nat QUARANTINE_CLASSES))
        by (unfold QUARANTINE_CLASSES in *; lia).
      destruct (scan_classes_found _ _ _ _ _ _ _ H0 H1 E2)
        as [Hout | (Hi & Hfront & Hge)].
      * destruct (Z.geb_spec i QUARANTINE_CLASSES) as [Hg | Hg]; [| lia].
        intros H. run_in H. discriminate H.
      * assert (Hin : In n (chain (nodes st) 1 (front (quarantine st i)))).
        { rewrite Hfront. cbn. left. reflexivity. }
        specialize (Hexact _ _ _ Hi Hin). specialize (Hsplit _ _ _ Hi Hin Hge).
        intros H. right.
        destruct (Z.geb_spec i QUARANTINE_CLASSES) as [Hg | Hg]; [lia |].
        destruct (negb (ptr_eqb (front (quarantine st i))
                          (back (quarantine st i))));
          run_in H; state_simpl_in H;
          (destruct (Z.eqb_spec (size128 (nodes st n)) size) as [Eq | Eq];
           [| match type of H with
              | context [match front ?e with _ => _ end] => destruct (front e)
              end ]);
          inversion H; subst ptr st'; clear H; state_simpl;
          (split; [reflexivity |]); (split; [reflexivity |]);
          (split; [reflexivity |]); (split; [reflexivity |]);
          first [ apply Hexact; exact Eq | exact Hsplit ].
    + intros H. left. unfold ret in H. inversion H. split; reflexivity.
Qed.

(** *** malloc *)

Lemma rezzan_malloc_unfold size :
  rezzan_malloc size =
  (st <- get ;;
   ptr <- (if quarantine_usage st >? quarantine_size (cfg st)
           then quarantine_malloc (malloc_size128 size) else ret NULL) ;;
   let q := negb (ptr =? NULL) in
   ptr <- (if negb q then pool_malloc (malloc_size128 size) else ret ptr) ;;
   if ptr =? NULL then error
   else malloc_finish q ptr (effective_size size) (malloc_size128 size)).
Proof. reflexivity. Qed.

Lemma set_mem_same st : set_mem (mem st) st = st.
Proof. destruct st; reflexivity. Qed.

Lemma any_poisoned_false st a count :
  (forall j, 0 <= j < Z.of_nat count -> is_poisoned st (word_at a j) = false) ->
  any_poisoned st a count = false.
Proof.
  revert a. induction count as [| c IH]; intros a H; [reflexivity |].
  cbn [any_poisoned]. pose proof (H 0 ltac:(lia)) as H0.
  unfold word_at, sizeof_Token in *. rewrite Z.mul_0_r, Z.add_0_r in H0.
  rewrite H0. apply IH. intros j Hj.
  specialize (H (j + 1) ltac:(lia)).
  rewrite <- H. f_equal. lia.
Qed.

Lemma any_poisoned_true st a count j :
  0 <= j < Z.of_nat count -> is_poisoned st (word_at a j) = true ->
  any_poisoned st a count = true.
Proof.
  revert a j. induction count as [| c IH]; intros a j Hj H; [lia |].
  cbn [any_poisoned]. destruct (is_poisoned st a) eqn:E; [reflexivity |].
  apply (IH _ (j - 1)).
  - destruct (Z.eq_dec j 0) as [-> |]; [| lia].
    unfold word_at, sizeof_Token in H. rewrite Z.mul_0_r, Z.add_0_r in H. congruence.
  - rewrite <- H. f_equal. unfold word_at, sizeof_Token. lia.
Qed.

Lemma any_unpoisoned_false st a count :
  (forall j, 0 <= j < Z.of_nat count -> is_poisoned st (word_at a j) = true) ->
  any_unpoisoned st a count = false.
Proof.
  revert a. induction count as [| c IH]; intros a H; [reflexivity |].
  cbn [any_unpoisoned]. pose proof (H 0 ltac:(lia)) as H0.
  unfold word_at, sizeof_Token in *. rewrite Z.mul_0_r, Z.add_0_r in H0.
  rewrite H0. apply IH. intros j Hj.
  specialize (H (j + 1) ltac:(lia)).
  rewrite <- H. f_equal. lia.
Qed.

(** The tests under [option_checks] pass on a live object. *)
Lemma sanity_checks_pass st ptr size units :
  config_ok (cfg st) -> object_at st ptr size units ->
  sanity_checks_fail st ptr size units
    (ptr + 8 * (ceil_div size 8 - 1)) (ptr + size) = false.
Proof.
  intros Hc [Hsize Hunits Hal Hlow Hhigh Hmm Hbase Huser Hred].
  pose proof (pool_high _ Hc) as Phigh. pose proof (pool_low _ Hc) as Plow.
  unfold ceil_div, sizeof_Token, sizeof_Unit, PAGE_SIZE in *.
  set (u := (size + 8 - 1) / 8) in *.
  assert (Hu : 1 <= u /\ 8 * (u - 1) < size <= 8 * u) by (unfold u; zdiv).
  assert (HT : u + 1 <= 2 * units <= u + 2) by (subst units; unfold u; zdiv).
  assert (Eu : (size + sizeof_Token - 1) / sizeof_Token = u) by reflexivity.
  clearbody u.
  unfold sanity_checks_fail. rewrite Eu. unfold sizeof_Unit, sizeof_Token.
  replace (ptr mod 16) with 0 by lia. cbn [Z.eqb negb].
  rewrite (wrap64_small (units * 16)) by lia.
  destruct (Z.geb_spec size (units * 16)) as [E | _]; [lia |].
  replace (wrap64 (ptr + 8 * (u - 1) - (ptr + size)))
    with (2 ^ 64 + 8 * (u - 1) - size).
  2:{ unfold wrap64.
      replace (ptr + 8 * (u - 1) - (ptr + size))
        with (2 ^ 64 + 8 * (u - 1) - size + (-1) * 2 ^ 64) by lia.
      rewrite Z.mod_add by lia. symmetry. apply Z.mod_small. lia. }
  destruct (Z.ltb_spec (2 ^ 64 + 8 * (u - 1) - size) 8) as [E | _]; [lia |].
  rewrite Hbase. cbn [negb].
  rewrite any_poisoned_false
    by (intros j Hj; rewrite Z2Nat.id in Hj by lia; apply Huser; exact Hj).
  assert (Hpo : forall k, u <= k < 2 * units ->
            is_poisoned st (word_at ptr k) = true).
  { intros k Hk. rewrite is_poisoned_word, Hred by exact Hk.
    apply word_poisoned_poison_word. exact Hc. }
  replace (ptr + 8 * u) with (word_at ptr u)
    by (unfold word_at, sizeof_Token; lia).
  rewrite Hpo by lia. cbn [negb].
  apply any_unpoisoned_false. intros j Hj.
  rewrite Z2Nat.id in Hj by lia.
  replace (word_at (ptr + 8 * (u + 1)) j) with (word_at ptr (u + 1 + j))
    by (unfold word_at, sizeof_Token; lia).
  apply Hpo. lia.
Qed.

Lemma malloc_finish_layout q ptr size units st r st1 :
  config_ok (cfg st) -> 1 <= size ->
  units = ceil_div (size + sizeof_Token) sizeof_Unit ->
  ptr mod sizeof_Unit = 0 ->
  pool (cfg st) + sizeof_Unit <= ptr ->
  ptr + sizeof_Unit * units <= pool (cfg st) + sizeof_Unit * pool_mmap st ->
  pool_mmap st <= pool_size (cfg st) ->
  is_poisoned st (ptr - sizeof_Token) = true ->
  (q = false -> forall k, 0 <= k < ceil_div size 8 ->
     is_poisoned st (word_at ptr k) = false) ->
  malloc_finish q ptr size units st = (r, st1) ->
  r = Ok ptr
  /\ object_at st1 ptr size units
  /\ exists m', st1 = set_mem m' st
       /\ (forall a, (a < ptr \/ ptr + sizeof_Unit * units <= a) ->
             m' a = mem st a)
       /\ (forall k, 0 <= k < ceil_div size 8 ->
             m' (word_at ptr k) = if q then 0 else mem st (word_at ptr k)).
Proof.
  intros Hc Hsize Hunits Hal Hlow Hhigh Hmm Hbase Huser.
  pose proof (pool_high _ Hc) as Phigh. pose proof (pool_low _ Hc) as Plow.
  unfold ceil_div, sizeof_Token, sizeof_Unit, PAGE_SIZE in *.
  set (u := (size + 8 - 1) / 8) in *.
  assert (Hu : 1 <= u /\ 8 * (u - 1) < size <= 8 * u) by (unfold u; zdiv).
  assert (HT : u + 1 <= 2 * units <= u + 2) by (subst units; unfold u; zdiv).
  clearbody u.
  unfold malloc_finish, sizeof_Token, sizeof_Unit. cbv zeta.
  rewrite (wrap64_small (ptr + units * 16)) by lia.
  rewrite (wrap64_small (ptr + units * 16 - 8)) by lia.
  rewrite (wrap64_small (ptr + units * 16 - 8 - 8)) by lia.
  rewrite (wrap64_small (ptr + size)) by lia.
  unfold bind at 1. rewrite (poison_run (cfg st)) by (reflexivity || assumption).
  set (pw := poison_word (cfg st) size).
  set (sta := set_mem (upd (mem st) (ptr + units * 16 - 8) pw) st).
  (* the zeroing of a region that comes from the quarantine *)
  assert (Hz : exists mb,
    (if q then
       zero_tokens
         (word_steps ptr
            (wrap64 (ptr + 8 * ((if negb (size mod 8 =? 0)
                                 then wrap64 (size - size mod 8 + 8)
                                 else size) / 8))))
         ptr
         (wrap64 (ptr + 8 * ((if negb (size mod 8 =? 0)
                              then wrap64 (size - size mod 8 + 8)
                              else size) / 8)))
     else ret tt) sta = (Ok tt, set_mem mb st)
    /\ mb (ptr + units * 16 - 8) = pw
    /\ (forall k, 0 <= k < u -> word_poisoned (cfg st) (mb (ptr + 8 * k)) = false)
    /\ (forall a, (a < ptr \/ ptr + 8 * u <= a) ->
          a <> ptr + units * 16 - 8 -> mb a = mem st a)
    /\ (forall k, 0 <= k < u ->
          mb (ptr + 8 * k) = if q then 0 else mem st (ptr + 8 * k))).
  { destruct q.
    - assert (E : (if negb (size mod 8 =? 0)
                   then wrap64 (size - size mod 8 + 8) else size) / 8 = u).
      { destruct (Z.eqb_spec (size mod 8) 0); cbn [negb].
        - zdiv.
        - rewrite wrap64_small by zdiv. zdiv. }
      rewrite E. rewrite (wrap64_small (ptr + 8 * u)) by lia.
      destruct (zero_tokens_run (word_steps ptr (ptr + 8 * u)) ptr (ptr + 8 * u) sta)
        as (mb & Hrun & Hin & Hout).
      { unfold word_steps, sizeof_Token. zdiv. }
      { zdiv. }
      replace ((ptr + 8 * u - ptr) / 8) with u in * by zdiv.
      exists mb. split; [exact Hrun |]. split; [| split; [| split]].
      + rewrite Hout.
        * unfold sta, set_mem, upd. cbn [mem]. rewrite Z.eqb_refl. reflexivity.
        * intros j Hj. lia.
      + intros k Hk. rewrite Hin by lia. apply word_poisoned_zero. exact Hc.
      + intros a Ha Hne. rewrite Hout.
        * unfold sta, set_mem, upd. cbn [mem].
          destruct (Z.eqb_spec a (ptr + units * 16 - 8)); [lia | reflexivity].
        * intros j Hj. lia.
      + intros k Hk. apply Hin. lia.
    - exists (mem sta). unfold ret. rewrite <- (set_mem_same sta) at 1.
      split; [reflexivity |]. split; [| split; [| split]].
      + unfold sta, set_mem, upd. cbn [mem]. rewrite Z.eqb_refl. reflexivity.
      + intros k Hk. unfold sta, set_mem, upd. cbn [mem].
        destruct (Z.eqb_spec (ptr + 8 * k) (ptr + units * 16 - 8)); [lia |].
        apply (Huser eq_refl k). lia.
      + intros a Ha Hne. unfold sta, set_mem, upd. cbn [mem].
        destruct (Z.eqb_spec a (ptr + units * 16 - 8)); [lia | reflexivity].
      + intros k Hk. unfold sta, set_mem, upd. cbn [mem].
        destruct (Z.eqb_spec (ptr + 8 * k) (ptr + units * 16 - 8));
          [lia | reflexivity]. }
  destruct Hz as (mb & Hzrun & Hb_end & Hb_user & Hb_out & Hb_val).
  unfold bind at 1. rewrite Hzrun.
  set (stb := set_mem mb st).
  destruct (poison_redzone_run (cfg st)
              (word_steps (ptr + size) (ptr + units * 16 - 8 - 8))
              (ptr + units * 16 - 8 - 8) (ptr + size) size stb)
    as (mc & Hprun & Hc_in & Hc_out).
  { reflexivity. }
  { exact Hc. }
  { unfold word_steps, sizeof_Token.
    destruct (Z.geb_spec (ptr + units * 16 - 8 - 8) (ptr + size)); zdiv. }
  unfold bind at 1. rewrite Hprun.
  set (count := Z.of_nat (word_steps (ptr + size) (ptr + units * 16 - 8 - 8))) in *.
  assert (Hcount : count = 2 * units - 1 - u).
  { unfold count, word_steps, sizeof_Token. zdiv. }
  clearbody count.
  change (set_mem mc stb) with (set_mem mc st).
  set (stc := set_mem mc st).
  intros Hres.
  assert (Hobj : object_at stc ptr size units).
  { constructor; unfold ceil_div, word_at, sizeof_Token, sizeof_Unit;
      try assumption; try lia.
    - rewrite is_poisoned_word. unfold stc. cbn [mem cfg set_mem].
      rewrite Hc_out by (intros j Hj; lia).
      unfold stb. cbn [mem set_mem]. rewrite Hb_out by lia. exact Hbase.
    - intros k Hk. replace ((size + 8 - 1) / 8) with u in Hk by zdiv.
      rewrite is_poisoned_word. unfold stc. cbn [mem cfg set_mem].
      rewrite Hc_out by (intros j Hj; lia).
      unfold stb. cbn [mem set_mem]. apply Hb_user. exact Hk.
    - intros k Hk. replace ((size + 8 - 1) / 8) with u in Hk by zdiv.
      unfold stc. cbn [mem cfg set_mem].
      destruct (Z.eq_dec k (2 * units - 1)) as [-> | Hne].
      + rewrite Hc_out by (intros j Hj; lia).
        unfold stb. cbn [mem set_mem].
        replace (ptr + 8 * (2 * units - 1)) with (ptr + units * 16 - 8) by lia.
        exact Hb_end.
      + replace (ptr + 8 * k)
          with (ptr + units * 16 - 8 - 8 - 8 * (2 * units - 2 - k)) by lia.
        apply Hc_in. lia. }
  assert (Hst1 : st1 = stc /\ r = Ok ptr).
  { unfold bind, get in Hres. change (cfg stc) with (cfg st) in Hres.
    replace (ptr + units * 16 - 8 - 8 - 8 * count)
      with (ptr + 8 * (ceil_div size 8 - 1)) in Hres
      by (unfold ceil_div; replace ((size + 8 - 1) / 8) with u by zdiv; lia).
    rewrite (sanity_checks_pass stc ptr size units Hc Hobj) in Hres.
    destruct (option_checks (cfg st)); inversion Hres; split; reflexivity. }
  destruct Hst1 as [-> Hr]. split; [exact Hr |]. split; [exact Hobj |].
  exists mc. split; [reflexivity |]. split.
  - intros a Ha. rewrite Hc_out by (intros j Hj; lia).
    unfold stb. cbn [mem set_mem]. apply Hb_out; lia.
  - intros k Hk. unfold ceil_div, word_at, sizeof_Token in *.
    replace ((size + 8 - 1) / 8) with u in Hk by zdiv.
    rewrite Hc_out by (intros j Hj; lia).
    unfold stb. cbn [mem set_mem]. apply Hb_val. exact Hk.
Qed.

Lemma malloc_size128_range size : 0 <= malloc_size128 size < 2 ^ 60.
Proof.
  unfold malloc_size128, sizeof_Unit, sizeof_Token.
  set (a := wrap64 ((if size =? 0 then 1 else size) + 8)).
  pose proof (wrap64_range ((if size =? 0 then 1 else size) + 8)) as Ha.
  fold a in Ha. clearbody a.
  destruct (negb (a mod 16 =? 0)).
  - pose proof (wrap64_range (a - a mod 16 + 16)) as Hb.
    change (2 ^ 64) with (16 * 2 ^ 60) in Hb. zdiv.
  - change (2 ^ 64) with (16 * 2 ^ 60) in Ha. zdiv.
Qed.

Lemma effective_size_pos size : 0 <= size -> 1 <= effective_size size.
Proof.
  intros H. unfold effective_size. destruct (Z.eqb_spec size 0); lia.
Qed.

Lemma is_poisoned_frame st st' a :
  cfg st' = cfg st -> mem st' a = mem st a ->
  is_poisoned st' a = is_poisoned st a.
Proof. intros H1 H2. rewrite !is_poisoned_word, H1, H2. reflexivity. Qed.

(** A successful [rezzan_malloc] leaves a live object behind, with its
    user words zero. *)
Lemma rezzan_malloc_zeroed_object st size p st1 :
  heap_ok st -> 0 <= size ->
  malloc_size128 size = ceil_div (effective_size size + sizeof_Token) sizeof_Unit ->
  rezzan_malloc size st = (Ok p, st1) ->
  cfg st1 = cfg st
  /\ object_at st1 p (effective_size size) (malloc_size128 size)
  /\ p + sizeof_Unit * malloc_size128 size
     <= pool (cfg st) + sizeof_Unit * pool_ptr st1
  /\ (forall k, 0 <= k < ceil_div (effective_size size) 8 ->
        mem st1 (word_at p k) = 0).
Proof.
  intros Hok Hsize Hunits.
  pose proof (heap_cfg _ Hok) as Hc.
  pose proof (pool_high _ Hc) as Phigh. pose proof (pool_low _ Hc) as Plow.
  pose proof (pool_aligned _ Hc) as Pal.
  pose proof (heap_ptr _ Hok) as Hptr. pose proof (heap_mmap _ Hok) as Hmm.
  pose proof (effective_size_pos _ Hsize) as Hes.
  pose proof (malloc_size128_range size) as Hrange.
  set (units := malloc_size128 size) in *.
  set (es := effective_size size) in *.
  assert (Hu1 : 1 <= units).
  { rewrite Hunits. unfold ceil_div, sizeof_Token, sizeof_Unit. zdiv. }
  (* the region that comes from the pool *)
  assert (Hpool : forall r,
    (ptr <- pool_malloc units ;;
     if ptr =? NULL then error else malloc_finish false ptr es units) st
      = (Ok r, st1) ->
      cfg st1 = cfg st /\ object_at st1 r es units
      /\ r + sizeof_Unit * units
         <= pool (cfg st) + sizeof_Unit * pool_ptr st1
      /\ (forall k, 0 <= k < ceil_div es 8 -> mem st1 (word_at r k) = 0)).
  { unfold bind at 1.
    destruct (Z_le_gt_dec (pool_ptr st + units) (pool_size (cfg st))) as [Hfit | Hfull].
    - assert (H0u : 0 <= units) by lia.
      destruct (pool_malloc_ok st units Hok H0u Hfit)
        as (st' & Hrun & Hcfg & Hpp & Hpm & Hmem & _).
      rewrite Hrun. unfold sizeof_Unit, PAGE_SIZE in *.
      destruct (Z.eqb_spec (pool (cfg st) + 16 * pool_ptr st) NULL) as [E | _];
        [unfold NULL in E; lia |].
      intros r Hfin.
      assert (Hc' : config_ok (cfg st')) by (rewrite Hcfg; exact Hc).
      assert (A1 : (pool (cfg st) + 16 * pool_ptr st) mod sizeof_Unit = 0)
        by (unfold sizeof_Unit; zdiv).
      assert (A2 : pool (cfg st') + sizeof_Unit
                   <= pool (cfg st) + 16 * pool_ptr st)
        by (rewrite Hcfg; unfold sizeof_Unit; lia).
      assert (A3 : pool (cfg st) + 16 * pool_ptr st + sizeof_Unit * units
                   <= pool (cfg st') + sizeof_Unit * pool_mmap st')
        by (rewrite Hcfg; unfold sizeof_Unit; lia).
      assert (A4 : pool_mmap st' <= pool_size (cfg st'))
        by (rewrite Hcfg; lia).
      assert (A5 : is_poisoned st'
                     (pool (cfg st) + 16 * pool_ptr st - sizeof_Token) = true).
      { rewrite (is_poisoned_frame st st') by auto. exact (heap_top _ Hok). }
      assert (A6 : false = false -> forall k, 0 <= k < ceil_div es 8 ->
                is_poisoned st'
                  (word_at (pool (cfg st) + 16 * pool_ptr st) k) = false).
      { intros _ k Hk. rewrite is_poisoned_word, Hcfg, Hmem.
        rewrite (heap_fresh _ Hok).
        - apply word_poisoned_zero. exact Hc.
        - unfold word_at, sizeof_Unit, sizeof_Token. lia. }
      destruct (malloc_finish_layout false _ es units st' _ _ Hc' Hes Hunits
                  A1 A2 A3 A4 A5 A6 Hfin)
        as (Hr & Hobj & m' & -> & _ & Hval).
      assert (Er : r = pool (cfg st) + 16 * pool_ptr st) by congruence.
      subst r. split; [exact Hcfg |]. split; [exact Hobj |]. split.
      + cbn [pool_ptr set_mem]. unfold sizeof_Unit. lia.
      + intros k Hk. cbn [mem set_mem]. rewrite Hval by exact Hk.
        rewrite Hmem. apply (heap_fresh _ Hok).
        unfold word_at, sizeof_Unit, sizeof_Token. lia.
    - unfold sizeof_Unit, PAGE_SIZE in *.
      rewrite pool_malloc_full by lia.
      intros r H. discriminate H. }
  rewrite rezzan_malloc_unfold. fold units es.
  unfold bind at 1, get. unfold bind at 1.
  destruct (quarantine_usage st >? quarantine_size (cfg st)).
  - destruct (quarantine_malloc units st) as [[ptr | | |] stq] eqn:Eq;
      try discriminate.
    assert (H0u : 0 <= units) by lia.
    destruct (quarantine_malloc_ok _ _ _ _ Hok H0u Eq)
      as [[-> ->] | (Hcfg & Hmem & Hpp & Hpm & nd & d & Hreg & Hd & Hsz & Hptr')].
    + cbn [negb Z.eqb NULL]. apply Hpool.
    + destruct Hreg as [Rl Rs Rh Rp].
      unfold sizeof_Unit, PAGE_SIZE in *.
      destruct (Z.eqb_spec ptr NULL) as [E | _]; [unfold NULL in E; lia |].
      cbn [negb]. unfold bind at 1, ret.
      destruct (Z.eqb_spec ptr NULL) as [E | _]; [unfold NULL in E; lia |].
      intros Hfin.
      assert (Hc' : config_ok (cfg stq)) by (rewrite Hcfg; exact Hc).
      assert (A1 : ptr mod sizeof_Unit = 0) by (unfold sizeof_Unit; zdiv).
      assert (A2 : pool (cfg stq) + sizeof_Unit <= ptr)
        by (rewrite Hcfg; unfold sizeof_Unit; lia).
      assert (A3 : ptr + sizeof_Unit * units
                   <= pool (cfg stq) + sizeof_Unit * pool_mmap stq)
        by (rewrite Hcfg, Hpm; unfold sizeof_Unit; lia).
      assert (A4 : pool_mmap stq <= pool_size (cfg stq))
        by (rewrite Hcfg, Hpm; lia).
      assert (A5 : is_poisoned stq (ptr - sizeof_Token) = true).
      { rewrite (is_poisoned_frame st stq) by (rewrite ?Hmem; auto).
        replace (ptr - sizeof_Token)
          with (word_at (pool (cfg st) + sizeof_Unit * ptr128 nd) (2 * d - 1))
          by (unfold word_at, sizeof_Unit, sizeof_Token; lia).
        apply Rp. lia. }
      assert (A6 : true = false -> forall k, 0 <= k < ceil_div es 8 ->
                is_poisoned stq (word_at ptr k) = false)
        by (intros Hq; discriminate Hq).
      destruct (malloc_finish_layout true _ es units stq _ _ Hc' Hes Hunits
                  A1 A2 A3 A4 A5 A6 Hfin)
        as (Hr & Hobj & m' & -> & _ & Hval).
      assert (Er : p = ptr) by congruence.
      subst p. split; [exact Hcfg |]. split; [exact Hobj |]. split.
      * cbn [pool_ptr set_mem]. unfold sizeof_Unit in *. lia.
      * intros k Hk. cbn [mem set_mem]. apply Hval. exact Hk.
  - unfold ret at 1. cbn [negb Z.eqb NULL]. apply Hpool.
Qed.

(** A successful [rezzan_malloc] leaves a live object behind. *)
Lemma rezzan_malloc_object st size p st1 :
  heap_ok st -> 0 <= size ->
  malloc_size128 size = ceil_div (effective_size size + sizeof_Token) sizeof_Unit ->
  rezzan_malloc size st = (Ok p, st1) ->
  cfg st1 = cfg st
  /\ object_at st1 p (effective_size size) (malloc_size128 size)
  /\ p + sizeof_Unit * malloc_size128 size
     <= pool (cfg st) + sizeof_Unit * pool_ptr st1.
Proof.
  intros Hok Hsize Hunits Hrun.
  destruct (rezzan_malloc_zeroed_object st size p st1 Hok Hsize Hunits Hrun)
    as (H1 & H2 & H3 & _).
  auto.
Qed.

(** A request the pool can serve, with the quarantine below its threshold,
    returns the next units of the pool and keeps the invariant. *)
Lemma rezzan_malloc_from_pool st size :
  heap_ok st -> 0 <= size ->
  malloc_size128 size = ceil_div (effective_size size + sizeof_Token) sizeof_Unit ->
  quarantine_usage st <= quarantine_size (cfg st) ->
  pool_ptr st + malloc_size128 size <= pool_size (cfg st) ->
  exists st1,
    rezzan_malloc size st
      = (Ok (pool (cfg st) + sizeof_Unit * pool_ptr st), st1)
    /\ pool_ptr st1 = pool_ptr st + malloc_size128 size
    /\ heap_ok st1.
Proof.
  intros Hok Hsize Hunits Hq Hfit.
  pose proof (heap_cfg _ Hok) as Hc.
  pose proof (pool_high _ Hc) as Phigh. pose proof (pool_low _ Hc) as Plow.
  pose proof (pool_aligned _ Hc) as Pal.
  pose proof (heap_ptr _ Hok) as Hptr. pose proof (heap_mmap _ Hok) as Hmm.
  pose proof (effective_size_pos _ Hsize) as Hes.
  set (units := malloc_size128 size) in *.
  set (es := effective_size size) in *.
  assert (Hu1 : 1 <= units).
  { rewrite Hunits. unfold ceil_div, sizeof_Token, sizeof_Unit. zdiv. }
  assert (H0u : 0 <= units) by lia.
  destruct (pool_malloc_ok st units Hok H0u Hfit)
    as (st' & Hrun & Hcfg & Hpp & Hpm & Hmem & Hnodes & Hlists).
  set (ptr := pool (cfg st) + sizeof_Unit * pool_ptr st) in *.
  unfold sizeof_Unit, PAGE_SIZE in *.
  assert (Hc' : config_ok (cfg st')) by (rewrite Hcfg; exact Hc).
  assert (A1 : ptr mod sizeof_Unit = 0) by (unfold ptr, sizeof_Unit; zdiv).
  assert (A2 : pool (cfg st') + sizeof_Unit <= ptr)
    by (rewrite Hcfg; unfold ptr, sizeof_Unit; lia).
  assert (A3 : ptr + sizeof_Unit * units
               <= pool (cfg st') + sizeof_Unit * pool_mmap st')
    by (rewrite Hcfg; unfold ptr, sizeof_Unit; lia).
  assert (A4 : pool_mmap st' <= pool_size (cfg st')) by (rewrite Hcfg; lia).
  assert (A5 : is_poisoned st' (ptr - sizeof_Token) = true).
  { rewrite (is_poisoned_frame st st') by auto. exact (heap_top _ Hok). }
  assert (A6 : false = false -> forall k, 0 <= k < ceil_div es 8 ->
            is_poisoned st' (word_at ptr k) = false).
  { intros _ k Hk. rewrite is_poisoned_word, Hcfg, Hmem.
    rewrite (heap_fresh _ Hok).
    - apply word_poisoned_zero. exact Hc.
    - unfold word_at, ptr, sizeof_Token, sizeof_Unit. lia. }
  destruct (malloc_finish false ptr es units st') as [r st1] eqn:Hfin.
  destruct (malloc_finish_layout false _ es units st' _ _ Hc' Hes Hunits
              A1 A2 A3 A4 A5 A6 Hfin) as (-> & Hobj & m' & -> & Hout & _).
  exists (set_mem m' st'). split; [| split].
  - rewrite rezzan_malloc_unfold. fold units es.
    unfold bind at 1, get. unfold bind at 1.
    destruct (Z.gtb_spec (quarantine_usage st) (quarantine_size (cfg st)));
      [lia |].
    unfold ret at 1. cbn [negb Z.eqb NULL].
    unfold bind at 1. rewrite Hrun. fold ptr.
    destruct (Z.eqb_spec ptr NULL) as [E | _];
      [unfold NULL, ptr in E; lia |].
    exact Hfin.
  - exact Hpp.
  - destruct Hobj as [_ _ _ _ _ _ _ _ Hred].
    unfold sizeof_Unit, sizeof_Token in *.
    constructor; cbn [cfg pool_ptr pool_mmap mem nodes quarantine set_mem].
    + exact Hc'.
    + lia.
    + lia.
    + rewrite is_poisoned_word. cbn [cfg mem set_mem].
      replace (pool (cfg st') + sizeof_Unit * pool_ptr st' - sizeof_Token)
        with (word_at ptr (2 * units - 1))
        by (rewrite Hcfg, Hpp; unfold word_at, ptr, sizeof_Unit, sizeof_Token; lia).
      cbn [mem set_mem] in Hred. rewrite Hred.
      * apply word_poisoned_poison_word. exact Hc'.
      * clearbody units es. unfold ceil_div in *. zdiv.
    + intros a Ha. rewrite Hout.
      * rewrite Hmem. apply (heap_fresh _ Hok). rewrite Hcfg, Hpp in Ha.
        unfold sizeof_Unit in *. lia.
      * right. rewrite Hcfg, Hpp in Ha. unfold ptr, sizeof_Unit in *. lia.
    + intros i count n Hi Hin. rewrite Hnodes, Hlists in *.
      destruct (heap_quarantine _ Hok i count n Hi Hin) as [Rl Rs Rh Rp].
      constructor; try assumption.
      * cbn [pool_ptr set_mem]. lia.
      * intros k Hk. rewrite is_poisoned_word. cbn [cfg mem set_mem].
        rewrite Hout.
        -- rewrite Hmem, Hcfg. apply Rp. exact Hk.
        -- left. rewrite Hcfg. unfold word_at, ptr, sizeof_Unit, sizeof_Token.
           lia.
Qed.

(** *** free *)

Lemma rezzan_free_object st ptr size units :
  config_ok (cfg st) -> object_at st ptr size units ->
  exists m',
    rezzan_free ptr st = quarantine_insert ptr units (set_mem m' st)
    /\ (forall k, 0 <= k < 2 * units ->
          is_poisoned (set_mem m' st) (word_at ptr k) = true)
    /\ (forall a, (a < ptr \/ ptr + sizeof_Unit * units <= a) ->
          m' a = mem st a).
Proof.
  intros Hc [Hsize Hunits Hal Hlow Hhigh Hmm Hbase Huser Hred].
  pose proof (pool_high _ Hc) as Phigh. pose proof (pool_low _ Hc) as Plow.
  unfold ceil_div, sizeof_Token, sizeof_Unit, PAGE_SIZE in *.
  set (u := (size + 8 - 1) / 8) in *.
  assert (Hu : 1 <= u /\ 8 * (u - 1) < size <= 8 * u) by (unfold u; zdiv).
  assert (HT : u + 1 <= 2 * units <= u + 2) by (subst units; unfold u; zdiv).
  clearbody u.
  unfold rezzan_free, sizeof_Token, sizeof_Unit.
  destruct (Z.eqb_spec ptr NULL) as [E | _]; [unfold NULL in E; lia |].
  unfold bind at 1, get. rewrite Hal. cbn [Z.eqb negb].
  destruct (Z.ltb_spec ptr (pool (cfg st))) as [E | _]; [lia |].
  destruct (Z.geb_spec ptr (pool (cfg st) + 16 * pool_size (cfg st)))
    as [E | _]; [lia |].
  cbn [orb].
  pose proof (Huser 0 ltac:(lia)) as H0. unfold word_at, sizeof_Token in H0.
  rewrite Z.mul_0_r, Z.add_0_r in H0. rewrite H0, Hbase. cbn [negb].
  destruct (poison_object_run (cfg st) ptr u (Z.to_nat u)
              (Z.to_nat ((pool (cfg st) + 16 * pool_mmap st - ptr) / 8)) 0 st)
    as (m' & Hrun & Hin & Hout); try reflexivity; try assumption.
  { lia. }
  { apply Z2Nat.inj_lt; zdiv. }
  { rewrite is_poisoned_word, (Hred u) by lia.
    apply word_poisoned_poison_word. exact Hc. }
  exists m'. split; [| split].
  - unfold bind at 1. rewrite Hrun. f_equal.
    destruct (Z.eqb_spec ((u + 1) mod 2) 1); zdiv.
  - intros k Hk. rewrite is_poisoned_word. cbn [mem cfg set_mem].
    destruct (Z_lt_ge_dec k u) as [Hlt | Hge].
    + rewrite Hin by lia. apply word_poisoned_poison_word. exact Hc.
    + rewrite Hout.
      * rewrite Hred by lia. apply word_poisoned_poison_word. exact Hc.
      * intros j Hj. unfold word_at, sizeof_Token. lia.
  - intros a Ha. apply Hout. intros j Hj. unfold word_at, sizeof_Token. lia.
Qed.

(** *** The window check *)

Lemma check_tokens_run st a count :
  check_tokens a count st =
  if any_poisoned st a count then (Sigill, st) else (Ok tt, st).
Proof.
  revert a. induction count as [| c IH]; intros a; [reflexivity |].
  cbn [check_tokens any_poisoned]. unfold bind at 1, get.
  destruct (is_poisoned st a); [reflexivity | apply IH].
Qed.

Lemma check_poisoned_run st ptr n :
  0 <= ptr -> 0 <= n -> n + 15 < 2 ^ 31 -> ptr + n + 8 < 2 ^ 64 ->
  let a := ptr - ptr mod 8 in
  let len := n + ptr mod 8 in
  let count := (len + 7) / 8 in
  check_poisoned ptr n st =
  if any_poisoned st a (Z.to_nat count) then (Sigill, st)
  else if tail_traps st (a + 8 * count) (len mod 8) then (Sigill, st)
  else (Ok tt, st).
Proof.
  intros Hp Hn Hsmall Hhi a len count.
  pose proof (Z.mod_pos_bound ptr 8 ltac:(lia)) as Hfd.
  pose proof (Z.mod_pos_bound len 8 ltac:(lia)) as Hed.
  pose proof (Z.div_mod len 8 ltac:(lia)) as Hlen.
  unfold check_poisoned, sizeof_Token.
  fold len. rewrite (wrap64_small len) by (unfold len; lia).
  rewrite (to_int_small len) by (unfold len; lia).
  rewrite (wrap64_small len) by (unfold len; lia).
  assert (Hcount : to_int (wrap64
            (if len mod 8 =? 0 then len
             else to_int (wrap64 (len + 8))) / 8) = count).
  { unfold count. destruct (Z.eqb_spec (len mod 8) 0) as [E | E].
    - rewrite (wrap64_small len) by (unfold len; lia).
      rewrite to_int_small.
      + replace (len + 7) with (7 + len / 8 * 8) by lia.
        rewrite Z.div_add by lia. replace (7 / 8) with 0 by reflexivity. lia.
      + pose proof (Z.div_pos len 8). unfold len in *. lia.
    - rewrite (wrap64_small (len + 8)) by (unfold len; lia).
      rewrite (to_int_small (len + 8)) by (unfold len; lia).
      rewrite (wrap64_small (len + 8)) by (unfold len; lia).
      assert (E1 : (len + 8) / 8 = len / 8 + 1).
      { replace (len + 8) with (len + 1 * 8) by lia. rewrite Z.div_add by lia. reflexivity. }
      assert (E2 : (len + 7) / 8 = len / 8 + 1).
      { symmetry. apply (Z.div_unique (len + 7) 8 (len / 8 + 1) (len mod 8 - 1)); lia. }
      rewrite E1, E2. apply to_int_small. unfold len in *. lia. }
  rewrite Hcount.
  assert (Hc0 : 0 <= count) by (apply Z.div_pos; unfold len; lia).
  assert (Hc1 : 8 * count <= len + 7).
  { unfold count. pose proof (Z.mul_div_le (len + 7) 8). lia. }
  clearbody count.
  assert (Hc2 : 0 <= count < 2 ^ 64) by (unfold len in *; lia).
  pose proof (Z.mod_le ptr 8 Hp ltac:(lia)) as Hle.
  assert (Hc3 : 0 <= a + 8 * count < 2 ^ 64) by (unfold a, len in *; lia).
  rewrite (wrap64_small count) by exact Hc2.
  fold a. rewrite (wrap64_small (a + 8 * count)) by exact Hc3.
  unfold bind at 1. rewrite check_tokens_run.
  destruct (any_poisoned st a (Z.to_nat count)); [reflexivity |].
  unfold bind, get, tail_traps.
  destruct (negb (len mod 8 =? 0)); [| reflexivity].
  destruct (nonce_size (cfg st) =? 61); [| reflexivity].
  destruct (negb ((a + 8 * count) mod PAGE_SIZE =? 0)); [| reflexivity].
  destruct (rezzan_test_token61 st (a + 8 * count)); [| reflexivity].
  cbn [andb].
  destruct (negb (boundary (mem st (a + 8 * count)) =? 0)); [| reflexivity].
  destruct (boundary (mem st (a + 8 * count)) <? len mod 8); reflexivity.
Qed.

(** *** The invariant across free *)

Lemma chain_next nodes count : forall start x y,
  In x (chain nodes count start) -> next (nodes x) = Some y ->
  In y (chain nodes (S count) start).
Proof.
  induction count as [| c IH]; intros start x y Hin Hnext; [contradiction |].
  cbn [chain] in Hin. destruct start as [s |]; [| contradiction].
  destruct Hin as [-> | Hin].
  - cbn [chain]. rewrite Hnext. right.
    destruct c; cbn [chain]; left; reflexivity.
  - change (chain nodes (S (S c)) (Some s))
      with (s :: chain nodes (S c) (next (nodes s))).
    right. exact (IH _ _ _ Hin Hnext).
Qed.

Lemma chain_closed (P : Z -> Prop) nodes count : forall start,
  (forall x y, P x -> next (nodes x) = Some y -> P y) ->
  (forall x, start = Some x -> P x) ->
  forall n, In n (chain nodes count start) -> P n.
Proof.
  induction count as [| c IH]; intros start Hstep Hstart n Hin;
    [contradiction |].
  cbn [chain] in Hin. destruct start as [s |]; [| contradiction].
  destruct Hin as [<- | Hin]; [apply Hstart; reflexivity |].
  apply (IH (next (nodes s)) Hstep); [| exact Hin].
  intros x Hx. apply (Hstep s x); [apply Hstart; reflexivity | exact Hx].
Qed.

Lemma region_ok_fields st nd st' nd' :
  region_ok st nd ->
  cfg st' = cfg st -> mem st' = mem st -> pool_ptr st' = pool_ptr st ->
  ptr128 nd' = ptr128 nd -> size128 nd' = size128 nd ->
  region_ok st' nd'.
Proof.
  intros [R1 R2 R3 R4] E1 E2 E3 E4 E5.
  constructor; rewrite ?E1, ?E3, ?E4, ?E5; try assumption.
  intros k Hk. rewrite <- (R4 k) by exact Hk.
  apply is_poisoned_frame; [exact E1 | rewrite E2; reflexivity].
Qed.

(** The assignments of [quarantine_insert] once it has node [N]: the fields
    of the node, then its place at the back of list [i]. *)
Lemma link_node_facts st N p s i :
  let st1 := set_node_next N None
               (set_node_ptr128 N p (set_node_size128 N s st)) in
  let stx :=
    match back (quarantine st1 i) with
    | None => set_back i (Some N) (set_front i (Some N) st1)
    | Some b => set_back i (Some N) (set_node_next b (Some N) st1)
    end in
  (cfg stx = cfg st /\ mem stx = mem st /\ pool_ptr stx = pool_ptr st
   /\ pool_mmap stx = pool_mmap st)
  /\ (forall x, ptr128 (nodes stx x)
                = if x =? N then p else ptr128 (nodes st x))
  /\ (forall x, size128 (nodes stx x)
                = if x =? N then s else size128 (nodes st x))
  /\ (forall x y, next (nodes stx x) = Some y ->
        y = N \/ (x <> N /\ next (nodes st x) = Some y))
  /\ (forall j x, front (quarantine stx j) = Some x ->
        x = N \/ front (quarantine st j) = Some x).
Proof.
  cbv zeta.
  cbn [quarantine set_node_next set_node_ptr128 set_node_size128 set_nodes
       nodes].
  destruct (back (quarantine st i)) as [b |];
    cbn [set_back set_front set_node_next set_quarantine set_nodes nodes
         set_node_ptr128 set_node_size128 quarantine cfg mem pool_ptr
         pool_mmap];
    (split; [repeat split |]);
    (split; [| split; [| split]]).
  - intros x. unfold upd.
    repeat match goal with
           | |- context [?a =? ?b] => destruct (Z.eqb_spec a b); try subst
           end; cbn [ptr128]; congruence.
  - intros x. unfold upd.
    repeat match goal with
           | |- context [?a =? ?b] => destruct (Z.eqb_spec a b); try subst
           end; cbn [size128]; congruence.
  - intros x y. unfold upd.
    repeat match goal with
           | |- context [?a =? ?b] => destruct (Z.eqb_spec a b); try subst
           end; cbn [next]; intros H; try discriminate;
      first [ left; congruence | right; split; assumption ].
  - intros j x. unfold upd.
    repeat match goal with
           | |- context [?a =? ?b] => destruct (Z.eqb_spec a b); try subst
           end; cbn [front]; intros H; auto.
  - intros x. unfold upd.
    repeat match goal with
           | |- context [?a =? ?b] => destruct (Z.eqb_spec a b); try subst
           end; cbn [ptr128]; congruence.
  - intros x. unfold upd.
    repeat match goal with
           | |- context [?a =? ?b] => destruct (Z.eqb_spec a b); try subst
           end; cbn [size128]; congruence.
  - intros x y. unfold upd.
    repeat match goal with
           | |- context [?a =? ?b] => destruct (Z.eqb_spec a b); try subst
           end; cbn [next]; intros H; try discriminate;
      first [ left; congruence | right; split; assumption ].
  - intros j x. unfold upd.
    repeat match goal with
           | |- context [?a =? ?b] => destruct (Z.eqb_spec a b); try subst
           end; cbn [front]; intros H; auto; left; congruence.
Qed.

Lemma heap_ok_frame st st' :
  heap_ok st ->
  cfg st' = cfg st -> mem st' = mem st -> pool_ptr st' = pool_ptr st ->
  pool_mmap st' = pool_mmap st -> nodes st' = nodes st ->
  quarantine st' = quarantine st ->
  heap_ok st'.
Proof.
  intros [H1 H2 H3 H4 H5 H6] E1 E2 E3 E4 E5 E6.
  constructor; rewrite ?E1, ?E3, ?E4; try assumption.
  - rewrite <- H4. apply is_poisoned_frame; [exact E1 | rewrite E2; reflexivity].
  - intros a Ha. rewrite E2. exact (H5 a Ha).
  - intros i count n Hi Hin. rewrite E5, E6 in *.
    apply (region_ok_fields st (nodes st n)); auto.
    exact (H6 i count n Hi Hin).
Qed.

Lemma link_heap_ok st N nd i u :
  heap_ok st -> region_ok st nd ->
  let st1 := set_node_next N None
               (set_node_ptr128 N (ptr128 nd)
                  (set_node_size128 N (size128 nd) st)) in
  let stx :=
    match back (quarantine st1 i) with
    | None => set_back i (Some N) (set_front i (Some N) st1)
    | Some b => set_back i (Some N) (set_node_next b (Some N) st1)
    end in
  heap_ok (set_quarantine_usage u stx).
Proof.
  intros Hok Hnd.
  pose proof (link_node_facts st N (ptr128 nd) (size128 nd) i) as Hfacts.
  cbv zeta in *.
  set (stx := match back _ with None => _ | Some b => _ end) in *.
  destruct Hfacts as ((F1 & F2 & F3 & F4) & Fp & Fs & Fn & Ff).
  clearbody stx.
  set (P := fun n => n = N \/ exists j count, 0 <= j < QUARANTINE_CLASSES
                 /\ In n (chain (nodes st) count (front (quarantine st j)))).
  assert (Hstep : forall x y, P x -> next (nodes stx x) = Some y -> P y).
  { intros x y Hx Hy. destruct (Fn x y Hy) as [E | [Hne Hy']];
      [left; exact E |].
    destruct Hx as [E | (j & count & Hj & Hin)]; [contradiction |].
    right. exists j, (S count). split; [exact Hj |].
    exact (chain_next _ _ _ _ _ Hin Hy'). }
  assert (Hreg : forall n, P n ->
            region_ok (set_quarantine_usage u stx) (nodes stx n)).
  { intros n Hn. specialize (Fp n). specialize (Fs n).
    destruct (Z.eqb_spec n N) as [E | Hne].
    - apply (region_ok_fields st nd); auto.
    - destruct Hn as [E | (j & count & Hj & Hin)]; [contradiction |].
      apply (region_ok_fields st (nodes st n)); auto.
      exact (heap_quarantine _ Hok j count n Hj Hin). }
  destruct Hok as [H1 H2 H3 H4 H5 H6].
  constructor;
    cbn [cfg pool_ptr pool_mmap mem nodes quarantine set_quarantine_usage];
    rewrite ?F1, ?F3, ?F4; try assumption.
  - rewrite <- H4. apply is_poisoned_frame;
      cbn [cfg mem set_quarantine_usage]; [exact F1 | rewrite F2; reflexivity].
  - intros a Ha. rewrite F2. exact (H5 a Ha).
  - intros j count n Hj Hin. apply Hreg.
    apply (chain_closed P (nodes stx) count (front (quarantine stx j)) Hstep);
      [| exact Hin].
    intros x Hx. destruct (Ff j x Hx) as [E | Hx']; [left; exact E |].
    right. exists j, 1%nat. split; [exact Hj |].
    cbn [chain]. rewrite Hx'. left. reflexivity.
Qed.

(** Linking a node that describes a poisoned region of the allocated part
    of the pool keeps the invariant. *)
Lemma quarantine_insert_heap_ok st ptr units st' :
  heap_ok st -> pool_size (cfg st) <= 2 ^ 32 ->
  ptr mod sizeof_Unit = 0 -> pool (cfg st) + sizeof_Unit <= ptr ->
  1 <= units ->
  ptr + sizeof_Unit * units <= pool (cfg st) + sizeof_Unit * pool_ptr st ->
  (forall k, -1 <= k < 2 * units -> is_poisoned st (word_at ptr k) = true) ->
  quarantine_insert ptr units st = (Ok tt, st') ->
  heap_ok st'.
Proof.
  intros Hok H32 Hal Hlow Hu Hhigh Hpo.
  pose proof (heap_cfg _ Hok) as Hc.
  pose proof (pool_high _ Hc) as Phigh. pose proof (pool_low _ Hc) as Plow.
  pose proof (pool_aligned _ Hc) as Pal.
  pose proof (heap_ptr _ Hok) as Hptr. pose proof (heap_mmap _ Hok) as Hmm.
  set (nd := mkFreeNode (wrap32 ((ptr - pool (cfg st)) / sizeof_Unit))
               (wrap32 units) None).
  assert (Hnd : region_ok st nd).
  { unfold sizeof_Unit, PAGE_SIZE in *. unfold nd, wrap32.
    assert (E1 : ((ptr - pool (cfg st)) / 16) mod 2 ^ 32
                 = (ptr - pool (cfg st)) / 16)
      by (apply Z.mod_small; zdiv).
    assert (E2 : units mod 2 ^ 32 = units) by (apply Z.mod_small; zdiv).
    constructor; cbn [ptr128 size128]; unfold sizeof_Unit;
      rewrite ?E1, ?E2; try zdiv.
    intros k Hk.
    replace (pool (cfg st) + 16 * ((ptr - pool (cfg st)) / 16)) with ptr
      by zdiv.
    apply Hpo. exact Hk. }
  assert (Hlink : forall st0 N u,
    cfg st0 = cfg st -> mem st0 = mem st -> pool_ptr st0 = pool_ptr st ->
    pool_mmap st0 = pool_mmap st -> nodes st0 = nodes st ->
    quarantine st0 = quarantine st ->
    heap_ok
      (set_quarantine_usage u
         (match
            back (quarantine
                    (set_node_next N None
                       (set_node_ptr128 N (ptr128 nd)
                          (set_node_size128 N (size128 nd) st0)))
                    (quarantine_index units))
          with
          | None =>
              set_back (quarantine_index units) (Some N)
                (set_front (quarantine_index units) (Some N)
                   (set_node_next N None
                      (set_node_ptr128 N (ptr128 nd)
                         (set_node_size128 N (size128 nd) st0))))
          | Some b =>
              set_back (quarantine_index units) (Some N)
                (set_node_next b (Some N)
                   (set_node_next N None
                      (set_node_ptr128 N (ptr128 nd)
                         (set_node_size128 N (size128 nd) st0))))
          end))).
  { intros st0 N u E1 E2 E3 E4 E5 E6.
    apply (link_heap_ok st0 N nd (quarantine_index units) u).
    - apply (heap_ok_frame st); assumption.
    - apply (region_ok_fields st nd); auto. }
  assert (Hlink' : forall st0 N u,
    cfg st0 = cfg st -> mem st0 = mem st -> pool_ptr st0 = pool_ptr st ->
    pool_mmap st0 = pool_mmap st -> nodes st0 = nodes st ->
    quarantine st0 = quarantine st ->
    forall stx,
      (match back (quarantine st (quarantine_index units)) with
       | Some b =>
           fun s : state =>
             (Ok tt,
              set_back (quarantine_index units) (Some N)
                (set_node_next b (Some N) s))
       | None =>
           fun s : state =>
             (Ok tt,
              set_back (quarantine_index units) (Some N)
                (set_front (quarantine_index units) (Some N) s))
       end)
        (set_node_next N None
           (set_node_ptr128 N (wrap32 ((ptr - pool (cfg st)) / sizeof_Unit))
              (set_node_size128 N (wrap32 units) st0)))
      = (Ok tt, stx) ->
      heap_ok (set_quarantine_usage u stx)).
  { intros st0 N u E1 E2 E3 E4 E5 E6 stx Hstx.
    pose proof (Hlink st0 N u E1 E2 E3 E4 E5 E6) as HL.
    cbn [quarantine set_node_next set_node_ptr128 set_node_size128 set_nodes]
      in HL.
    rewrite E6 in HL. unfold nd in HL. cbn [ptr128 size128] in HL.
    destruct (back (quarantine st (quarantine_index units)));
      inversion Hstx; subst stx; exact HL. }
  clear Hlink.
  unfold quarantine_insert, quarantine_node_alloc, bind, get.
  destruct (quarantine_free st) as [N |].
  - unfold modify, ret. cbn [fst snd].
    cbn [quarantine set_node_next set_node_ptr128 set_node_size128 set_nodes
         set_quarantine_free cfg].
    match goal with
    | |- (let (_, _) := ?e in _) = _ -> _ =>
        destruct e as [[[] | | |] stx] eqn:E
    end; intros H; inversion H.
    eapply (Hlink' _ N); try exact E; reflexivity.
  - destruct (quarantine_ptr st >=? quarantine_mmap st);
      unfold modify, ret, error, ud2; cbn [fst snd];
      match goal with
      | |- context [if ?b then _ else _] => destruct b
      end; try (intros H; discriminate H);
      cbn [quarantine set_node_next set_node_ptr128 set_node_size128 set_nodes
           set_quarantine_ptr set_quarantine_mmap cfg];
      (match goal with
       | |- (let (_, _) := ?e in _) = _ -> _ =>
           destruct e as [[[] | | |] stx] eqn:E
       end; intros H; inversion H);
      eapply (Hlink' _ (quarantine_ptr st)); try exact E; reflexivity.
Qed.

(** A completed free of a live object of the allocated part keeps the
    invariant. *)
Lemma rezzan_free_heap_ok st ptr size units st' :
  heap_ok st -> pool_size (cfg st) <= 2 ^ 32 ->
  object_at st ptr size units ->
  ptr + sizeof_Unit * units <= pool (cfg st) + sizeof_Unit * pool_ptr st ->
  rezzan_free ptr st = (Ok tt, st') ->
  heap_ok st'.
Proof.
  intros Hok H32 Hobj Hin Hrun.
  pose proof (heap_cfg _ Hok) as Hc.
  destruct (rezzan_free_object _ _ _ _ Hc Hobj) as (m' & Hfree & Hpo & Hout).
  rewrite Hfree in Hrun.
  destruct Hobj as [Hsize Hunits Hal Hlow Hhigh Hmm Hbase Huser Hred].
  pose proof (pool_aligned _ Hc) as Pal.
  assert (Hu1 : 1 <= units)
    by (subst units; unfold ceil_div, sizeof_Token, sizeof_Unit; zdiv).
  assert (Hword : forall a, a mod 8 = 0 ->
            is_poisoned st a = true -> is_poisoned (set_mem m' st) a = true).
  { intros a Ha Hp.
    destruct (Z_lt_ge_dec a ptr) as [Hlt | Hge].
    - rewrite <- Hp. apply is_poisoned_frame; [reflexivity |].
      cbn [mem set_mem]. apply Hout. left. exact Hlt.
    - destruct (Z_lt_ge_dec a (ptr + sizeof_Unit * units)) as [Hlt | Hge'].
      + replace a with (word_at ptr ((a - ptr) / 8))
          by (unfold word_at, sizeof_Token, sizeof_Unit in *; zdiv).
        apply Hpo. unfold sizeof_Unit in *. zdiv.
      + rewrite <- Hp. apply is_poisoned_frame; [reflexivity |].
        cbn [mem set_mem]. apply Hout. right. lia. }
  assert (Hok' : heap_ok (set_mem m' st)).
  { destruct Hok as [H1 H2 H3 H4 H5 H6].
    unfold sizeof_Unit, sizeof_Token, PAGE_SIZE in *.
    constructor; cbn [cfg pool_ptr pool_mmap mem nodes quarantine set_mem];
      unfold sizeof_Unit, sizeof_Token; try assumption.
    - apply Hword; [zdiv | exact H4].
    - intros a Ha. rewrite Hout by (right; unfold sizeof_Unit; lia).
      exact (H5 a Ha).
    - intros i count n Hi Hn.
      destruct (H6 i count n Hi Hn) as [R1 R2 R3 R4].
      constructor; try assumption.
      intros k Hk. cbn [cfg set_mem]. apply Hword; [| exact (R4 k Hk)].
      unfold word_at, sizeof_Unit, sizeof_Token. zdiv. }
  apply (quarantine_insert_heap_ok (set_mem m' st) ptr units st' Hok');
    cbn [cfg pool_ptr set_mem]; try assumption.
  intros k Hk. destruct (Z.eq_dec k (-1)) as [-> | Hne].
  - apply Hword.
    + unfold word_at, sizeof_Token, sizeof_Unit in *. zdiv.
    + replace (word_at ptr (-1)) with (ptr - sizeof_Token)
        by (unfold word_at, sizeof_Token; lia).
      exact Hbase.
  - apply Hpo. lia.
Qed.

(** An allocation from the pool and its free, one after the other, keep the
    invariant. *)
Lemma malloc_free_heap_ok st size p st1 st2 :
  heap_ok st -> pool_size (cfg st) <= 2 ^ 32 -> 0 <= size ->
  malloc_size128 size = ceil_div (effective_size size + sizeof_Token) sizeof_Unit ->
  quarantine_usage st <= quarantine_size (cfg st) ->
  rezzan_malloc size st = (Ok p, st1) ->
  rezzan_free p st1 = (Ok tt, st2) ->
  heap_ok st1 /\ heap_ok st2.
Proof.
  intros Hok H32 Hsize Hunits Hq Hrun Hfree.
  destruct (rezzan_malloc_object _ _ _ _ Hok Hsize Hunits Hrun)
    as (Hcfg & Hobj & Hin).
  assert (Hok1 : heap_ok st1).
  { destruct (Z_le_gt_dec (pool_ptr st + malloc_size128 size)
                (pool_size (cfg st))) as [Hfit | Hfull].
    - destruct (rezzan_malloc_from_pool st size Hok Hsize Hunits Hq Hfit)
        as (st1' & Hrun' & _ & Hok1).
      rewrite Hrun in Hrun'. congruence.
    - exfalso.
      pose proof (heap_ptr _ Hok) as Hptr.
      pose proof (heap_mmap _ Hok) as Hmmap.
      pose proof (malloc_size128_range size) as Hrange.
      revert Hrun. rewrite rezzan_malloc_unfold. unfold bind at 1, get.
      unfold bind at 1.
      destruct (Z.gtb_spec (quarantine_usage st) (quarantine_size (cfg st)));
        [lia |].
      unfold ret at 1. cbn [negb Z.eqb NULL]. unfold bind.
      rewrite pool_malloc_full by lia. cbn [NULL Z.eqb]. discriminate. }
  split; [exact Hok1 |].
  apply (rezzan_free_heap_ok st1 p (effective_size size) (malloc_size128 size)
           st2 Hok1); try assumption; rewrite Hcfg; assumption.
Qed.

(** *** The window check on a live object *)

Lemma test_token61_word st a :
  nonce_size (cfg st) = 61 ->
  rezzan_test_token61 st a = is_poisoned st a.
Proof. intros H. unfold is_poisoned. rewrite H. reflexivity. Qed.

(** No window inside the user bytes of an object traps. *)
Lemma check_poisoned_inside st ptr size units a n :
  config_ok (cfg st) -> object_at st ptr size units ->
  ptr <= a -> 0 <= n -> a + n <= ptr + size -> n + 15 < 2 ^ 31 ->
  check_poisoned a n st = (Ok tt, st).
Proof.
  intros Hc [Hsize Hunits Hal Hlow Hhigh Hmm Hbase Huser Hred] Ha Hn Hend Hsmall.
  pose proof (pool_high _ Hc) as Phigh. pose proof (pool_low _ Hc) as Plow.
  unfold ceil_div, sizeof_Token, sizeof_Unit, PAGE_SIZE in *.
  set (u := (size + 8 - 1) / 8) in *.
  assert (Hu : 1 <= u /\ 8 * (u - 1) < size <= 8 * u) by (unfold u; zdiv).
  assert (HT : u + 1 <= 2 * units <= u + 2) by (subst units; unfold u; zdiv).
  clearbody u.
  rewrite check_poisoned_run by lia. cbv zeta.
  set (fd := a mod 8). set (len := n + fd). set (count := (len + 7) / 8).
  assert (Hfd : 0 <= fd < 8) by (unfold fd; zdiv).
  assert (Hfd' : (a - fd - ptr) mod 8 = 0) by (unfold fd; zdiv).
  assert (Hcount : 8 * count - 7 <= len <= 8 * count) by (unfold count; zdiv).
  assert (Hed : len mod 8 = len - 8 * (count - 1) \/ (len mod 8 = 0 /\ len = 8 * count))
    by (unfold count; zdiv).
  set (w := (a - fd - ptr) / 8).
  assert (Hw : a - fd = ptr + 8 * w /\ 0 <= w) by (unfold w; zdiv).
  destruct Hw as [Hw Hw0]. rewrite Hw. clearbody w count.
  rewrite any_poisoned_false.
  2:{ intros j Hj. rewrite Z2Nat.id in Hj by lia.
      replace (word_at (ptr + 8 * w) j) with (word_at ptr (w + j))
        by (unfold word_at, sizeof_Token; lia).
      apply Huser. unfold len in *. lia. }
  unfold tail_traps.
  destruct (Z.eqb_spec (len mod 8) 0) as [E0 | E0]; [reflexivity |].
  destruct (Z.eqb_spec (nonce_size (cfg st)) 61) as [E61 | E61]; [| reflexivity].
  cbn [negb andb].
  destruct (negb ((ptr + 8 * w + 8 * count) mod PAGE_SIZE =? 0));
    [| reflexivity].
  cbn [andb]. rewrite test_token61_word by exact E61.
  replace (ptr + 8 * w + 8 * count) with (word_at ptr (w + count))
    by (unfold word_at, sizeof_Token; lia).
  destruct (Z_lt_ge_dec (w + count) u) as [Hlt | Hge].
  - rewrite Huser by lia. reflexivity.
  - assert (Ewc : w + count = u) by (unfold len in *; lia).
    rewrite Ewc. rewrite is_poisoned_word, (Hred u) by lia.
    rewrite word_poisoned_poison_word by exact Hc. cbn [andb].
    rewrite boundary_poison_word by assumption.
    destruct (Z.eqb_spec (size mod 8) 0) as [Es | Es]; [reflexivity |].
    cbn [negb andb].
    destruct (Z.ltb_spec (size mod 8) (len mod 8)) as [Hlt | _]; [| reflexivity].
    exfalso. unfold len in *. zdiv.
Qed.

(** The byte after the last user byte is caught through the boundary field,
    unless it is the last byte of its word or the token starts a page. *)
Lemma check_poisoned_past_end st ptr size units :
  config_ok (cfg st) -> object_at st ptr size units ->
  nonce_size (cfg st) = 61 ->
  1 <= size mod 8 <= 6 ->
  (ptr + 8 * ceil_div size 8) mod PAGE_SIZE <> 0 ->
  check_poisoned (ptr + size) 1 st = (Sigill, st).
Proof.
  intros Hc [Hsize Hunits Hal Hlow Hhigh Hmm Hbase Huser Hred] H61 Hmod Hpage.
  pose proof (pool_high _ Hc) as Phigh. pose proof (pool_low _ Hc) as Plow.
  unfold ceil_div, sizeof_Token, sizeof_Unit, PAGE_SIZE in *.
  set (u := (size + 8 - 1) / 8) in *.
  assert (Hu : 1 <= u /\ 8 * (u - 1) < size <= 8 * u) by (unfold u; zdiv).
  assert (HT : u + 1 <= 2 * units <= u + 2) by (subst units; unfold u; zdiv).
  assert (Hsz : size = 8 * (u - 1) + size mod 8) by (unfold u; zdiv).
  clearbody u.
  rewrite check_poisoned_run by lia. cbv zeta.
  assert (Efd : (ptr + size) mod 8 = size mod 8) by zdiv.
  rewrite Efd.
  assert (Ecount : (1 + size mod 8 + 7) / 8 = 1) by zdiv.
  rewrite Ecount.
  assert (Eed : (1 + size mod 8) mod 8 = 1 + size mod 8) by zdiv.
  rewrite Eed.
  replace (ptr + size - size mod 8) with (word_at ptr (u - 1))
    by (unfold word_at, sizeof_Token; lia).
  change (Z.to_nat 1) with 1%nat. cbn [any_poisoned].
  rewrite Huser by lia.
  replace (word_at ptr (u - 1) + 8 * 1) with (word_at ptr u)
    by (unfold word_at, sizeof_Token; lia).
  unfold tail_traps. rewrite H61. cbn [Z.eqb Pos.eqb].
  rewrite test_token61_word by exact H61.
  rewrite is_poisoned_word, (Hred u) by lia.
  rewrite word_poisoned_poison_word by exact Hc.
  rewrite boundary_poison_word by assumption.
  destruct (Z.eqb_spec (1 + size mod 8) 0); [lia |].
  destruct (Z.eqb_spec (word_at ptr u mod PAGE_SIZE) 0) as [E | _].
  { unfold word_at, sizeof_Token, PAGE_SIZE in E. contradiction. }
  destruct (Z.eqb_spec (size mod 8) 0); [lia |].
  destruct (Z.ltb_spec (size mod 8) (1 + size mod 8)); [reflexivity | lia].
Qed.

(** A window that covers a poisoned word traps at once. *)
Lemma check_poisoned_covered st ptr n w :
  0 <= ptr -> 0 < n -> n + 15 < 2 ^ 31 -> ptr + n + 8 < 2 ^ 64 ->
  w mod 8 = 0 -> ptr < w + 8 -> w < ptr + n ->
  is_poisoned st w = true ->
  check_poisoned ptr n st = (Sigill, st).
Proof.
  intros Hp Hn Hsmall Hhi Hw Hlo Hup Hpo.
  rewrite check_poisoned_run by lia. cbv zeta.
  set (a := ptr - ptr mod 8). set (count := (n + ptr mod 8 + 7) / 8).
  rewrite (any_poisoned_true st a (Z.to_nat count) ((w - a) / 8)).
  - reflexivity.
  - rewrite Z2Nat.id by (unfold count; zdiv). unfold a, count. zdiv.
  - replace (word_at a ((w - a) / 8)) with w; [exact Hpo |].
    unfold word_at, sizeof_Token, a. zdiv.
Qed.

(** *** Initialisation establishes the invariant *)

Lemma rezzan_init_heap_ok env st :
  rezzan_init env = (Ok tt, st) ->
  8 <= random_bytes env < 2 ^ 64 ->
  REZZAN_POOL_SIZE env < 2 ^ 63 ->
  heap_ok st.
Proof.
  unfold rezzan_init. intros H Hrand Hsize.
  destruct ((REZZAN_NONCE_SIZE env =? 61) || (REZZAN_NONCE_SIZE env =? 64))
    eqn:Emode; cbn [negb] in H; [| discriminate H].
  destruct (Z.ltb_spec (REZZAN_POOL_SIZE env) (POOL_MMAP_SIZE * sizeof_Unit))
    as [| Hmin]; [discriminate H |].
  destruct (Z.eqb_spec (REZZAN_POOL_SIZE env mod PAGE_SIZE) 0) as [Hpage |];
    cbn [negb] in H; [| discriminate H].
  match type of H with
  | context [mkState ?c _ _ _ _ _ _ _ _ _ _] => set (c0 := c) in *
  end.
  assert (Hc : config_ok c0).
  { unfold POOL_MMAP_SIZE, sizeof_Unit, PAGE_SIZE in *.
    constructor; unfold c0; cbn [nonce_size nonce pool pool_size].
    - apply orb_true_iff in Emode. destruct Emode as [E | E];
        apply Z.eqb_eq in E; auto.
    - unfold boundary. rewrite land_7.
      destruct (REZZAN_NONCE_SIZE env =? 61); zdiv.
    - intros E. rewrite E. cbn [Z.eqb Pos.eqb]. unfold boundary.
      rewrite land_7. zdiv.
    - reflexivity.
    - unfold POOL_BASE, PAGE_SIZE. lia.
    - unfold POOL_BASE, sizeof_Unit. zdiv.
    - unfold sizeof_Unit. zdiv. }
  unfold bind at 1 in H. rewrite (poison_run c0) in H by (reflexivity || exact Hc).
  unfold bind at 1 in H. rewrite (poison_run c0) in H by (reflexivity || exact Hc).
  unfold modify in H. inversion H; subst st; clear H.
  unfold POOL_MMAP_SIZE, sizeof_Unit, PAGE_SIZE, sizeof_Token in *.
  constructor; state_simpl.
  - exact Hc.
  - change (2 ^ 15 / 16) with 2048. lia.
  - unfold c0. cbn [pool_size]. unfold sizeof_Unit.
    change (2 ^ 15 / 16) with 2048 in *. zdiv.
  - rewrite is_poisoned_word. state_simpl. fold c0.
    unfold upd, sizeof_Unit, sizeof_Token. unfold c0 at 2. cbn [pool].
    replace (POOL_BASE + 16 * (0 + 1) - 8 =? POOL_BASE + 8) with true
      by (symmetry; apply Z.eqb_eq; lia).
    apply word_poisoned_poison_word. exact Hc.
  - intros a Ha. unfold upd. unfold c0 in Ha. cbn [pool] in Ha.
    unfold sizeof_Unit in Ha.
    unfold POOL_BASE in *.
    repeat match goal with
           | |- context [?x =? ?y] => destruct (Z.eqb_spec x y); [lia |]
           end.
    reflexivity.
  - intros i count n Hi Hin. destruct count; cbn in Hin; contradiction.
Qed.

Lemma st_init_run : rezzan_init default_env = (Ok tt, st_init).
Proof.
  unfold st_init, boot. destruct (rezzan_init default_env) as [r s] eqn:E.
  assert (Hr : fst (rezzan_init default_env) = Ok tt) by (vm_compute; reflexivity).
  rewrite E in Hr. cbn in Hr. subst r. reflexivity.
Qed.

Lemma st_init_heap_ok : heap_ok st_init.
Proof.
  apply (rezzan_init_heap_ok default_env).
  - exact st_init_run.
  - cbn. lia.
  - cbn. lia.
Qed.

(** *** The class index and the first phase *)

Lemma testbit_top x b :
  0 <= b -> 0 <= x < 2 ^ (b + 1) ->
  Z.testbit x b = (2 ^ b <=? x).
Proof.
  intros Hb Hx. rewrite Z.testbit_eqb by exact Hb.
  replace (b + 1) with (Z.succ b) in Hx by lia.
  rewrite Z.pow_succ_r in Hx by lia.
  pose proof (Z.pow_pos_nonneg 2 b ltac:(lia) Hb) as Hp.
  destruct (Z.leb_spec (2 ^ b) x) as [Hle | Hlt].
  - assert (E : x / 2 ^ b = 1).
    { symmetry. apply (Z.div_unique x (2 ^ b) 1 (x - 2 ^ b)); lia. }
    rewrite E. reflexivity.
  - rewrite Z.div_small by lia. reflexivity.
Qed.

Lemma clz_from_log2 bits x :
  0 < x < 2 ^ Z.of_nat bits ->
  clz_from x bits = Z.of_nat bits - 1 - Z.log2 x.
Proof.
  induction bits as [| b IH]; intros Hx.
  - simpl in Hx. lia.
  - rewrite Nat2Z.inj_succ in *. unfold Z.succ in *.
    cbn [clz_from]. rewrite testbit_top by lia.
    destruct (Z.leb_spec (2 ^ Z.of_nat b) x) as [Hle | Hlt].
    + rewrite (Z.log2_unique x (Z.of_nat b)); lia.
    + rewrite IH by lia. lia.
Qed.

Lemma quarantine_index_log2 s :
  0 <= s < 2 ^ 64 ->
  quarantine_index s = if s =? 0 then 0 else Z.min (Z.log2 s + 1) 19.
Proof.
  intros Hs. unfold quarantine_index.
  destruct (Z.eqb_spec s 0) as [| Hnz]; [reflexivity |].
  unfold builtin_clzll. rewrite clz_from_log2 by (change (Z.of_nat 64) with 64; lia).
  change (Z.of_nat 64) with 64. unfold QUARANTINE_CLASSES.
  destruct (Z.geb_spec (64 - (64 - 1 - Z.log2 s)) 20); lia.
Qed.

Lemma scan_list_find nodes size budget prev node :
  let big := fun n => size128 (nodes n) >=? size in
  let l := chain nodes (S budget) node in
  match snd (scan_list nodes size budget prev node) with
  | Some n => if size128 (nodes n) <? size then None else Some n
  | None => None
  end = find big l.
Proof.
  revert prev node. induction budget as [| b IH]; intros prev node; cbn zeta.
  - destruct node as [n |]; cbn; [| reflexivity].
    destruct (Z.geb_spec (size128 (nodes n)) size), (Z.ltb_spec (size128 (nodes n)) size);
      try reflexivity; lia.
  - destruct node as [n |]; [| reflexivity].
    cbn [scan_list]. cbn [chain find].
    destruct (Z.geb_spec (size128 (nodes n)) size) as [Hge | Hlt].
    + cbn [snd]. destruct (Z.ltb_spec (size128 (nodes n)) size); [lia | reflexivity].
    + apply IH.
Qed.

Theorem first_phase_selects st size :
  snd (first_phase st size) =
  find (fun n => size128 (nodes st n) >=? size)
    (chain (nodes st) 9 (front (quarantine st (quarantine_index size)))).
Proof.
  unfold first_phase.
  pose proof (scan_list_find (nodes st) size LIMIT None
                (front (quarantine st (quarantine_index size)))) as H.
  cbn zeta in H. unfold LIMIT in *.
  destruct (scan_list (nodes st) size 8 None
              (front (quarantine st (quarantine_index size)))) as [prev node].
  cbn [snd] in *. rewrite <- H. destruct node as [n |]; [| reflexivity].
  destruct (size128 (nodes st n) <? size); reflexivity.
Qed.

(** *** Further facts about the operations *)

Lemma run_eq {A} (c : M A) st : c st = (outcome c st, exec c st).
Proof. unfold outcome, exec. destruct (c st); reflexivity. Qed.

Lemma bind_ok {A B} (c : M A) (k : A -> M B) st a st' :
  c st = (Ok a, st') -> bind c k st = k a st'.
Proof. intros H. unfold bind. rewrite H. reflexivity. Qed.

Lemma bind_trap {A B} (c : M A) (k : A -> M B) st st' :
  c st = (Sigill, st') -> bind c k st = (Sigill, st').
Proof. intros H. unfold bind. rewrite H. reflexivity. Qed.

Lemma run_known {A} (c : M A) st r :
  outcome c st = r -> c st = (r, exec c st).
Proof. intros <-. apply run_eq. Qed.

Lemma malloc_size128_small size :
  0 <= size -> size + 24 <= 2 ^ 64 ->
  malloc_size128 size
  = ceil_div (effective_size size + sizeof_Token) sizeof_Unit.
Proof.
  intros H0 H1. unfold malloc_size128, effective_size, ceil_div.
  unfold sizeof_Token, sizeof_Unit.
  set (s := if size =? 0 then 1 else size).
  assert (Hs : 1 <= s <= 2 ^ 64 - 24)
    by (unfold s; destruct (Z.eqb_spec size 0); lia).
  clearbody s. rewrite (wrap64_small (s + 8)) by lia.
  destruct (Z.eqb_spec ((s + 8) mod 16) 0); cbn [negb].
  - zdiv.
  - rewrite wrap64_small by zdiv. zdiv.
Qed.

Ltac abstract_window :=
  unfold check_poisoned; cbv zeta;
  match goal with
  | |- context [Z.to_nat (wrap64 ?cl)] =>
      let CL := fresh "CL" in
      set (CL := cl);
      match goal with
      | |- context [negb (?e =? 0) && _] =>
          let ED := fresh "ED" in
          set (ED := e) in *; clearbody CL; clearbody ED
      end
  end.

Lemma check_poisoned_cases ptr n st :
  check_poisoned ptr n st = (Ok tt, st)
  \/ check_poisoned ptr n st = (Sigill, st).
Proof.
  abstract_window. unfold bind at 1 3.
  rewrite check_tokens_run.
  destruct (any_poisoned _ _ _); [right; reflexivity |].
  unfold bind, get, ret, ud2.
  repeat match goal with
         | |- context [if ?b then _ else _] => destruct b
         end; auto.
Qed.

Lemma check_poisoned_state ptr n st : exec (check_poisoned ptr n) st = st.
Proof.
  unfold exec.
  destruct (check_poisoned_cases ptr n st) as [E | E]; rewrite E; reflexivity.
Qed.

Lemma copy_forward_returns count : forall dst src st,
  outcome (copy_forward count dst src) st = Ok tt.
Proof.
  induction count as [| c IH]; intros dst src st; [reflexivity |].
  unfold outcome in *. cbn [copy_forward]. unfold bind, get, store8, modify.
  apply IH.
Qed.

Lemma copy_backward_returns count : forall dst src st,
  outcome (copy_backward count dst src) st = Ok tt.
Proof.
  induction count as [| c IH]; intros dst src st; [reflexivity |].
  unfold outcome in *. cbn [copy_backward]. unfold bind, get, store8, modify.
  apply IH.
Qed.

(** Within the range of [int], a poisoned word in either cover stops
    [memcpy] and [memmove] before the first store. *)
Lemma memcpy_memmove_trap st dst src n w :
  0 <= dst -> 0 <= src -> 0 < n -> n + 15 < 2 ^ 31 ->
  dst + n + 8 < 2 ^ 64 -> src + n + 8 < 2 ^ 64 ->
  w mod 8 = 0 -> is_poisoned st w = true ->
  (dst < w + 8 /\ w < dst + n) \/ (src < w + 8 /\ w < src + n) ->
  memcpy dst src n st = (Sigill, st) /\ memmove dst src n st = (Sigill, st).
Proof.
  intros Hd Hs Hn Hsmall Hdh Hsh Hw Hp Hcover.
  unfold memcpy, memmove.
  destruct Hcover as [[H1 H2] | [H1 H2]].
  - pose proof (check_poisoned_covered st dst n w Hd Hn Hsmall Hdh Hw H1 H2 Hp)
      as E.
    split; apply bind_trap; exact E.
  - pose proof (check_poisoned_covered st src n w Hs Hn Hsmall Hsh Hw H1 H2 Hp)
      as E.
    destruct (check_poisoned_cases dst n st) as [Ed | Ed].
    + split; rewrite (bind_ok _ _ _ _ _ Ed); apply bind_trap; exact E.
    + split; apply bind_trap; exact Ed.
Qed.


Lemma quarantine_insert_frame ptr size st r st' :
  quarantine_insert ptr size st = (r, st') ->
  cfg st' = cfg st /\ mem st' = mem st.
Proof.
  unfold quarantine_insert, quarantine_node_alloc, bind, get.
  destruct (quarantine_free st).
  - unfold modify, ret; state_simpl.
    match goal with
    | |- context [match back ?e with _ => _ end] => destruct (back e)
    end; intros H; inversion H; split; reflexivity.
  - destruct (quarantine_ptr st >=? quarantine_mmap st);
      unfold modify, ret, error, ud2; state_simpl;
      (match goal with
       | |- context [if ?b then _ else _] => destruct b
       end);
      try (match goal with
           | |- context [match back ?e with _ => _ end] => destruct (back e)
           end);
      intros H; inversion H; split; reflexivity.
Qed.




(** The closed form agrees with a run of the calls, at a size that can be
    run. *)
Example st_after_frees_three :
  observe st_three_freed = observe (st_after_frees 3 2048).
Proof. vm_compute. reflexivity. Qed.

Lemma st_A_outcome : outcome (rezzan_malloc 5) st_init = Ok p_A.
Proof. vm_compute. reflexivity. Qed.

Lemma st_A_run : rezzan_malloc 5 st_init = (Ok p_A, st_A).
Proof. exact (run_known (rezzan_malloc 5) st_init (Ok p_A) st_A_outcome). Qed.

(** * The claims *)

(** ** C1: the window check around an allocation, 61-bit mode *)

(** C1, as stated, fails on the code: the byte just past an object of 13
    bytes is not caught when the first redzone token starts a page, because
    [check_poisoned] skips the tail inspection there.  After
    [malloc(4056); p = malloc(13)] the one-byte check at [p + 13]
    returns. *)
Lemma C1_counterexample_page_boundary :
  nonce_size (cfg st_page) = 61
  /\ outcome (rezzan_malloc 4056 ;; rezzan_malloc 13) st_init = Ok p_page
  /\ 13 mod 8 <> 0
  /\ (p_page + 16) mod PAGE_SIZE = 0
  /\ outcome (check_poisoned (p_page + 13) 1) st_page = Ok tt.
Proof. vm_compute. repeat split; congruence. Qed.

(** The code on the other part of scenario A: the one-byte check at
    [p + 7] after [p = malloc(5)] returns, because a window that ends on a
    word boundary has [end_delta = 0] and the boundary field is not
    consulted. *)
Example scenario_A_last_byte_of_word :
  outcome (check_poisoned (p_A + 7) 1) st_A = Ok tt.
Proof. vm_compute. reflexivity. Qed.

(** C1 (amended): in 61-bit mode, for [p = malloc(s)] of
    [ceil ((s + 8) / 16)] units (every [s <= 2^64 - 24]: the size
    computation does not wrap) with [1 <= s mod 8 <= 6] whose first redzone
    token does not start a page, the check of the single byte at [p + s]
    traps, and no check of a range of fewer than [2^31 - 15] bytes inside
    [p, p + s) traps; after [p = malloc(5)] the one-byte checks at [p + 5]
    and [p + 8] trap and the one at [p + 4] does not. *)
Theorem C1_window_check_of_allocation st size p st1 :
  heap_ok st -> nonce_size (cfg st) = 61 -> 0 <= size ->
  malloc_size128 size
    = ceil_div (effective_size size + sizeof_Token) sizeof_Unit ->
  rezzan_malloc size st = (Ok p, st1) ->
  (1 <= size mod 8 <= 6 ->
   (p + 8 * ceil_div size 8) mod PAGE_SIZE <> 0 ->
   check_poisoned (p + size) 1 st1 = (Sigill, st1))
  /\ (forall a n,
        p <= a -> 0 <= n -> a + n <= p + size -> n + 15 < 2 ^ 31 ->
        check_poisoned a n st1 = (Ok tt, st1))
  /\ (size = 5 ->
      check_poisoned (p + 5) 1 st1 = (Sigill, st1)
      /\ check_poisoned (p + 8) 1 st1 = (Sigill, st1)
      /\ check_poisoned (p + 4) 1 st1 = (Ok tt, st1)).
Proof.
  intros Hok H61 Hsize Hunits Hrun.
  destruct (rezzan_malloc_object _ _ _ _ Hok Hsize Hunits Hrun)
    as (Hcfg & Hobj & _).
  pose proof (heap_cfg _ Hok) as Hc. rewrite <- Hcfg in Hc, H61.
  assert (Hes : size <= effective_size size)
    by (unfold effective_size; destruct (Z.eqb_spec size 0); lia).
  assert (Hpast : 1 <= size mod 8 <= 6 ->
            (p + 8 * ceil_div size 8) mod PAGE_SIZE <> 0 ->
            check_poisoned (p + size) 1 st1 = (Sigill, st1)).
  { intros Hmod Hpage.
    assert (E : effective_size size = size).
    { unfold effective_size. destruct (Z.eqb_spec size 0) as [-> |]; [| reflexivity].
      cbn in Hmod. lia. }
    rewrite E in Hobj.
    exact (check_poisoned_past_end _ _ _ _ Hc Hobj H61 Hmod Hpage). }
  assert (Hin : forall a n,
            p <= a -> 0 <= n -> a + n <= p + size -> n + 15 < 2 ^ 31 ->
            check_poisoned a n st1 = (Ok tt, st1)).
  { intros a n Ha Hn Hend Hsmall.
    apply (check_poisoned_inside _ _ _ _ a n Hc Hobj); lia. }
  split; [exact Hpast |]. split; [exact Hin |].
  intros ->. split; [| split].
  - apply Hpast; [cbn; lia |].
    pose proof (obj_aligned _ _ _ _ Hobj) as Hal.
    unfold ceil_div, PAGE_SIZE, sizeof_Unit in *.
    change ((5 + 8 - 1) / 8) with 1. zdiv.
  - pose proof (obj_aligned _ _ _ _ Hobj) as Hal.
    pose proof (obj_low _ _ _ _ Hobj) as Hlow.
    pose proof (obj_high _ _ _ _ Hobj) as Hhigh.
    pose proof (obj_mapped _ _ _ _ Hobj) as Hmapped.
    pose proof (pool_high _ Hc) as Phigh. pose proof (pool_low _ Hc) as Plow.
    change (malloc_size128 5) with 1 in *.
    unfold sizeof_Unit, PAGE_SIZE in *.
    apply (check_poisoned_covered st1 (p + 8) 1 (p + 8)); try lia; try zdiv.
    rewrite is_poisoned_word.
    replace (p + 8) with (word_at p 1) by (unfold word_at, sizeof_Token; lia).
    rewrite (obj_redzone _ _ _ _ Hobj).
    + apply word_poisoned_poison_word. exact Hc.
    + change (malloc_size128 5) with 1.
      change (ceil_div (effective_size 5) 8) with 1. lia.
  - apply Hin; lia.
Qed.

Lemma C1_witness :
  check_poisoned (p_A + 5) 1 st_A = (Sigill, st_A)
  /\ check_poisoned (p_A + 8) 1 st_A = (Sigill, st_A)
  /\ check_poisoned (p_A + 4) 1 st_A = (Ok tt, st_A).
Proof.
  apply (C1_window_check_of_allocation st_init 5 p_A st_A).
  - exact st_init_heap_ok.
  - reflexivity.
  - lia.
  - reflexivity.
  - exact st_A_run.
  - reflexivity.
Defined.

(** ** C2: alignment and size of an allocation *)

(** C2 at its failing input: [malloc(SIZE_MAX)] succeeds; [size + 8] wraps
    to 7, so the allocation has one unit, which is not
    [ceil ((size + 8) / 16)], and [size < size128 * 16] fails.  The
    self-check under [option_checks] reports exactly this as "invalid
    object length". *)
Theorem C2_malloc_size_max :
  outcome (rezzan_malloc (2 ^ 64 - 1)) st_init = Ok p_A
  /\ option_checks (cfg st_init) = false
  /\ p_A mod 16 = 0
  /\ malloc_size128 (2 ^ 64 - 1) = 1
  /\ pool_ptr (exec (rezzan_malloc (2 ^ 64 - 1)) st_init)
     = pool_ptr st_init + 1
  /\ ~ (2 ^ 64 - 1 < malloc_size128 (2 ^ 64 - 1) * 16)
  /\ malloc_size128 (2 ^ 64 - 1) <> ceil_div (2 ^ 64 - 1 + 8) 16
  /\ sanity_checks_fail (exec (rezzan_malloc (2 ^ 64 - 1)) st_init) p_A
       (2 ^ 64 - 1) 1 (p_A - 8) (p_A - 1) = true.
Proof. vm_compute. repeat split; congruence. Qed.

(** Where the size computation does not wrap ([size <= 2^64 - 24]), the
    property of C2 holds. *)
Lemma rezzan_malloc_aligned_and_sized st size p st1 :
  heap_ok st -> 0 <= size -> size + 24 <= 2 ^ 64 ->
  rezzan_malloc size st = (Ok p, st1) ->
  p mod 16 = 0
  /\ effective_size size < malloc_size128 size * 16
  /\ malloc_size128 size = ceil_div (effective_size size + 8) 16.
Proof.
  intros Hok H0 H1 Hrun.
  pose proof (malloc_size128_small size H0 H1) as Hunits.
  destruct (rezzan_malloc_object _ _ _ _ Hok H0 Hunits Hrun)
    as (_ & Hobj & _).
  split; [exact (obj_aligned _ _ _ _ Hobj) |].
  split; [| exact Hunits].
  rewrite Hunits. unfold ceil_div, sizeof_Token, sizeof_Unit. zdiv.
Qed.

(** ** C3: free poisons the object and recovers its unit count *)



(** Scenario of C3, run: the free of [p_A] returns and leaves a one-unit
    node for unit 1 on list 1. *)
Example scenario_free_runs :
  outcome (rezzan_free p_A) st_A = Ok tt
  /\ list_nodes (exec (rezzan_free p_A) st_A) 1 = [0]
  /\ nodes (exec (rezzan_free p_A) st_A) 0 = mkFreeNode 1 1 None
  /\ quarantine_usage (exec (rezzan_free p_A) st_A) = 1.
Proof. vm_compute. repeat split; reflexivity. Qed.

(** ** C4: memcpy and memmove stop before the first store *)

Lemma copy_after_checks dst src n st :
  check_poisoned dst n st = (Ok tt, st) ->
  check_poisoned src n st = (Ok tt, st) ->
  outcome (memcpy dst src n) st = Ok dst
  /\ outcome (memmove dst src n) st = Ok dst.
Proof.
  intros E1 E2. unfold outcome, memcpy, memmove.
  rewrite !(bind_ok _ _ _ _ _ E1), !(bind_ok _ _ _ _ _ E2).
  generalize (Z.to_nat n). intros count.
  split.
  - unfold bind.
    pose proof (copy_forward_returns count dst src st) as H.
    unfold outcome in H.
    destruct (copy_forward count dst src st) as [r s].
    cbn [fst] in H. subst r. reflexivity.
  - unfold bind. destruct (dst <? src).
    + pose proof (copy_forward_returns count dst src st) as H.
      unfold outcome in H.
      destruct (copy_forward count dst src st) as [r s].
      cbn [fst] in H. subst r. reflexivity.
    + pose proof (copy_backward_returns count (dst + (n - 1)) (src + (n - 1)) st)
        as H.
      unfold outcome in H.
      destruct (copy_backward count (dst + (n - 1)) (src + (n - 1)) st) as [r s].
      cbn [fst] in H. subst r. reflexivity.
Qed.

(** C4 at a failing input: [p = malloc(5); memcpy(p, src, 2^32)].  The
    token at [p + 8] lies in the word cover of the destination, but
    [int check_len = n + front_delta] truncates the length to 0, both
    window checks return without testing a word, and the copy runs:
    [memcpy] and [memmove] return [dst] instead of trapping. *)
Theorem C4_length_truncated_to_int :
  is_poisoned st_A (p_A + 8) = true
  /\ p_A <= p_A + 8 < p_A + 2 ^ 32
  /\ check_poisoned p_A (2 ^ 32) st_A = (Ok tt, st_A)
  /\ check_poisoned src_buf (2 ^ 32) st_A = (Ok tt, st_A)
  /\ outcome (memcpy p_A src_buf (2 ^ 32)) st_A = Ok p_A
  /\ outcome (memmove p_A src_buf (2 ^ 32)) st_A = Ok p_A.
Proof.
  assert (E1 : check_poisoned p_A (2 ^ 32) st_A = (Ok tt, st_A)).
  { rewrite <- (check_poisoned_state p_A (2 ^ 32) st_A) at 2.
    apply run_known. vm_compute. reflexivity. }
  assert (E2 : check_poisoned src_buf (2 ^ 32) st_A = (Ok tt, st_A)).
  { rewrite <- (check_poisoned_state src_buf (2 ^ 32) st_A) at 2.
    apply run_known. vm_compute. reflexivity. }
  split; [vm_compute; reflexivity |].
  split; [unfold p_A, POOL_BASE; lia |].
  split; [exact E1 |]. split; [exact E2 |].
  exact (copy_after_checks p_A src_buf (2 ^ 32) st_A E1 E2).
Qed.

(** What the copy does to the object once the check has let it through:
    after the first 16 bytes the redzone token of [p_A] is gone. *)
Example scenario_copy_overwrites_redzone :
  is_poisoned (exec (copy_forward 16 p_A src_buf) st_A) (p_A + 8) = false.
Proof. vm_compute. reflexivity. Qed.

(** After [p = malloc(100)]: a copy into the object passes, a copy whose
    cover reaches the redzone token traps and leaves memory as it was. *)
Example scenario_copy_into_redzone :
  let st := exec (rezzan_malloc 100) st_init in
  outcome (memcpy p_A src_buf 6) st = Ok p_A
  /\ outcome (memcpy (p_A + 100) src_buf 8) st = Sigill
  /\ observe (exec (memcpy (p_A + 100) src_buf 8) st) = observe st.
Proof. vm_compute. repeat split; reflexivity. Qed.

(** ** C5: pool exhaustion *)

(** C5, as stated, fails on the code: with the defaults, [malloc(2^31)]
    needs one unit more than the pool has, the quarantine is not consulted,
    and the call ends in SIGILL instead of returning [NULL]. *)
Lemma C5_counterexample :
  (quarantine_usage st_init >? quarantine_size (cfg st_init)) = false
  /\ pool_ptr st_init + malloc_size128 (2 ^ 31) > pool_size (cfg st_init)
  /\ outcome (rezzan_malloc (2 ^ 31)) st_init = Sigill
  /\ outcome (rezzan_malloc (2 ^ 31)) st_init <> Ok NULL.
Proof. vm_compute. repeat split; congruence. Qed.

(** C5 (amended): when the quarantine yields nothing and
    [pool_ptr + size128 > pool_size], [pool_malloc] returns [NULL] with
    [errno = ENOMEM] and changes nothing else, and [rezzan_malloc] then
    calls [error]: the process ends with SIGILL. *)
Theorem C5_pool_exhaustion st size :
  0 <= pool_ptr st < 2 ^ 63 ->
  pool_ptr st + malloc_size128 size > pool_size (cfg st) ->
  quarantine_usage st <= quarantine_size (cfg st)
  \/ quarantine_malloc (malloc_size128 size) st = (Ok NULL, st) ->
  pool_malloc (malloc_size128 size) st = (Ok NULL, set_errno ENOMEM st)
  /\ rezzan_malloc size st = (Sigill, set_errno ENOMEM st).
Proof.
  intros Hptr Hfull Hq.
  pose proof (malloc_size128_range size) as Hrange.
  assert (Hpool : pool_malloc (malloc_size128 size) st
                  = (Ok NULL, set_errno ENOMEM st))
    by (apply pool_malloc_full; lia).
  split; [exact Hpool |].
  rewrite rezzan_malloc_unfold. unfold bind at 1, get.
  assert (Hchoice :
    (if quarantine_usage st >? quarantine_size (cfg st)
     then quarantine_malloc (malloc_size128 size) else ret NULL) st
    = (Ok NULL, st)).
  { destruct (Z.gtb_spec (quarantine_usage st) (quarantine_size (cfg st)))
      as [Hgt | Hle]; [| reflexivity].
    destruct Hq as [Hq | Hq]; [lia | exact Hq]. }
  rewrite (bind_ok _ _ _ _ _ Hchoice). cbn [NULL Z.eqb negb].
  rewrite (bind_ok _ _ _ _ _ Hpool). reflexivity.
Qed.

Lemma C5_witness :
  pool_malloc (malloc_size128 (2 ^ 31)) st_init
    = (Ok NULL, set_errno ENOMEM st_init)
  /\ rezzan_malloc (2 ^ 31) st_init = (Sigill, set_errno ENOMEM st_init).
Proof.
  apply (C5_pool_exhaustion st_init (2 ^ 31)).
  - vm_compute. split; [discriminate | reflexivity].
  - vm_compute. reflexivity.
  - left. vm_compute. discriminate.
Defined.

(** ** C6: free when no FreeNode can be had *)







(** ** C7: quarantine_usage against the nodes on the lists *)

(** C7 at a failing input.  List 2 holds a 2-unit node and a 3-unit node;
    [quarantine_malloc(3)] takes the second one and leaves [back] pointing
    at it (see C8); the next [quarantine_insert] of a 3-unit region links
    the recycled node behind that stale [back], where no [front] reaches
    it.  [quarantine_usage] is then 5 and the nodes reachable on the lists
    sum to 2. *)
Theorem C7_usage_exceeds_reachable_sum :
  quarantine_usage st_init = quarantine_sum st_init
  /\ quarantine_usage st_two_freed = 5
  /\ quarantine_sum st_two_freed = 5
  /\ outcome (quarantine_malloc 3) st_two_freed = Ok q_two
  /\ quarantine_usage st_detached = 2
  /\ quarantine_sum st_detached = 2
  /\ outcome (quarantine_insert q_two 3) st_detached = Ok tt
  /\ quarantine_usage st_lost = 5
  /\ quarantine_sum st_lost = 2
  /\ list_nodes st_lost 2 = [0]
  /\ next (nodes st_lost 1) = Some 1.
Proof. vm_compute. repeat split; reflexivity. Qed.

(** The split path by itself keeps the two in step: a 3-unit node split by
    a request of one unit. *)
Example scenario_split_keeps_usage :
  let st := exec (p <- rezzan_malloc 40 ;; rezzan_free p) st_init in
  let st' := exec (quarantine_malloc 1) st in
  quarantine_usage st = 3 /\ quarantine_sum st = 3
  /\ outcome (quarantine_malloc 1) st = Ok (p_A + 32)
  /\ quarantine_usage st' = 2 /\ quarantine_sum st' = 2
  /\ list_nodes st' 2 = [0] /\ quarantine_wf st' = true.
Proof. vm_compute. repeat split; reflexivity. Qed.

(** ** C8: well-formed lists *)

(** C8 at a failing input: the chosen node is the back node of list 2 and
    has a predecessor.  [quarantine_malloc] rewrites [prev->next] only;
    [back] still points at the detached node, which sits on the node free
    list. *)
Theorem C8_stale_back_after_detach :
  quarantine_wf st_two_freed = true
  /\ list_nodes st_two_freed 2 = [0; 1]
  /\ first_phase st_two_freed 3 = (Some 0, Some 1)
  /\ outcome (quarantine_malloc 3) st_two_freed = Ok q_two
  /\ quarantine_wf st_detached = false
  /\ list_nodes st_detached 2 = [0]
  /\ back (quarantine st_detached 2) = Some 1
  /\ quarantine_free st_detached = Some 1
  /\ on_some_list st_detached 1 = true.
Proof. vm_compute. repeat split; reflexivity. Qed.

(** ** C9: the class index *)

(** C9, as stated, fails on the code: one unit goes to class 1, not to
    class [floor (log2 1) = 0]. *)
Lemma C9_counterexample :
  quarantine_index 1 = 1 /\ quarantine_index 1 <> Z.min (Z.log2 1) 19.
Proof. vm_compute. split; congruence. Qed.

(** C9 (amended): for a unit count [s >= 1], [quarantine_index s] is
    [floor (log2 s) + 1], the bit length of [s], clamped to 19, and
    [quarantine_index 0 = 0]. *)
Theorem C9_quarantine_index_bit_length s :
  0 <= s < 2 ^ 64 ->
  quarantine_index s = if s =? 0 then 0 else Z.min (Z.log2 s + 1) 19.
Proof. exact (quarantine_index_log2 s). Qed.

Lemma C9_witness :
  quarantine_index 5 = if 5 =? 0 then 0 else Z.min (Z.log2 5 + 1) 19.
Proof. apply (C9_quarantine_index_bit_length 5). lia. Defined.

(** ** C10: the first phase of quarantine_malloc *)

(** C10, as stated, fails on the code: with eight 2-unit nodes in front of
    a 3-unit node on list 2, none of the first eight nodes fits a request
    of 3 units, and the first phase selects the ninth. *)
Lemma C10_counterexample :
  list_nodes st_nine_freed 2 = [0; 1; 2; 3; 4; 5; 6; 7; 8]
  /\ find (fun n => size128 (nodes st_nine_freed n) >=? 3)
       (chain (nodes st_nine_freed) 8
          (front (quarantine st_nine_freed (quarantine_index 3)))) = None
  /\ first_phase st_nine_freed 3 = (Some 7, Some 8).
Proof. vm_compute. repeat split; reflexivity. Qed.

(** C10 (amended): the first phase selects the first node among the first
    nine of list [index(req128)] whose [size128 >= req128]: the loop steps
    over at most eight nodes that are too small and the node it stops at
    is tested; when none of the nine fits, it selects no node. *)
Theorem C10_first_phase_selects_among_nine st size :
  snd (first_phase st size) =
  find (fun n => size128 (nodes st n) >=? size)
    (chain (nodes st) 9 (front (quarantine st (quarantine_index size)))).
Proof. exact (first_phase_selects st size). Qed.

(** * Further properties of the runtime *)

(** ** Helpers *)

Lemma rezzan_init_run env :
  (REZZAN_NONCE_SIZE env = 61 \/ REZZAN_NONCE_SIZE env = 64) ->
  2 ^ 15 <= REZZAN_POOL_SIZE env ->
  REZZAN_POOL_SIZE env mod PAGE_SIZE = 0 ->
  exists st,
    rezzan_init env = (Ok tt, st)
    /\ pool_ptr st = 1 /\ pool_mmap st = POOL_MMAP_SIZE
    /\ quarantine_usage st = 0 /\ quarantine_ptr st = 0
    /\ quarantine_free st = None
    /\ (forall i, quarantine st i = mkEntry None None)
    /\ pool (cfg st) = POOL_BASE
    /\ pool_size (cfg st) = REZZAN_POOL_SIZE env / sizeof_Unit
    /\ mem st POOL_BASE = poison_word (cfg st) 0.
Proof.
  intros Hmode Hmin Hpage. unfold rezzan_init.
  assert (E1 : (REZZAN_NONCE_SIZE env =? 61) || (REZZAN_NONCE_SIZE env =? 64)
               = true).
  { destruct Hmode as [-> | ->]; reflexivity. }
  rewrite E1. cbn [negb].
  destruct (Z.ltb_spec (REZZAN_POOL_SIZE env) (POOL_MMAP_SIZE * sizeof_Unit))
    as [Hlt | _].
  { unfold POOL_MMAP_SIZE, sizeof_Unit in Hlt.
    change (2 ^ 15 / 16 * 16) with (2 ^ 15) in Hlt. lia. }
  rewrite Hpage. cbn [Z.eqb negb].
  unfold bind, poison, modify, rezzan_set_token61, rezzan_set_token64, ret.
  cbn [cfg nonce_size].
  destruct Hmode as [-> | ->]; cbn [Z.eqb Pos.eqb];
    eexists; (split; [reflexivity |]); state_simpl;
    cbn [pool pool_size]; repeat split; reflexivity.
Qed.

Lemma st_A_object : object_at st_A p_A 5 1.
Proof.
  destruct (rezzan_malloc_object st_init 5 p_A st_A st_init_heap_ok)
    as (_ & H & _); [lia | reflexivity | exact st_A_run | exact H].
Qed.

Lemma st_A_config : config_ok (cfg st_A).
Proof. exact (heap_cfg _ st_init_heap_ok). Qed.

(** ** Initialisation *)

(** X1: [rezzan_init] accepts a nonce size of 61 or 64 and a pool size of at
    least 32768 bytes that is a multiple of the page size, and ends in
    [error] (SIGILL) for any other options.  For accepted options and a
    random nonce that is not zero once its boundary bits are cleared, it
    returns with the allocator invariant established: the first unit of the
    pool is taken and poisoned, and the quarantine is empty with no
    usage. *)
Theorem rezzan_init_establishes_heap env :
  8 <= random_bytes env < 2 ^ 64 ->
  REZZAN_POOL_SIZE env < 2 ^ 63 ->
  ((REZZAN_NONCE_SIZE env = 61 \/ REZZAN_NONCE_SIZE env = 64) ->
   2 ^ 15 <= REZZAN_POOL_SIZE env ->
   REZZAN_POOL_SIZE env mod PAGE_SIZE = 0 ->
   exists st,
     rezzan_init env = (Ok tt, st)
     /\ heap_ok st
     /\ pool_ptr st = 1
     /\ quarantine_usage st = 0
     /\ (forall i, quarantine st i = mkEntry None None)
     /\ is_poisoned st (pool (cfg st)) = true
     /\ is_poisoned st (pool (cfg st) + sizeof_Token) = true)
  /\ ((REZZAN_NONCE_SIZE env <> 61 /\ REZZAN_NONCE_SIZE env <> 64)
      \/ REZZAN_POOL_SIZE env < 2 ^ 15
      \/ REZZAN_POOL_SIZE env mod PAGE_SIZE <> 0 ->
      fst (rezzan_init env) = Sigill).
Proof.
  intros Hrand Hsize. split.
  - intros Hmode Hmin Hpage.
    destruct (rezzan_init_run env Hmode Hmin Hpage)
      as (st & Hrun & Hpp & Hpm & Hqu & Hqp & Hqf & Hq & Hpool & Hps & Hfirst).
    assert (Hok : heap_ok st)
      by (apply (rezzan_init_heap_ok env st Hrun Hrand); lia).
    exists st.
    split; [exact Hrun |]. split; [exact Hok |]. split; [exact Hpp |].
    split; [exact Hqu |]. split; [exact Hq |]. split.
    + (* the first token of the pool *)
      rewrite is_poisoned_word, Hpool, Hfirst.
      apply word_poisoned_poison_word. exact (heap_cfg _ Hok).
    + (* the token before the first object *)
      pose proof (heap_top _ Hok) as Htop. rewrite Hpp in Htop.
      unfold sizeof_Unit, sizeof_Token in *.
      replace (pool (cfg st) + 8) with (pool (cfg st) + 16 * 1 - 8) by lia.
      exact Htop.
  - intros H. unfold rezzan_init.
    destruct (Z.eqb_spec (REZZAN_NONCE_SIZE env) 61) as [E61 | E61];
      destruct (Z.eqb_spec (REZZAN_NONCE_SIZE env) 64) as [E64 | E64];
      cbn [orb negb]; try reflexivity;
      (destruct (Z.ltb_spec (REZZAN_POOL_SIZE env) (POOL_MMAP_SIZE * sizeof_Unit))
         as [Hlt | Hge]; [reflexivity |]);
      (destruct (Z.eqb_spec (REZZAN_POOL_SIZE env mod PAGE_SIZE) 0)
         as [Hpg | Hpg]; cbn [negb]; [| reflexivity]);
      exfalso; unfold POOL_MMAP_SIZE, sizeof_Unit in Hge;
      change (2 ^ 15 / 16 * 16) with (2 ^ 15) in Hge;
      destruct H as [[H1 H2] | [H | H]]; try lia; congruence.
Qed.

Lemma rezzan_init_establishes_heap_witness :
  ((REZZAN_NONCE_SIZE default_env = 61 \/ REZZAN_NONCE_SIZE default_env = 64) ->
   2 ^ 15 <= REZZAN_POOL_SIZE default_env ->
   REZZAN_POOL_SIZE default_env mod PAGE_SIZE = 0 ->
   exists st,
     rezzan_init default_env = (Ok tt, st)
     /\ heap_ok st
     /\ pool_ptr st = 1
     /\ quarantine_usage st = 0
     /\ (forall i, quarantine st i = mkEntry None None)
     /\ is_poisoned st (pool (cfg st)) = true
     /\ is_poisoned st (pool (cfg st) + sizeof_Token) = true)
  /\ ((REZZAN_NONCE_SIZE default_env <> 61
       /\ REZZAN_NONCE_SIZE default_env <> 64)
      \/ REZZAN_POOL_SIZE default_env < 2 ^ 15
      \/ REZZAN_POOL_SIZE default_env mod PAGE_SIZE <> 0 ->
      fst (rezzan_init default_env) = Sigill).
Proof.
  apply (rezzan_init_establishes_heap default_env).
  - vm_compute. split; [discriminate | reflexivity].
  - vm_compute. reflexivity.
Defined.

(** ** Allocation from the pool *)

(** [pool_malloc] touches the pool globals, the memory it maps and [errno]
    only. *)
Lemma pool_malloc_other_fields size128 st r st' :
  pool_malloc size128 st = (r, st') ->
  quarantine_usage st' = quarantine_usage st
  /\ quarantine_free st' = quarantine_free st
  /\ quarantine_ptr st' = quarantine_ptr st
  /\ quarantine_mmap st' = quarantine_mmap st.
Proof.
  unfold pool_malloc, bind at 1, get.
  destruct (wrap64 (pool_ptr st + size128) >? pool_size (cfg st)).
  - intros H. inversion H. repeat split; reflexivity.
  - destruct (wrap64 (pool_ptr st + size128) >? pool_mmap st);
      intros H; inversion H; repeat split; reflexivity.
Qed.

Lemma pool_malloc_mmap_grows size128 st r st' :
  heap_ok st -> 0 <= size128 ->
  pool_ptr st + size128 <= pool_size (cfg st) ->
  pool_malloc size128 st = (r, st') ->
  pool_mmap st <= pool_mmap st'.
Proof.
  intros Hok H0 Hfit.
  destruct Hok as [Hc Hptr Hmmap Htop Hfresh _].
  pose proof (pool_high _ Hc) as Hhigh. pose proof (pool_low _ Hc) as Hlow.
  unfold PAGE_SIZE, sizeof_Unit in *.
  unfold pool_malloc, bind at 1, get. unfold sizeof_Unit.
  rewrite (wrap64_small (pool_ptr st + size128)) by lia.
  destruct (Z.gtb_spec (pool_ptr st + size128) (pool_size (cfg st))); [lia |].
  destruct (Z.gtb_spec (pool_ptr st + size128) (pool_mmap st)) as [Hgrow | Hin].
  - set (m1 := wrap64 (pool_ptr st + size128 + POOL_MMAP_SIZE)).
    set (m2 := if negb (m1 mod (PAGE_SIZE / 16) =? 0)
               then wrap64 (m1 + PAGE_SIZE / 16)
                    - wrap64 (m1 + PAGE_SIZE / 16) mod (PAGE_SIZE / 16)
               else m1).
    set (m3 := if m2 >? pool_size (cfg st) then pool_size (cfg st) else m2).
    assert (Hm1 : m1 = pool_ptr st + size128 + 2048).
    { unfold m1, POOL_MMAP_SIZE, sizeof_Unit. apply wrap64_small.
      change (2 ^ 15 / 16) with 2048. lia. }
    assert (Hm2 : m1 <= m2).
    { unfold m2, PAGE_SIZE. change (4096 / 16) with 256.
      destruct (negb (m1 mod 256 =? 0)); [| lia].
      rewrite (wrap64_small (m1 + 256)) by lia. zdiv. }
    assert (Hm3 : pool_ptr st + size128 <= m3 <= pool_size (cfg st)).
    { unfold m3. destruct (Z.gtb_spec m2 (pool_size (cfg st))); lia. }
    intros Hrun. inversion Hrun.
    cbn [pool_mmap set_pool_ptr set_pool_mmap set_mem].
    fold m3. lia.
  - intros Hrun. inversion Hrun. cbn [pool_mmap set_pool_ptr]. lia.
Qed.

(** The pool path of [rezzan_malloc], in full. *)
Lemma rezzan_malloc_pool_spec st size :
  heap_ok st -> 0 <= size -> size + 24 <= 2 ^ 64 ->
  quarantine_usage st <= quarantine_size (cfg st) ->
  pool_ptr st + malloc_size128 size <= pool_size (cfg st) ->
  exists st1,
    rezzan_malloc size st
      = (Ok (pool (cfg st) + sizeof_Unit * pool_ptr st), st1)
    /\ heap_ok st1
    /\ object_at st1 (pool (cfg st) + sizeof_Unit * pool_ptr st)
         (effective_size size) (malloc_size128 size)
    /\ cfg st1 = cfg st
    /\ pool_ptr st1 = pool_ptr st + malloc_size128 size
    /\ pool_mmap st <= pool_mmap st1
    /\ nodes st1 = nodes st /\ quarantine st1 = quarantine st
    /\ quarantine_usage st1 = quarantine_usage st
    /\ quarantine_free st1 = quarantine_free st
    /\ quarantine_ptr st1 = quarantine_ptr st
    /\ (forall a, a < pool (cfg st) + sizeof_Unit * pool_ptr st
                  \/ pool (cfg st) + sizeof_Unit * pool_ptr st1 <= a ->
          mem st1 a = mem st a)
    /\ (forall k, 0 <= k < ceil_div (effective_size size) 8 ->
          mem st1 (word_at (pool (cfg st) + sizeof_Unit * pool_ptr st) k) = 0).
Proof.
  intros Hok Hsize Hsmall Hq Hfit.
  pose proof (malloc_size128_small size Hsize Hsmall) as Hunits.
  destruct (rezzan_malloc_from_pool st size Hok Hsize Hunits Hq Hfit)
    as (st1 & Hrun & Hpp1 & Hok1).
  exists st1. split; [exact Hrun |]. split; [exact Hok1 |].
  destruct (rezzan_malloc_object st size _ st1 Hok Hsize Hunits Hrun)
    as (Hcfg1 & Hobj & _).
  split; [exact Hobj |]. split; [exact Hcfg1 |]. split; [exact Hpp1 |].
  pose proof (heap_cfg _ Hok) as Hc.
  pose proof (pool_high _ Hc) as Phigh. pose proof (pool_low _ Hc) as Plow.
  pose proof (heap_ptr _ Hok) as Hptr. pose proof (heap_mmap _ Hok) as Hmm.
  pose proof (effective_size_pos _ Hsize) as Hes.
  pose proof (malloc_size128_range size) as Hrange.
  set (units := malloc_size128 size) in *.
  set (es := effective_size size) in *.
  assert (Hu1 : 1 <= units).
  { rewrite Hunits. unfold ceil_div, sizeof_Token, sizeof_Unit. zdiv. }
  assert (H0u : 0 <= units) by lia.
  destruct (pool_malloc_ok st units Hok H0u Hfit)
    as (st' & Hprun & Hcfg & Hpp & Hpm & Hmem & Hnodes & Hlists).
  destruct (pool_malloc_other_fields _ _ _ _ Hprun) as (Hqu & Hqf & Hqp & _).
  pose proof (pool_malloc_mmap_grows _ _ _ _ Hok H0u Hfit Hprun) as Hgrow.
  set (ptr := pool (cfg st) + sizeof_Unit * pool_ptr st) in *.
  revert Hrun. rewrite rezzan_malloc_unfold. fold units es.
  unfold bind at 1, get. unfold bind at 1.
  destruct (Z.gtb_spec (quarantine_usage st) (quarantine_size (cfg st)));
    [lia |].
  unfold ret at 1. cbn [negb Z.eqb NULL].
  unfold bind at 1. rewrite Hprun.
  unfold sizeof_Unit, PAGE_SIZE in *.
  destruct (Z.eqb_spec ptr NULL) as [E | _];
    [unfold NULL, ptr in E; lia |].
  intros Hfin.
  assert (Hc' : config_ok (cfg st')) by (rewrite Hcfg; exact Hc).
  assert (A1 : ptr mod sizeof_Unit = 0).
  { pose proof (pool_aligned _ Hc) as Pal.
    unfold ptr, sizeof_Unit, PAGE_SIZE in *. zdiv. }
  assert (A2 : pool (cfg st') + sizeof_Unit <= ptr)
    by (rewrite Hcfg; unfold ptr, sizeof_Unit; lia).
  assert (A3 : ptr + sizeof_Unit * units
               <= pool (cfg st') + sizeof_Unit * pool_mmap st')
    by (rewrite Hcfg; unfold ptr, sizeof_Unit; lia).
  assert (A4 : pool_mmap st' <= pool_size (cfg st')) by (rewrite Hcfg; lia).
  assert (A5 : is_poisoned st' (ptr - sizeof_Token) = true).
  { rewrite (is_poisoned_frame st st') by auto. exact (heap_top _ Hok). }
  assert (A6 : false = false -> forall k, 0 <= k < ceil_div es 8 ->
            is_poisoned st' (word_at ptr k) = false).
  { intros _ k Hk. rewrite is_poisoned_word, Hcfg, Hmem.
    rewrite (heap_fresh _ Hok).
    - apply word_poisoned_zero. exact Hc.
    - unfold word_at, ptr, sizeof_Token, sizeof_Unit. lia. }
  destruct (malloc_finish_layout false _ es units st' _ _ Hc' Hes Hunits
              A1 A2 A3 A4 A5 A6 Hfin) as (_ & _ & m' & -> & Hout & Hval).
  cbn [pool_mmap nodes quarantine quarantine_usage quarantine_free
       quarantine_ptr mem pool_ptr set_mem] in *.
  split; [lia |]. split; [exact Hnodes |]. split; [exact Hlists |].
  split; [exact Hqu |]. split; [exact Hqf |]. split; [exact Hqp |]. split.
  - intros a Ha. rewrite Hout by (unfold ptr, sizeof_Unit in *; lia).
    apply Hmem.
  - intros k Hk. rewrite Hval by exact Hk. rewrite Hmem.
    apply (heap_fresh _ Hok). unfold word_at, ptr, sizeof_Token, sizeof_Unit.
    lia.
Qed.

(** An object stays the object it is while its words, the token before it
    included, keep their content. *)
Lemma object_at_frame st st' p size units :
  object_at st p size units ->
  cfg st' = cfg st ->
  pool_mmap st <= pool_mmap st' <= pool_size (cfg st) ->
  (forall k, -1 <= k < 2 * units ->
     mem st' (word_at p k) = mem st (word_at p k)) ->
  object_at st' p size units.
Proof.
  intros [Hsize Hunits Hal Hlow Hhigh Hmm Hbase Huser Hred] Hcfg Hpm Hmem.
  assert (HT : ceil_div size 8 + 1 <= 2 * units).
  { subst units. unfold ceil_div, sizeof_Token, sizeof_Unit. zdiv. }
  assert (Hu0 : 0 <= ceil_div size 8) by (unfold ceil_div; zdiv).
  constructor; rewrite ?Hcfg; try assumption;
    try (unfold sizeof_Unit in *; lia).
  - replace (p - sizeof_Token) with (word_at p (-1)) in *
      by (unfold word_at, sizeof_Token; lia).
    rewrite (is_poisoned_frame st st') by (auto; apply Hmem; lia).
    exact Hbase.
  - intros k Hk.
    rewrite (is_poisoned_frame st st') by (auto; apply Hmem; lia).
    apply Huser. exact Hk.
  - intros k Hk. rewrite Hmem by lia. apply Hred. exact Hk.
Qed.

(** X2: a request the pool can serve while the quarantine is below its
    threshold returns the next free unit of the pool,
    [pool + 16 * pool_ptr]; the pool pointer advances by
    [ceil ((size + 8) / 16)] units, the region is a live object (token
    before it, unpoisoned user words, poisoned redzone), and the allocator
    invariant holds again. *)
Theorem rezzan_malloc_from_pool_object st size :
  heap_ok st -> 0 <= size -> size + 24 <= 2 ^ 64 ->
  quarantine_usage st <= quarantine_size (cfg st) ->
  pool_ptr st + malloc_size128 size <= pool_size (cfg st) ->
  exists st1,
    rezzan_malloc size st
      = (Ok (pool (cfg st) + sizeof_Unit * pool_ptr st), st1)
    /\ heap_ok st1
    /\ pool_ptr st1
       = pool_ptr st + ceil_div (effective_size size + sizeof_Token) sizeof_Unit
    /\ object_at st1 (pool (cfg st) + sizeof_Unit * pool_ptr st)
         (effective_size size) (malloc_size128 size).
Proof.
  intros Hok Hsize Hsmall Hq Hfit.
  destruct (rezzan_malloc_pool_spec st size Hok Hsize Hsmall Hq Hfit)
    as (st1 & Hrun & Hok1 & Hobj & _ & Hpp & _).
  exists st1. rewrite <- (malloc_size128_small size Hsize Hsmall).
  auto.
Qed.

Lemma rezzan_malloc_from_pool_object_witness :
  exists st1,
    rezzan_malloc 5 st_init
      = (Ok (pool (cfg st_init) + sizeof_Unit * pool_ptr st_init), st1)
    /\ heap_ok st1
    /\ pool_ptr st1
       = pool_ptr st_init + ceil_div (effective_size 5 + sizeof_Token) sizeof_Unit
    /\ object_at st1 (pool (cfg st_init) + sizeof_Unit * pool_ptr st_init)
         (effective_size 5) (malloc_size128 5).
Proof.
  apply (rezzan_malloc_from_pool_object st_init 5).
  - exact st_init_heap_ok.
  - lia.
  - vm_compute. discriminate.
  - vm_compute. discriminate.
  - vm_compute. discriminate.
Defined.

(** X3: an allocation of at most 2^64 - 24 bytes from the pool lies above
    every object allocated before it and leaves such an object as it is: a
    live object below the pool pointer is still a live object of the same
    size afterwards. *)
Theorem rezzan_malloc_keeps_live_objects st size p st1 q qsize qunits :
  heap_ok st -> 0 <= size -> size + 24 <= 2 ^ 64 ->
  quarantine_usage st <= quarantine_size (cfg st) ->
  rezzan_malloc size st = (Ok p, st1) ->
  object_at st q qsize qunits ->
  q + sizeof_Unit * qunits <= pool (cfg st) + sizeof_Unit * pool_ptr st ->
  q + sizeof_Unit * qunits <= p
  /\ object_at st1 q qsize qunits.
Proof.
  intros Hok Hsize Hsmall Hq Hrun Hobj Hbelow.
  pose proof (malloc_size128_range size) as Hrange.
  pose proof (heap_ptr _ Hok) as Hptr. pose proof (heap_mmap _ Hok) as Hmm.
  destruct (Z_le_gt_dec (pool_ptr st + malloc_size128 size)
              (pool_size (cfg st))) as [Hfit | Hfull].
  - destruct (rezzan_malloc_pool_spec st size Hok Hsize Hsmall Hq Hfit)
      as (st1' & Hrun' & Hok1 & _ & Hcfg & Hpp & Hgrow & _ & _ & _ & _ & _
          & Hout & _).
    rewrite Hrun in Hrun'. inversion Hrun'; subst p st1'. clear Hrun'.
    split; [exact Hbelow |].
    apply (object_at_frame st st1 q qsize qunits Hobj Hcfg).
    + pose proof (heap_mmap _ Hok1) as Hmm1. rewrite Hcfg in Hmm1. lia.
    + intros k Hk. apply Hout. left.
      unfold word_at, sizeof_Unit, sizeof_Token in *. lia.
  - exfalso.
    pose proof (pool_high _ (heap_cfg _ Hok)) as Phigh.
    pose proof (pool_low _ (heap_cfg _ Hok)) as Plow.
    unfold sizeof_Unit, PAGE_SIZE in *.
    revert Hrun. rewrite rezzan_malloc_unfold.
    unfold bind at 1, get. unfold bind at 1.
    destruct (Z.gtb_spec (quarantine_usage st) (quarantine_size (cfg st)));
      [lia |].
    unfold ret at 1. cbn [negb Z.eqb NULL]. unfold bind.
    rewrite pool_malloc_full by lia. cbn [NULL Z.eqb]. discriminate.
Qed.

Lemma st_A_heap_ok : heap_ok st_A.
Proof.
  destruct (rezzan_malloc_pool_spec st_init 5 st_init_heap_ok)
    as (st1 & Hrun & Hok & _); try (vm_compute; discriminate).
  assert (E : st1 = st_A).
  { pose proof st_A_run as H. change p_A with (pool (cfg st_init)
      + sizeof_Unit * pool_ptr st_init) in H. congruence. }
  rewrite <- E. exact Hok.
Qed.

Lemma st_AB_run : rezzan_malloc 24 st_A = (Ok p_B, st_AB).
Proof.
  apply (run_known (rezzan_malloc 24) st_A (Ok p_B)).
  vm_compute. reflexivity.
Qed.

Lemma st_A_freed_run : rezzan_free p_A st_A = (Ok tt, st_A_freed).
Proof.
  apply (run_known (rezzan_free p_A) st_A (Ok tt)).
  vm_compute. reflexivity.
Qed.

Lemma rezzan_malloc_keeps_live_objects_witness :
  p_A + sizeof_Unit * 1 <= p_B /\ object_at st_AB p_A 5 1.
Proof.
  apply (rezzan_malloc_keeps_live_objects st_A 24 p_B st_AB p_A 5 1).
  - exact st_A_heap_ok.
  - lia.
  - lia.
  - vm_compute. discriminate.
  - exact st_AB_run.
  - exact st_A_object.
  - vm_compute. discriminate.
Defined.

(** ** Free *)


(** What the free of a live object leaves behind, whether the insertion
    into the quarantine succeeds or not. *)
Lemma rezzan_free_spec st p size units r st' :
  config_ok (cfg st) -> object_at st p size units ->
  rezzan_free p st = (r, st') ->
  cfg st' = cfg st
  /\ (forall k, 0 <= k < 2 * units ->
        is_poisoned st' (word_at p k) = true)
  /\ (forall a, (a < p \/ p + sizeof_Unit * units <= a) ->
        mem st' a = mem st a).
Proof.
  intros Hc Hobj Hrun.
  destruct (rezzan_free_object _ _ _ _ Hc Hobj) as (m' & Hfree & Hpo & Hout).
  rewrite Hfree in Hrun.
  destruct (quarantine_insert_frame _ _ _ _ _ Hrun) as [Hcfg Hmem].
  cbn [cfg mem set_mem] in Hcfg, Hmem.
  split; [exact Hcfg |]. split.
  - intros k Hk. rewrite <- (Hpo k Hk).
    apply is_poisoned_frame; [exact Hcfg | now rewrite Hmem].
  - intros a Ha. rewrite Hmem. apply Hout. exact Ha.
Qed.


Lemma st_A_freed_heap_ok : heap_ok st_A_freed.
Proof.
  apply (rezzan_free_heap_ok st_A p_A 5 1 st_A_freed).
  - exact st_A_heap_ok.
  - vm_compute. discriminate.
  - exact st_A_object.
  - vm_compute. discriminate.
  - exact st_A_freed_run.
Qed.


(** X5: a second free of the same pointer is detected: after a completed
    free of a live object, [rezzan_free] of that pointer ends in [error]
    (SIGILL, "bad or double-free detected") and changes nothing. *)
Theorem rezzan_free_twice_traps st p size units st' :
  config_ok (cfg st) -> object_at st p size units ->
  rezzan_free p st = (Ok tt, st') ->
  rezzan_free p st' = (Sigill, st').
Proof.
  intros Hc Hobj Hrun.
  destruct (rezzan_free_spec _ _ _ _ _ _ Hc Hobj Hrun) as (Hcfg & Hpo & _).
  destruct Hobj as [Hsize Hunits Hal Hlow Hhigh Hmm Hbase Huser Hred].
  pose proof (pool_low _ Hc) as Plow.
  assert (Hu1 : 1 <= units)
    by (subst units; unfold ceil_div, sizeof_Token, sizeof_Unit; zdiv).
  unfold rezzan_free.
  destruct (Z.eqb_spec p NULL) as [E | _];
    [unfold NULL, sizeof_Unit, PAGE_SIZE in *; lia |].
  unfold bind, get. rewrite Hal, Hcfg. cbn [Z.eqb negb].
  destruct (Z.ltb_spec p (pool (cfg st))) as [E | _];
    [unfold sizeof_Unit in *; lia |].
  destruct (Z.geb_spec p (pool (cfg st) + sizeof_Unit * pool_size (cfg st)))
    as [E | _]; [unfold sizeof_Unit in *; lia |].
  cbn [orb].
  pose proof (Hpo 0 ltac:(lia)) as H0. unfold word_at in H0.
  rewrite Z.mul_0_r, Z.add_0_r in H0. rewrite H0. reflexivity.
Qed.

Lemma rezzan_free_twice_traps_witness :
  rezzan_free p_A st_A_freed = (Sigill, st_A_freed).
Proof.
  apply (rezzan_free_twice_traps st_A p_A 5 1 st_A_freed).
  - exact st_A_config.
  - exact st_A_object.
  - exact st_A_freed_run.
Defined.

(** X6: [rezzan_free] of a pointer strictly inside the user bytes of a live
    object ends in [error] (SIGILL) and changes nothing: a pointer that is
    not 16-byte aligned is rejected for its alignment, an aligned one
    because the word before it is no token. *)
Theorem rezzan_free_interior_traps st p size units d :
  config_ok (cfg st) -> object_at st p size units ->
  0 < d < size ->
  rezzan_free (p + d) st = (Sigill, st).
Proof.
  intros Hc [Hsize Hunits Hal Hlow Hhigh Hmm Hbase Huser Hred] Hd.
  pose proof (pool_low _ Hc) as Plow. pose proof (pool_high _ Hc) as Phigh.
  unfold ceil_div, sizeof_Token, sizeof_Unit, PAGE_SIZE in *.
  set (u := (size + 8 - 1) / 8) in *.
  assert (Hu : 1 <= u /\ 8 * (u - 1) < size <= 8 * u) by (unfold u; zdiv).
  assert (HT : u + 1 <= 2 * units <= u + 2) by (subst units; unfold u; zdiv).
  clearbody u.
  unfold rezzan_free, sizeof_Unit, sizeof_Token.
  destruct (Z.eqb_spec (p + d) NULL) as [E | _]; [unfold NULL in E; lia |].
  unfold bind, get.
  destruct (Z.eqb_spec ((p + d) mod 16) 0) as [Ea | Ea]; cbn [negb];
    [| reflexivity].
  destruct (Z.ltb_spec (p + d) (pool (cfg st))) as [E | _]; [lia |].
  destruct (Z.geb_spec (p + d) (pool (cfg st) + 16 * pool_size (cfg st)))
    as [E | _]; [lia |].
  cbn [orb].
  assert (Hk : p + d = word_at p (d / 8) /\ 2 <= d / 8 < u)
    by (unfold word_at, sizeof_Token; zdiv).
  destruct Hk as [Ek Hk]. rewrite Ek.
  rewrite Huser by lia.
  replace (word_at p (d / 8) - 8) with (word_at p (d / 8 - 1))
    by (unfold word_at, sizeof_Token; lia).
  rewrite Huser by lia. reflexivity.
Qed.

Lemma rezzan_free_interior_traps_witness :
  rezzan_free (p_B + 16) st_AB = (Sigill, st_AB).
Proof.
  apply (rezzan_free_interior_traps st_AB p_B 24 2 16).
  - exact st_A_config.
  - destruct (rezzan_malloc_object st_A 24 p_B st_AB st_A_heap_ok)
      as (_ & H & _); [lia | reflexivity | exact st_AB_run | exact H].
  - lia.
Defined.

(** ** Detection by the window check *)

(** A window that meets a run of poisoned words traps. *)
Lemma check_poisoned_meets st lo hi a n :
  0 <= a -> 0 < n -> n + 15 < 2 ^ 31 -> a + n + 8 < 2 ^ 64 ->
  lo mod 8 = 0 -> lo < hi ->
  (forall w, w mod 8 = 0 -> lo <= w < hi -> is_poisoned st w = true) ->
  a < hi -> lo < a + n ->
  check_poisoned a n st = (Sigill, st).
Proof.
  intros Ha Hn Hsmall Hhi Hlo Hlh Hpo H1 H2.
  destruct (Z_lt_ge_dec a lo) as [Hb | Hb].
  - apply (check_poisoned_covered st a n lo); try assumption; try lia.
    apply Hpo; [exact Hlo | lia].
  - apply (check_poisoned_covered st a n (a - a mod 8)); try assumption;
      try zdiv.
    apply Hpo; zdiv.
Qed.



(** X8: overflow and underflow of a live object are detected.  The window
    check of an access of 1 to 2^31 - 16 bytes traps (SIGILL, state
    unchanged) when the access reaches the word before the object, or a
    word of its redzone, which starts at [p + 8 * ceil (size / 8)]. *)
Theorem access_outside_object_traps st p size units a n :
  config_ok (cfg st) -> object_at st p size units ->
  0 <= a -> 0 < n -> n + 15 < 2 ^ 31 -> a + n + 8 < 2 ^ 64 ->
  (a < p /\ p - sizeof_Token < a + n)
  \/ (a < p + sizeof_Unit * units
      /\ p + sizeof_Token * ceil_div size 8 < a + n) ->
  check_poisoned a n st = (Sigill, st).
Proof.
  intros Hc [Hsize Hunits Hal Hlow Hhigh Hmm Hbase Huser Hred] Ha Hn Hsmall
    Hhi H.
  pose proof (pool_low _ Hc) as Plow. pose proof (pool_high _ Hc) as Phigh.
  unfold ceil_div, sizeof_Token, sizeof_Unit, PAGE_SIZE in *.
  set (u := (size + 8 - 1) / 8) in *.
  assert (Hu : 1 <= u /\ 8 * (u - 1) < size <= 8 * u) by (unfold u; zdiv).
  assert (HT : u + 1 <= 2 * units <= u + 2) by (subst units; unfold u; zdiv).
  clearbody u.
  destruct H as [[H1 H2] | [H1 H2]].
  - apply (check_poisoned_covered st a n (p - 8)); try assumption; try lia.
    zdiv.
  - apply (check_poisoned_meets st (p + 8 * u) (p + 16 * units) a n);
      try assumption; try lia; [zdiv |].
    intros w Hw1 Hw2.
    replace w with (word_at p ((w - p) / 8))
      by (unfold word_at, sizeof_Token; zdiv).
    rewrite is_poisoned_word, Hred by zdiv.
    apply word_poisoned_poison_word. exact Hc.
Qed.

Lemma access_outside_object_traps_witness :
  check_poisoned (p_A + 4) 5 st_A = (Sigill, st_A).
Proof.
  apply (access_outside_object_traps st_A p_A 5 1 (p_A + 4) 5).
  - exact st_A_config.
  - exact st_A_object.
  - vm_compute. discriminate.
  - lia.
  - lia.
  - vm_compute. reflexivity.
  - right. vm_compute. split; reflexivity.
Defined.

(** X9: the granularity of the check.  An access that stays within the
    words of the user bytes, [p, p + 8 * ceil (size / 8)), passes the
    window check when the nonce size is 64, or when it ends on a word
    boundary: bytes between [p + size] and the redzone are then not
    protected. *)
Theorem access_in_padding_passes st p size units a n :
  config_ok (cfg st) -> object_at st p size units ->
  p <= a -> 0 <= n -> n + 15 < 2 ^ 31 ->
  a + n <= p + sizeof_Token * ceil_div size 8 ->
  nonce_size (cfg st) = 64 \/ (a + n) mod 8 = 0 ->
  check_poisoned a n st = (Ok tt, st).
Proof.
  intros Hc [Hsize Hunits Hal Hlow Hhigh Hmm Hbase Huser Hred] Ha Hn Hsmall
    Hend Hmode.
  pose proof (pool_high _ Hc) as Phigh. pose proof (pool_low _ Hc) as Plow.
  unfold ceil_div, sizeof_Token, sizeof_Unit, PAGE_SIZE in *.
  set (u := (size + 8 - 1) / 8) in *.
  assert (Hu : 1 <= u /\ 8 * (u - 1) < size <= 8 * u) by (unfold u; zdiv).
  assert (HT : u + 1 <= 2 * units <= u + 2) by (subst units; unfold u; zdiv).
  clearbody u.
  rewrite check_poisoned_run by lia. cbv zeta.
  set (fd := a mod 8). set (len := n + fd). set (count := (len + 7) / 8).
  assert (Hfd : 0 <= fd < 8) by (unfold fd; zdiv).
  assert (Hfd' : (a - fd - p) mod 8 = 0) by (unfold fd; zdiv).
  assert (Hcount : 8 * count - 7 <= len <= 8 * count) by (unfold count; zdiv).
  assert (Hed : (a + n) mod 8 = len mod 8) by (unfold len, fd; zdiv).
  set (w := (a - fd - p) / 8).
  assert (Hw : a - fd = p + 8 * w /\ 0 <= w) by (unfold w; zdiv).
  destruct Hw as [Hw Hw0]. rewrite Hw. clearbody w count.
  rewrite any_poisoned_false.
  2:{ intros j Hj. rewrite Z2Nat.id in Hj by lia.
      replace (word_at (p + 8 * w) j) with (word_at p (w + j))
        by (unfold word_at, sizeof_Token; lia).
      apply Huser. unfold len in *. lia. }
  unfold tail_traps.
  destruct Hmode as [E64 | E0].
  - rewrite E64. cbn [Z.eqb Pos.eqb]. rewrite andb_false_r. reflexivity.
  - rewrite <- Hed, E0. reflexivity.
Qed.

Lemma access_in_padding_passes_witness :
  check_poisoned (p_A + 5) 3 st_A = (Ok tt, st_A).
Proof.
  apply (access_in_padding_passes st_A p_A 5 1 (p_A + 5) 3).
  - exact st_A_config.
  - exact st_A_object.
  - lia.
  - lia.
  - lia.
  - vm_compute. discriminate.
  - right. reflexivity.
Defined.

(** ** The quarantine *)

Lemma scan_classes_empty st size count : forall i node,
  0 <= i ->
  (forall j, 0 <= j < QUARANTINE_CLASSES -> front (quarantine st j) = None) ->
  node = None ->
  snd (scan_classes st size count i node) = None.
Proof.
  induction count as [| c IH]; intros i node Hi Hempty Hnode; cbn [scan_classes].
  - exact Hnode.
  - destruct (Z.ltb_spec i QUARANTINE_CLASSES) as [Hlt | Hge]; [| exact Hnode].
    rewrite (Hempty i) by lia. apply IH; [lia | exact Hempty | reflexivity].
Qed.

(** X10: with every quarantine list empty, [quarantine_malloc] returns NULL
    for any request and changes nothing. *)
Theorem quarantine_malloc_empty st size :
  (forall j, 0 <= j < QUARANTINE_CLASSES -> front (quarantine st j) = None) ->
  quarantine_malloc size st = (Ok NULL, st).
Proof.
  intros Hempty.
  pose proof (quarantine_index_range size) as Hi.
  unfold quarantine_malloc, bind, get, first_phase.
  rewrite (Hempty (quarantine_index size)) by exact Hi.
  cbn [scan_list LIMIT].
  pose proof (scan_classes_empty st size (Z.to_nat QUARANTINE_CLASSES)
                (quarantine_index size + 1) None ltac:(lia) Hempty eq_refl)
    as Hscan.
  destruct (scan_classes st size (Z.to_nat QUARANTINE_CLASSES)
              (quarantine_index size + 1) None) as [i' node'].
  cbn [snd] in Hscan. subst node'. reflexivity.
Qed.

Lemma quarantine_malloc_empty_witness :
  quarantine_malloc 3 st_A = (Ok NULL, st_A).
Proof.
  apply (quarantine_malloc_empty st_A 3).
  intros j Hj. reflexivity.
Defined.




(** X12: the size classes are ordered.  [quarantine_index] is monotone, so
    a region filed under a higher class than the class of a request is
    larger than the request; the index never leaves the 20 lists. *)
Theorem quarantine_index_monotone s t :
  0 <= s -> s <= t -> t < 2 ^ 64 ->
  quarantine_index s <= quarantine_index t
  /\ 0 <= quarantine_index s < QUARANTINE_CLASSES
  /\ (forall r, 0 <= r < 2 ^ 64 ->
        quarantine_index r < quarantine_index s -> r < s).
Proof.
  intros Hs Hst Ht.
  assert (Hmono : forall a b, 0 <= a -> a <= b -> b < 2 ^ 64 ->
            quarantine_index a <= quarantine_index b).
  { intros a b Ha Hab Hb.
    rewrite (quarantine_index_log2 a), (quarantine_index_log2 b) by lia.
    destruct (Z.eqb_spec a 0) as [-> | Ha0].
    - destruct (Z.eqb_spec b 0); [lia |].
      pose proof (Z.log2_nonneg b). lia.
    - destruct (Z.eqb_spec b 0) as [-> | Hb0]; [lia |].
      pose proof (Z.log2_le_mono a b Hab). lia. }
  split; [apply Hmono; assumption |].
  split; [apply quarantine_index_range |].
  intros r Hr Hlt.
  destruct (Z_lt_ge_dec r s) as [H | H]; [exact H | exfalso].
  pose proof (Hmono s r Hs ltac:(lia) ltac:(lia)). lia.
Qed.

Lemma quarantine_index_monotone_witness :
  quarantine_index 3 <= quarantine_index 40
  /\ 0 <= quarantine_index 3 < QUARANTINE_CLASSES
  /\ (forall r, 0 <= r < 2 ^ 64 ->
        quarantine_index r < quarantine_index 3 -> r < 3).
Proof.
  apply (quarantine_index_monotone 3 40); lia.
Defined.

(** ** What every allocation returns *)

Lemma load8_zero_word st a :
  mem st (a - a mod sizeof_Token) = 0 -> load8 st a = 0.
Proof.
  intros H. unfold load8. rewrite H, Z.shiftr_0_l. apply Z.land_0_l.
Qed.

(** What a successful [rezzan_malloc] returns, on either path. *)
Lemma rezzan_malloc_result st size p st1 :
  heap_ok st -> 0 <= size -> size + 24 <= 2 ^ 64 ->
  rezzan_malloc size st = (Ok p, st1) ->
  p mod 16 = 0
  /\ pool (cfg st) + sizeof_Unit <= p
  /\ p + sizeof_Unit * ceil_div (effective_size size + sizeof_Token) sizeof_Unit
     <= pool (cfg st) + sizeof_Unit * pool_ptr st1
  /\ object_at st1 p (effective_size size)
       (ceil_div (effective_size size + sizeof_Token) sizeof_Unit)
  /\ (forall i, 0 <= i < sizeof_Token * ceil_div (effective_size size) 8 ->
        load8 st1 (p + i) = 0).
Proof.
  intros Hok Hsize Hsmall Hrun.
  pose proof (malloc_size128_small size Hsize Hsmall) as Hunits.
  destruct (rezzan_malloc_zeroed_object st size p st1 Hok Hsize Hunits Hrun)
    as (Hcfg & Hobj & Hin & Hz).
  rewrite <- Hunits.
  pose proof (obj_aligned _ _ _ _ Hobj) as Hal.
  pose proof (obj_low _ _ _ _ Hobj) as Hlow. rewrite Hcfg in Hlow.
  repeat (split; [assumption |]).
  intros i Hi. apply load8_zero_word.
  replace (p + i - (p + i) mod sizeof_Token) with (word_at p (i / 8))
    by (unfold word_at, sizeof_Token, sizeof_Unit in *; zdiv).
  apply Hz. unfold sizeof_Token in *. zdiv.
Qed.


(** X13: every successful [rezzan_malloc] of at most 2^64 - 24 bytes, from
    the pool or from the quarantine, returns a 16-byte aligned pointer into
    the allocated part of the pool, to a live object of the requested size
    (one byte for a request of zero) on [ceil ((size + 8) / 16)] units, and
    every byte of its user words is zero. *)
Theorem rezzan_malloc_returns_zeroed_object st size p st1 :
  heap_ok st -> 0 <= size -> size + 24 <= 2 ^ 64 ->
  rezzan_malloc size st = (Ok p, st1) ->
  p mod 16 = 0
  /\ pool (cfg st) + sizeof_Unit <= p
  /\ p + sizeof_Unit * ceil_div (effective_size size + sizeof_Token) sizeof_Unit
     <= pool (cfg st) + sizeof_Unit * pool_ptr st1
  /\ object_at st1 p (effective_size size)
       (ceil_div (effective_size size + sizeof_Token) sizeof_Unit)
  /\ (forall i, 0 <= i < sizeof_Token * ceil_div (effective_size size) 8 ->
        load8 st1 (p + i) = 0).
Proof. exact (rezzan_malloc_result st size p st1). Qed.

Lemma rezzan_malloc_returns_zeroed_object_witness :
  p_A mod 16 = 0
  /\ pool (cfg st_init) + sizeof_Unit <= p_A
  /\ p_A + sizeof_Unit * ceil_div (effective_size 5 + sizeof_Token) sizeof_Unit
     <= pool (cfg st_init) + sizeof_Unit * pool_ptr st_A
  /\ object_at st_A p_A (effective_size 5)
       (ceil_div (effective_size 5 + sizeof_Token) sizeof_Unit)
  /\ (forall i, 0 <= i < sizeof_Token * ceil_div (effective_size 5) 8 ->
        load8 st_A (p_A + i) = 0).
Proof.
  apply (rezzan_malloc_returns_zeroed_object st_init 5 p_A st_A).
  - exact st_init_heap_ok.
  - lia.
  - lia.
  - exact st_A_run.
Defined.

(** X14: [memcpy] and [memmove] of 1 to 2^31 - 16 bytes end in SIGILL
    before a byte is stored, leaving the state as it is, when a poisoned
    word lies in the words covered by the destination range or by the
    source range. *)
Theorem memcpy_memmove_poisoned_window st dst src n w :
  0 <= dst -> 0 <= src -> 0 < n -> n + 15 < 2 ^ 31 ->
  dst + n + 8 < 2 ^ 64 -> src + n + 8 < 2 ^ 64 ->
  w mod 8 = 0 -> is_poisoned st w = true ->
  (dst < w + 8 /\ w < dst + n) \/ (src < w + 8 /\ w < src + n) ->
  memcpy dst src n st = (Sigill, st) /\ memmove dst src n st = (Sigill, st).
Proof. exact (memcpy_memmove_trap st dst src n w). Qed.

Lemma memcpy_memmove_poisoned_window_witness :
  memcpy p_A src_buf 9 st_A = (Sigill, st_A)
  /\ memmove p_A src_buf 9 st_A = (Sigill, st_A).
Proof.
  apply (memcpy_memmove_poisoned_window st_A p_A src_buf 9 (p_A + 8)).
  - vm_compute. discriminate.
  - vm_compute. discriminate.
  - lia.
  - lia.
  - vm_compute. reflexivity.
  - vm_compute. reflexivity.
  - reflexivity.
  - reflexivity.
  - left. vm_compute. split; reflexivity.
Defined.

(** ** Bytes of memory *)

Lemma testbit_255 n : 0 <= n -> Z.testbit 255 n = (n <? 8).
Proof.
  intros Hn. change 255 with (Z.ones 8).
  apply Z.testbit_ones_nonneg; lia.
Qed.

Lemma testbit_byte_high b n : 0 <= b < 256 -> 8 <= n -> Z.testbit b n = false.
Proof.
  intros Hb Hn. rewrite <- (Z.mod_small b (2 ^ 8)) by (change (2 ^ 8) with 256; lia).
  apply Z.mod_pow2_bits_high. lia.
Qed.

(** The byte [k] of a word after byte [j] has been replaced by [b]. *)
Lemma byte_after_set w j k b :
  0 <= j -> 0 <= k -> 0 <= b < 256 ->
  Z.land
    (Z.shiftr
       (Z.lor (Z.land w (Z.lnot (Z.shiftl 255 (8 * j)))) (Z.shiftl b (8 * j)))
       (8 * k)) 255
  = if k =? j then b else Z.land (Z.shiftr w (8 * k)) 255.
Proof.
  intros Hj Hk Hb. apply Z.bits_inj'. intros n Hn.
  rewrite Z.land_spec, (testbit_255 n), Z.shiftr_spec, Z.lor_spec,
    Z.land_spec, Z.lnot_spec, !Z.shiftl_spec by lia.
  destruct (Z.ltb_spec n 8) as [Hlt | Hge].
  - rewrite andb_true_r.
    destruct (Z.eqb_spec k j) as [-> | Hne].
    + replace (n + 8 * j - 8 * j) with n by lia.
      rewrite testbit_255 by lia.
      destruct (Z.ltb_spec n 8); [| lia].
      cbn [negb]. rewrite andb_false_r. reflexivity.
    + rewrite Z.land_spec, Z.shiftr_spec, (testbit_255 n) by lia.
      destruct (Z.ltb_spec n 8); [| lia]. rewrite andb_true_r.
      destruct (Z_lt_ge_dec (n + 8 * k - 8 * j) 0) as [Hneg | Hpos].
      * rewrite (Z.testbit_neg_r 255 (n + 8 * k - 8 * j)),
          (Z.testbit_neg_r b (n + 8 * k - 8 * j)) by lia.
        cbn [negb].
        rewrite andb_true_r, orb_false_r. reflexivity.
      * rewrite (testbit_255 (n + 8 * k - 8 * j)) by lia.
        destruct (Z.ltb_spec (n + 8 * k - 8 * j) 8); [lia |].
        rewrite (testbit_byte_high b) by lia. cbn [negb].
        rewrite andb_true_r, orb_false_r. reflexivity.
  - rewrite andb_false_r.
    destruct (Z.eqb_spec k j).
    + symmetry. apply testbit_byte_high; lia.
    + rewrite Z.land_spec, (testbit_255 n) by lia.
      destruct (Z.ltb_spec n 8); [lia |]. rewrite andb_false_r. reflexivity.
Qed.

Lemma load8_range st a : 0 <= load8 st a < 256.
Proof.
  unfold load8. cbv zeta. change 255 with (Z.ones 8).
  rewrite Z.land_ones by lia. apply Z.mod_pos_bound. reflexivity.
Qed.

Lemma store8_run a b st :
  store8 a b st = (Ok tt, set_mem (stored8 (mem st) a b) st).
Proof. reflexivity. Qed.

Lemma load8_stored8 st a b a' :
  0 <= b < 256 ->
  load8 (set_mem (stored8 (mem st) a b) st) a'
  = if a' =? a then b else load8 st a'.
Proof.
  intros Hb. unfold load8, stored8, sizeof_Token. cbv zeta. cbn [mem set_mem].
  unfold upd.
  pose proof (Z.mod_pos_bound a 8 ltac:(lia)) as Ha.
  pose proof (Z.mod_pos_bound a' 8 ltac:(lia)) as Ha'.
  destruct (Z.eqb_spec (a' - a' mod 8) (a - a mod 8)) as [Ew | Ew].
  - rewrite byte_after_set by lia. rewrite Ew.
    destruct (Z.eqb_spec (a' mod 8) (a mod 8)) as [Ek | Ek];
      destruct (Z.eqb_spec a' a) as [E | E]; try reflexivity; lia.
  - destruct (Z.eqb_spec a' a) as [E | E]; [| reflexivity].
    subst a'. contradiction.
Qed.

Lemma stored8_other_word m a b w :
  w <> a - a mod sizeof_Token -> stored8 m a b w = m w.
Proof.
  intros H. unfold stored8, upd. cbv zeta.
  destruct (Z.eqb_spec w (a - a mod sizeof_Token)); [contradiction | reflexivity].
Qed.

(** ** The copy loops *)

(** The forward loop copies [count] bytes when the destination does not
    start inside the source. *)
Lemma copy_forward_spec count : forall dst src st,
  dst <= src \/ src + Z.of_nat count <= dst ->
  exists m',
    copy_forward count dst src st = (Ok tt, set_mem m' st)
    /\ (forall i, 0 <= i < Z.of_nat count ->
          load8 (set_mem m' st) (dst + i) = load8 st (src + i))
    /\ (forall a, a < dst \/ dst + Z.of_nat count <= a ->
          load8 (set_mem m' st) a = load8 st a)
    /\ (forall w, w + sizeof_Token <= dst \/ dst + Z.of_nat count <= w
                  \/ w mod sizeof_Token <> 0 ->
          m' w = mem st w).
Proof.
  induction count as [| c IH]; intros dst src st Hdir.
  - exists (mem st). cbn [copy_forward]. unfold ret.
    rewrite set_mem_same. repeat split; try reflexivity. intros i Hi. lia.
  - cbn [copy_forward]. unfold bind at 1, get. unfold bind at 1.
    rewrite store8_run.
    set (b := load8 st src).
    pose proof (load8_range st src) as Hb. fold b in Hb.
    set (st1 := set_mem (stored8 (mem st) dst b) st).
    destruct (IH (dst + 1) (src + 1) st1) as (m' & Hrun & Hcopy & Hframe & Hwords).
    { lia. }
    exists m'. change (set_mem m' st1) with (set_mem m' st) in *.
    split; [exact Hrun |]. split; [| split].
    + intros i Hi. destruct (Z.eq_dec i 0) as [-> | Hne].
      * rewrite Z.add_0_r. rewrite Hframe by lia.
        unfold st1. rewrite load8_stored8 by exact Hb.
        rewrite Z.eqb_refl, Z.add_0_r. reflexivity.
      * replace (dst + i) with (dst + 1 + (i - 1)) by lia.
        rewrite Hcopy by lia.
        unfold st1. rewrite load8_stored8 by exact Hb.
        destruct (Z.eqb_spec (src + 1 + (i - 1)) dst) as [E | _]; [lia |].
        f_equal. lia.
    + intros a Ha. rewrite Hframe by lia.
      unfold st1. rewrite load8_stored8 by exact Hb.
      destruct (Z.eqb_spec a dst) as [E | _]; [lia | reflexivity].
    + intros w Hw. rewrite Hwords by lia.
      unfold st1. cbn [mem set_mem]. apply stored8_other_word.
      unfold sizeof_Token in *. zdiv.
Qed.

(** The backward loop copies [count] bytes when the source does not start
    inside the destination. *)
Lemma copy_backward_spec count : forall lastd lasts st,
  lasts <= lastd \/ lastd + Z.of_nat count <= lasts ->
  exists m',
    copy_backward count lastd lasts st = (Ok tt, set_mem m' st)
    /\ (forall i, 0 <= i < Z.of_nat count ->
          load8 (set_mem m' st) (lastd - i) = load8 st (lasts - i))
    /\ (forall a, lastd < a \/ a <= lastd - Z.of_nat count ->
          load8 (set_mem m' st) a = load8 st a)
    /\ (forall w, lastd < w \/ w + sizeof_Token <= lastd - Z.of_nat count + 1
                  \/ w mod sizeof_Token <> 0 ->
          m' w = mem st w).
Proof.
  induction count as [| c IH]; intros lastd lasts st Hdir.
  - exists (mem st). cbn [copy_backward]. unfold ret.
    rewrite set_mem_same. repeat split; try reflexivity. intros i Hi. lia.
  - cbn [copy_backward]. unfold bind at 1, get. unfold bind at 1.
    rewrite store8_run.
    set (b := load8 st lasts).
    pose proof (load8_range st lasts) as Hb. fold b in Hb.
    set (st1 := set_mem (stored8 (mem st) lastd b) st).
    destruct (IH (lastd - 1) (lasts - 1) st1)
      as (m' & Hrun & Hcopy & Hframe & Hwords).
    { lia. }
    exists m'. change (set_mem m' st1) with (set_mem m' st) in *.
    split; [exact Hrun |]. split; [| split].
    + intros i Hi. destruct (Z.eq_dec i 0) as [-> | Hne].
      * rewrite Z.sub_0_r. rewrite Hframe by lia.
        unfold st1. rewrite load8_stored8 by exact Hb.
        rewrite Z.eqb_refl, Z.sub_0_r. reflexivity.
      * replace (lastd - i) with (lastd - 1 - (i - 1)) by lia.
        rewrite Hcopy by lia.
        unfold st1. rewrite load8_stored8 by exact Hb.
        destruct (Z.eqb_spec (lasts - 1 - (i - 1)) lastd) as [E | _]; [lia |].
        f_equal. lia.
    + intros a Ha. rewrite Hframe by lia.
      unfold st1. rewrite load8_stored8 by exact Hb.
      destruct (Z.eqb_spec a lastd) as [E | _]; [lia | reflexivity].
    + intros w Hw. rewrite Hwords by lia.
      unfold st1. cbn [mem set_mem]. apply stored8_other_word.
      unfold sizeof_Token in *. zdiv.
Qed.

(** X15: when the window checks of both ranges pass and the destination
    does not start inside the source, [memcpy] returns [dst] having copied
    the [n] bytes: byte [i] of the destination is what byte [i] of the
    source was, and no byte outside the destination range changes. *)
Theorem memcpy_copies st dst src n :
  0 <= n ->
  check_poisoned dst n st = (Ok tt, st) ->
  check_poisoned src n st = (Ok tt, st) ->
  dst <= src \/ src + n <= dst ->
  exists st',
    memcpy dst src n st = (Ok dst, st')
    /\ cfg st' = cfg st
    /\ (forall i, 0 <= i < n -> load8 st' (dst + i) = load8 st (src + i))
    /\ (forall a, a < dst \/ dst + n <= a -> load8 st' a = load8 st a).
Proof.
  intros Hn Hd Hs Hdir.
  destruct (copy_forward_spec (Z.to_nat n) dst src st)
    as (m' & Hrun & Hcopy & Hframe & _).
  { rewrite Z2Nat.id by exact Hn. exact Hdir. }
  rewrite Z2Nat.id in Hcopy, Hframe by exact Hn.
  exists (set_mem m' st). split; [| split; [reflexivity | split; assumption]].
  unfold memcpy. rewrite (bind_ok _ _ _ _ _ Hd), (bind_ok _ _ _ _ _ Hs).
  rewrite (bind_ok _ _ _ _ _ Hrun). reflexivity.
Qed.

Lemma memcpy_copies_witness :
  exists st',
    memcpy p_B p_A 5 st_AB = (Ok p_B, st')
    /\ cfg st' = cfg st_AB
    /\ (forall i, 0 <= i < 5 -> load8 st' (p_B + i) = load8 st_AB (p_A + i))
    /\ (forall a, a < p_B \/ p_B + 5 <= a -> load8 st' a = load8 st_AB a).
Proof.
  apply (memcpy_copies st_AB p_B p_A 5).
  - lia.
  - vm_compute. reflexivity.
  - vm_compute. reflexivity.
  - right. vm_compute. discriminate.
Defined.

(** X16: when the window checks of both ranges pass, [memmove] returns
    [dst] having copied the [n] bytes, however the two ranges overlap: it
    copies forwards when [dst < src] and backwards otherwise. *)
Theorem memmove_copies st dst src n :
  0 <= n ->
  check_poisoned dst n st = (Ok tt, st) ->
  check_poisoned src n st = (Ok tt, st) ->
  exists st',
    memmove dst src n st = (Ok dst, st')
    /\ cfg st' = cfg st
    /\ (forall i, 0 <= i < n -> load8 st' (dst + i) = load8 st (src + i))
    /\ (forall a, a < dst \/ dst + n <= a -> load8 st' a = load8 st a).
Proof.
  intros Hn Hd Hs.
  unfold memmove. rewrite (bind_ok _ _ _ _ _ Hd), (bind_ok _ _ _ _ _ Hs).
  destruct (Z.ltb_spec dst src) as [Hlt | Hge].
  - destruct (copy_forward_spec (Z.to_nat n) dst src st)
      as (m' & Hrun & Hcopy & Hframe & _).
    { left. lia. }
    rewrite Z2Nat.id in Hcopy, Hframe by exact Hn.
    exists (set_mem m' st). split; [| split; [reflexivity | split; assumption]].
    rewrite (bind_ok _ _ _ _ _ Hrun). reflexivity.
  - destruct (copy_backward_spec (Z.to_nat n) (dst + (n - 1)) (src + (n - 1)) st)
      as (m' & Hrun & Hcopy & Hframe & _).
    { left. lia. }
    rewrite Z2Nat.id in Hcopy, Hframe by exact Hn.
    exists (set_mem m' st). split; [| split; [reflexivity | split]].
    + rewrite (bind_ok _ _ _ _ _ Hrun). reflexivity.
    + intros i Hi.
      replace (dst + i) with (dst + (n - 1) - (n - 1 - i)) by lia.
      rewrite Hcopy by lia. f_equal. lia.
    + intros a Ha. apply Hframe. lia.
Qed.

Lemma memmove_copies_witness :
  exists st',
    memmove (p_B + 2) p_B 20 st_AB = (Ok (p_B + 2), st')
    /\ cfg st' = cfg st_AB
    /\ (forall i, 0 <= i < 20 ->
          load8 st' (p_B + 2 + i) = load8 st_AB (p_B + i))
    /\ (forall a, a < p_B + 2 \/ p_B + 2 + 20 <= a ->
          load8 st' a = load8 st_AB a).
Proof.
  apply (memmove_copies st_AB (p_B + 2) p_B 20).
  - lia.
  - vm_compute. reflexivity.
  - vm_compute. reflexivity.
Defined.

(** ** The usable size, realloc and calloc *)





Lemma any_nonzero_false st count : forall p,
  (forall i, 0 <= i < Z.of_nat count -> load8 st (p + i) = 0) ->
  any_nonzero st count p = false.
Proof.
  induction count as [| c IH]; intros p H; [reflexivity |].
  cbn [any_nonzero]. pose proof (H 0 ltac:(lia)) as H0.
  rewrite Z.add_0_r in H0. rewrite H0. cbn [Z.eqb negb].
  apply IH. intros i Hi. replace (p + 1 + i) with (p + (i + 1)) by lia.
  apply H. lia.
Qed.

(** X18: [rezzan_calloc (nmemb, size)] is [rezzan_malloc] of the product
    [nmemb * size] taken modulo 2^64, with no test for overflow: where that
    value is at most 2^64 - 24, the same outcome and the same state, the
    self-check under [option_checks] never failing.  The object it returns
    has that many bytes (one for a product of zero), all of them zero. *)
Theorem rezzan_calloc_is_malloc st nmemb size :
  heap_ok st ->
  wrap64 (nmemb * size) + 24 <= 2 ^ 64 ->
  rezzan_calloc nmemb size st = rezzan_malloc (wrap64 (nmemb * size)) st
  /\ forall p st1,
       rezzan_calloc nmemb size st = (Ok p, st1) ->
       object_at st1 p (effective_size (wrap64 (nmemb * size)))
         (ceil_div (effective_size (wrap64 (nmemb * size)) + sizeof_Token)
            sizeof_Unit)
       /\ forall i, 0 <= i < effective_size (wrap64 (nmemb * size)) ->
            load8 st1 (p + i) = 0.
Proof.
  intros Hok Hsmall.
  pose proof (wrap64_range (nmemb * size)) as Hn.
  set (n := wrap64 (nmemb * size)) in *.
  assert (Heq : rezzan_calloc nmemb size st = rezzan_malloc n st).
  { unfold rezzan_calloc. fold n. unfold bind at 1.
    destruct (rezzan_malloc n st) as [[p | | |] st1] eqn:Hrun; try reflexivity.
    destruct (rezzan_malloc_result st n p st1 Hok ltac:(lia) Hsmall Hrun)
      as (_ & Hlow & _ & _ & Hz).
    unfold bind, get.
    destruct (negb (p =? NULL) && option_checks (cfg st1)); [| reflexivity].
    rewrite any_nonzero_false; [reflexivity |].
    intros i Hi. rewrite Z2Nat.id in Hi by lia. apply Hz.
    unfold effective_size, ceil_div, sizeof_Token.
    destruct (Z.eqb_spec n 0); zdiv. }
  split; [exact Heq |].
  intros p st1 Hrun. rewrite Heq in Hrun.
  destruct (rezzan_malloc_result st n p st1 Hok ltac:(lia) Hsmall Hrun)
    as (_ & _ & _ & Hobj & Hz).
  split; [exact Hobj |].
  intros i Hi. apply Hz. unfold ceil_div, sizeof_Token. zdiv.
Qed.

Lemma rezzan_calloc_is_malloc_witness :
  rezzan_calloc (2 ^ 32) (2 ^ 32) st_A
  = rezzan_malloc (wrap64 (2 ^ 32 * 2 ^ 32)) st_A
  /\ forall p st1,
       rezzan_calloc (2 ^ 32) (2 ^ 32) st_A = (Ok p, st1) ->
       object_at st1 p (effective_size (wrap64 (2 ^ 32 * 2 ^ 32)))
         (ceil_div (effective_size (wrap64 (2 ^ 32 * 2 ^ 32)) + sizeof_Token)
            sizeof_Unit)
       /\ forall i, 0 <= i < effective_size (wrap64 (2 ^ 32 * 2 ^ 32)) ->
            load8 st1 (p + i) = 0.
Proof.
  apply (rezzan_calloc_is_malloc st_A (2 ^ 32) (2 ^ 32)).
  - exact st_A_heap_ok.
  - vm_compute. discriminate.
Defined.





(** X20: [rezzan_realloc], to at most 2^64 - 24 bytes, of a 16-byte
    aligned pointer into the allocated part of the pool whose first word is
    a token (the pointer of an object that has been freed, for one) never
    returns while requests are served from the pool: it takes the old size
    to be 0, allocates the new object, and the free it ends with reports
    the double free (SIGILL); if the pool cannot serve the request,
    [rezzan_malloc] ends in SIGILL before that. *)
Theorem rezzan_realloc_poisoned_traps st p new_size :
  heap_ok st ->
  p mod sizeof_Unit = 0 ->
  pool (cfg st) <= p < pool (cfg st) + sizeof_Unit * pool_ptr st ->
  is_poisoned st p = true ->
  0 <= new_size -> new_size + 24 <= 2 ^ 64 ->
  quarantine_usage st <= quarantine_size (cfg st) ->
  fst (rezzan_realloc p new_size st) = Sigill.
Proof.
  intros Hok Hal Hp Hpo Hns Hsmall Hq.
  pose proof (heap_cfg _ Hok) as Hc.
  pose proof (pool_low _ Hc) as Plow. pose proof (pool_high _ Hc) as Phigh.
  pose proof (heap_ptr _ Hok) as Hptr. pose proof (heap_mmap _ Hok) as Hmm.
  pose proof (malloc_size128_range new_size) as Hrange.
  pose proof (pool_aligned _ Hc) as Pal.
  unfold sizeof_Unit, PAGE_SIZE in *.
  unfold rezzan_realloc, sizeof_Unit, sizeof_Token.
  destruct (Z.eqb_spec p NULL) as [E | _]; [unfold NULL in E; lia |].
  unfold bind at 1, get. rewrite Hal. cbn [Z.eqb negb].
  destruct (Z.ltb_spec p (pool (cfg st))) as [E | _]; [lia |].
  destruct (Z.geb_spec p (pool (cfg st) + 16 * pool_size (cfg st)))
    as [E | _]; [lia |].
  cbn [orb].
  destruct (Z.to_nat ((pool (cfg st) + 16 * pool_mmap st - p) / 8))
    as [| fuel] eqn:Efuel.
  { exfalso.
    assert (1 <= (pool (cfg st) + 16 * pool_mmap st - p) / 8) by zdiv. lia. }
  cbn [count_words]. rewrite Hpo. cbv zeta.
  change (wrap64 (0 * 8)) with 0.
  assert (Ecs : (if 0 <? new_size then 0 else new_size) = 0)
    by (destruct (Z.ltb_spec 0 new_size); lia).
  rewrite Ecs. change (Z.to_nat 0) with 0%nat. cbn [copy_forward].
  destruct (Z_le_gt_dec (pool_ptr st + malloc_size128 new_size)
              (pool_size (cfg st))) as [Hfit | Hfull].
  - destruct (rezzan_malloc_pool_spec st new_size Hok Hns Hsmall Hq Hfit)
      as (st1 & Hrun1 & _ & _ & Hcfg1 & _ & _ & _ & _ & _ & _ & _ & Hout1 & _).
    unfold sizeof_Unit in *.
    rewrite (bind_ok _ _ _ _ _ Hrun1).
    destruct (Z.eqb_spec (pool (cfg st) + 16 * pool_ptr st) NULL) as [E | _];
      [unfold NULL in E; lia |].
    unfold bind at 1, ret at 1.
    assert (Hfree : rezzan_free p st1 = (Sigill, st1)).
    { unfold rezzan_free, sizeof_Unit.
      destruct (Z.eqb_spec p NULL) as [E | _]; [unfold NULL in E; lia |].
      unfold bind, get. rewrite Hal, Hcfg1. cbn [Z.eqb negb].
      destruct (Z.ltb_spec p (pool (cfg st))) as [E | _]; [lia |].
      destruct (Z.geb_spec p (pool (cfg st) + 16 * pool_size (cfg st)))
        as [E | _]; [lia |].
      cbn [orb].
      rewrite (is_poisoned_frame st st1) by (auto; apply Hout1; left; lia).
      rewrite Hpo. reflexivity. }
    rewrite (bind_trap _ _ _ _ Hfree). reflexivity.
  - unfold bind at 1.
    assert (Hfail : rezzan_malloc new_size st = (Sigill, set_errno ENOMEM st)).
    { rewrite rezzan_malloc_unfold. unfold bind at 1, get. unfold bind at 1.
      destruct (Z.gtb_spec (quarantine_usage st) (quarantine_size (cfg st)));
        [lia |].
      unfold ret at 1. cbn [negb Z.eqb NULL]. unfold bind.
      rewrite pool_malloc_full by lia. reflexivity. }
    rewrite Hfail. reflexivity.
Qed.

Lemma rezzan_realloc_poisoned_traps_witness :
  fst (rezzan_realloc p_A 30 st_A_freed) = Sigill.
Proof.
  apply (rezzan_realloc_poisoned_traps st_A_freed p_A 30).
  - exact st_A_freed_heap_ok.
  - reflexivity.
  - vm_compute. split; [discriminate | reflexivity].
  - reflexivity.
  - lia.
  - lia.
  - vm_compute. discriminate.
Defined.

(** ** The string functions *)

Lemma strnlen_loop_spec st s maxlen count : forall i,
  0 <= i <= maxlen -> maxlen <= i + Z.of_nat count ->
  i <= strnlen_loop st count s i maxlen <= maxlen
  /\ (forall j, i <= j < strnlen_loop st count s i maxlen ->
        load8 st (s + j) <> 0)
  /\ (strnlen_loop st count s i maxlen < maxlen ->
        load8 st (s + strnlen_loop st count s i maxlen) = 0).
Proof.
  induction count as [| c IH]; intros i Hi Hfuel; cbn [strnlen_loop].
  - repeat split; try lia.
  - destruct (Z.ltb_spec i maxlen) as [Hlt | Hge].
    + destruct (Z.eqb_spec (load8 st (s + i)) 0) as [E | E].
      * repeat split; lia.
      * destruct (IH (i + 1) ltac:(lia) ltac:(lia)) as (H1 & H2 & H3).
        split; [lia |]. split; [| exact H3].
        intros j Hj. destruct (Z.eq_dec j i) as [-> | Hne]; [exact E |].
        apply H2. lia.
    + repeat split; try lia.
Qed.

(** The length [strnlen] computes once its first word has passed the test:
    the index of the first zero byte among the first [maxlen] bytes, or
    [maxlen]. *)
Lemma strnlen_run st s maxlen :
  0 <= maxlen ->
  is_poisoned st (s - s mod 8) = false ->
  exists r,
    strnlen s maxlen st = (Ok r, st)
    /\ 0 <= r <= maxlen
    /\ (forall j, 0 <= j < r -> load8 st (s + j) <> 0)
    /\ (r < maxlen -> load8 st (s + r) = 0).
Proof.
  intros Hm Hpo. unfold strnlen, bind, get. rewrite land_m8, Hpo.
  exists (strnlen_loop st (Z.to_nat maxlen) s 0 maxlen).
  split; [reflexivity |].
  apply strnlen_loop_spec; [lia |]. rewrite Z2Nat.id; lia.
Qed.

(** X21: [strnlen] tests the word that holds its first byte and nothing
    else.  If that word is a token it ends in SIGILL, whatever [maxlen] is
    (zero included); otherwise it returns the index of the first zero byte
    among the first [maxlen] bytes, or [maxlen], reading through any token
    that lies further on, and changes nothing. *)
Theorem strnlen_first_word_only st s maxlen :
  0 <= maxlen ->
  (is_poisoned st (s - s mod 8) = true ->
   strnlen s maxlen st = (Sigill, st))
  /\ (is_poisoned st (s - s mod 8) = false ->
      exists r,
        strnlen s maxlen st = (Ok r, st)
        /\ 0 <= r <= maxlen
        /\ (forall j, 0 <= j < r -> load8 st (s + j) <> 0)
        /\ (r < maxlen -> load8 st (s + r) = 0)).
Proof.
  intros Hm. split.
  - intros Hpo. unfold strnlen, bind, get. rewrite land_m8, Hpo. reflexivity.
  - apply strnlen_run. exact Hm.
Qed.

Lemma strnlen_first_word_only_witness :
  (is_poisoned st_A (p_A + 9 - (p_A + 9) mod 8) = true ->
   strnlen (p_A + 9) 0 st_A = (Sigill, st_A))
  /\ (is_poisoned st_A (p_A + 9 - (p_A + 9) mod 8) = false ->
      exists r,
        strnlen (p_A + 9) 0 st_A = (Ok r, st_A)
        /\ 0 <= r <= 0
        /\ (forall j, 0 <= j < r -> load8 st_A (p_A + 9 + j) <> 0)
        /\ (r < 0 -> load8 st_A (p_A + 9 + r) = 0)).
Proof.
  apply (strnlen_first_word_only st_A (p_A + 9) 0). lia.
Defined.

Lemma byte_div w i :
  0 <= i -> Z.land (Z.shiftr w (8 * i)) 255 = (w / 2 ^ (8 * i)) mod 256.
Proof.
  intros Hi. change 255 with (Z.ones 8).
  rewrite Z.land_ones, Z.shiftr_div_pow2 by lia. reflexivity.
Qed.

(** The test of a longword in [strlen] fires on every longword with a zero
    byte. *)
Lemma haszero_fires w j :
  0 <= j < 8 ->
  (forall i, 0 <= i < j -> Z.land (Z.shiftr w (8 * i)) 255 <> 0) ->
  Z.land (Z.shiftr w (8 * j)) 255 = 0 ->
  Z.land (Z.land (wrap64 (w - lomagic)) (wrap64 (Z.lnot w))) himagic <> 0.
Proof.
  intros Hj Hlow Hzero Hres.
  assert (Hbit : Z.testbit
            (Z.land (Z.land (wrap64 (w - lomagic)) (wrap64 (Z.lnot w))) himagic)
            (8 * j + 7) = true).
  { rewrite !Z.land_spec. unfold wrap64.
    rewrite !Z.mod_pow2_bits_low by lia.
    rewrite Z.lnot_spec by lia.
    assert (Hw : Z.testbit w (8 * j + 7) = false).
    { assert (H7 : Z.testbit (Z.land (Z.shiftr w (8 * j)) 255) 7 = false)
        by (rewrite Hzero; apply Z.bits_0).
      rewrite Z.land_spec, Z.shiftr_spec in H7 by lia.
      replace (7 + 8 * j) with (8 * j + 7) in H7 by lia.
      change (Z.testbit 255 7) with true in H7.
      rewrite andb_true_r in H7. exact H7. }
    rewrite Hw. cbn [negb]. rewrite andb_true_r.
    assert (Hcases : j = 0 \/ j = 1 \/ j = 2 \/ j = 3 \/ j = 4 \/ j = 5
                     \/ j = 6 \/ j = 7) by lia.
    rewrite byte_div in Hzero by lia.
    assert (Hlow' : forall i, 0 <= i < j -> (w / 2 ^ (8 * i)) mod 256 <> 0).
    { intros i Hi. rewrite <- byte_div by lia. apply Hlow. exact Hi. }
    clear Hlow Hres Hw.
    apply andb_true_iff. split.
    - apply Z.testbit_true; [lia |].
      change lomagic with 72340172838076673.
      pose proof (fun H => Hlow' 0 (conj (Z.le_refl 0) H)) as B0.
      pose proof (fun H => Hlow' 1 (conj (Z.le_0_1) H)) as B1.
      pose proof (fun H => Hlow' 2 (conj (Zle_0_pos 2) H)) as B2.
      pose proof (fun H => Hlow' 3 (conj (Zle_0_pos 3) H)) as B3.
      pose proof (fun H => Hlow' 4 (conj (Zle_0_pos 4) H)) as B4.
      pose proof (fun H => Hlow' 5 (conj (Zle_0_pos 5) H)) as B5.
      pose proof (fun H => Hlow' 6 (conj (Zle_0_pos 6) H)) as B6.
      clear Hlow'.
      destruct Hcases as [-> | [-> | [-> | [-> | [-> | [-> | [-> | ->]]]]]]];
        cbn [Z.mul Pos.mul Z.add Pos.add Pos.succ Pos.add_carry] in *;
        repeat match goal with
               | B : ?a < ?b -> _ |- _ =>
                   first [ specialize (B ltac:(lia)) | clear B ]
               end;
        zdiv.
    - destruct Hcases as [-> | [-> | [-> | [-> | [-> | [-> | [-> | ->]]]]]]];
        reflexivity. }
  rewrite Hres in Hbit. rewrite Z.bits_0 in Hbit. discriminate Hbit.
Qed.

Lemma load8_in_word st lp t :
  lp mod 8 = 0 -> 0 <= t < 8 ->
  load8 st (lp + t) = Z.land (Z.shiftr (mem st lp) (8 * t)) 255.
Proof.
  intros Hlp Ht. unfold load8, sizeof_Token. cbv zeta.
  replace ((lp + t) mod 8) with t by zdiv.
  replace (lp + t - t) with lp by lia. reflexivity.
Qed.

Section FirstZero.

Variable st : state.
Variables str k : Z.
Hypothesis Hk : 0 <= k.
Hypothesis Hnonzero : forall j, 0 <= j < k -> load8 st (str + j) <> 0.
Hypothesis Hzero : load8 st (str + k) = 0.

Lemma strlen_head_spec : forall count cp,
  0 <= cp - str <= k -> (- cp) mod 8 < Z.of_nat count ->
  strlen_head st count str cp
  = if k - (cp - str) <? (- cp) mod 8 then inl k
    else inr (cp + (- cp) mod 8).
Proof.
  induction count as [| c IH]; intros cp Hcp Hfuel.
  - pose proof (Z.mod_pos_bound (- cp) 8 ltac:(lia)). lia.
  - cbn [strlen_head]. unfold sizeof_Token. change (8 - 1) with 7.
    rewrite land_7.
    destruct (Z.eqb_spec (cp mod 8) 0) as [Eal | Eal]; cbn [negb].
    + replace ((- cp) mod 8) with 0 by zdiv.
      destruct (Z.ltb_spec (k - (cp - str)) 0); [lia |].
      f_equal. lia.
    + assert (Hd : (- cp) mod 8 = 8 - cp mod 8) by zdiv.
      assert (Hd' : (- (cp + 1)) mod 8 = (- cp) mod 8 - 1) by zdiv.
      destruct (Z.eqb_spec (load8 st cp) 0) as [Ez | Ez].
      * assert (cp - str = k).
        { destruct (Z.eq_dec (cp - str) k) as [E | E]; [exact E |].
          exfalso. apply (Hnonzero (cp - str)); [lia |].
          replace (str + (cp - str)) with cp by lia. exact Ez. }
        destruct (Z.ltb_spec (k - (cp - str)) ((- cp) mod 8)); [| zdiv].
        f_equal. lia.
      * assert (cp - str <> k).
        { intros E. apply Ez. replace cp with (str + k) by lia. exact Hzero. }
        rewrite IH by lia. rewrite Hd'.
        replace (k - (cp + 1 - str)) with (k - (cp - str) - 1) by lia.
        destruct (Z.ltb_spec (k - (cp - str) - 1) ((- cp) mod 8 - 1));
          destruct (Z.ltb_spec (k - (cp - str)) ((- cp) mod 8));
          try lia; try reflexivity.
        f_equal. lia.
Qed.

Lemma strlen_words_spec : forall n fuel lp,
  lp mod 8 = 0 -> 0 <= lp - str <= k ->
  (k - (lp - str)) / 8 = Z.of_nat n -> (n < fuel)%nat ->
  strlen_words st fuel str lp = Some k.
Proof.
  induction n as [| n IH]; intros fuel lp Hal Hlp Hn Hfuel;
    (destruct fuel as [| fuel]; [lia |]); cbn [strlen_words];
    unfold sizeof_Token; cbv zeta;
    replace (lp + 8 - 8) with lp by lia.
  - (* the longword with the terminator *)
    set (j := k - (lp - str)).
    assert (Hj : 0 <= j < 8) by (unfold j; zdiv).
    assert (Hbj : load8 st (lp + j) = 0).
    { replace (lp + j) with (str + k) by (unfold j; lia). exact Hzero. }
    assert (Hbt : forall t, 0 <= t < j -> load8 st (lp + t) <> 0).
    { intros t Ht. replace (lp + t) with (str + (lp - str + t)) by lia.
      apply Hnonzero. unfold j in *. lia. }
    assert (Hfire : Z.land (Z.land (wrap64 (mem st lp - lomagic))
                              (wrap64 (Z.lnot (mem st lp)))) himagic <> 0).
    { apply (haszero_fires (mem st lp) j Hj).
      - intros i Hi. rewrite <- load8_in_word by (assumption || lia).
        apply Hbt. exact Hi.
      - rewrite <- load8_in_word by (assumption || lia). exact Hbj. }
    destruct (Z.eqb_spec
                (Z.land (Z.land (wrap64 (mem st lp - lomagic))
                           (wrap64 (Z.lnot (mem st lp)))) himagic) 0)
      as [E | _]; [contradiction |].
    cbn [negb].
    assert (Ek : k = lp - str + j) by (unfold j; lia).
    replace (load8 st lp) with (load8 st (lp + 0))
      by (rewrite Z.add_0_r; reflexivity).
    clearbody j. clear Hfire Hlp Hn.
    assert (Hc : j = 0 \/ j = 1 \/ j = 2 \/ j = 3 \/ j = 4 \/ j = 5
                 \/ j = 6 \/ j = 7) by lia.
    destruct Hc as [-> | [-> | [-> | [-> | [-> | [-> | [-> | ->]]]]]]];
      repeat match goal with
             | |- context [load8 st (lp + ?t) =? 0] =>
                 first [ rewrite (proj2 (Z.eqb_neq _ _) (Hbt t ltac:(lia)))
                       | rewrite Hbj; cbn [Z.eqb] ]
             end;
      f_equal; lia.
  - (* a longword before the terminator *)
    assert (Hfar : 8 <= k - (lp - str)) by zdiv.
    assert (Hb : forall t, 0 <= t < 8 -> (load8 st (lp + t) =? 0) = false).
    { intros t Ht. apply Z.eqb_neq.
      replace (lp + t) with (str + (lp - str + t)) by lia.
      apply Hnonzero. lia. }
    pose proof (Hb 0 ltac:(lia)) as B0. rewrite Z.add_0_r in B0.
    rewrite B0, !Hb by lia.
    assert (Hnext : strlen_words st fuel str (lp + 8) = Some k).
    { apply IH; try lia; zdiv. }
    rewrite Hnext.
    destruct (negb _); reflexivity.
Qed.

(** [strlen] returns the index of the first zero byte. *)
Lemma strlen_run :
  0 <= str -> str + k + 8 <= 2 ^ 64 ->
  is_poisoned st (str - str mod 8) = false ->
  strlen str st = (Ok k, st).
Proof.
  intros Hs Hhi Hpo. unfold strlen, bind, get. rewrite land_m8, Hpo.
  rewrite strlen_head_spec.
  2:{ lia. }
  2:{ unfold sizeof_Token. change (Z.of_nat (Z.to_nat 8)) with 8. zdiv. }
  replace (str - str) with 0 by lia. rewrite Z.sub_0_r.
  destruct (Z.ltb_spec k ((- str) mod 8)) as [Hlt | Hge]; [reflexivity |].
  set (lp := str + (- str) mod 8).
  assert (Hlp : lp mod 8 = 0 /\ str <= lp < str + 8) by (unfold lp; zdiv).
  rewrite (strlen_words_spec (Z.to_nat ((k - (lp - str)) / 8))).
  - reflexivity.
  - apply Hlp.
  - unfold lp. lia.
  - rewrite Z2Nat.id; [reflexivity |]. apply Z.div_pos; unfold lp; lia.
  - unfold sizeof_Token. apply Z2Nat.inj_lt.
    + apply Z.div_pos; unfold lp; lia.
    + apply Z.div_pos; lia.
    + clearbody lp. zdiv.
Qed.

End FirstZero.

(** X22: [strlen] tests the word that holds its first byte and nothing
    else.  If that word is a token it ends in SIGILL; otherwise it returns
    the index of the first zero byte of the string, found a longword at a
    time and through any token that lies before it, and changes nothing. *)
Theorem strlen_first_zero st str k :
  0 <= str -> 0 <= k -> str + k + 8 <= 2 ^ 64 ->
  (forall j, 0 <= j < k -> load8 st (str + j) <> 0) ->
  load8 st (str + k) = 0 ->
  strlen str st
  = if is_poisoned st (str - str mod 8) then (Sigill, st) else (Ok k, st).
Proof.
  intros Hs Hk Hhi Hnonzero Hzero.
  destruct (is_poisoned st (str - str mod 8)) eqn:Hpo.
  - unfold strlen, bind, get. rewrite land_m8, Hpo. reflexivity.
  - apply strlen_run; assumption.
Qed.

Lemma st_str_bytes :
  (forall j, 0 <= j < 2 -> load8 st_str (p_B + j) <> 0)
  /\ load8 st_str (p_B + 2) = 0.
Proof.
  split; [| vm_compute; reflexivity].
  intros j Hj. assert (Hc : j = 0 \/ j = 1) by lia.
  destruct Hc as [-> | ->]; vm_compute; discriminate.
Qed.

Lemma strlen_first_zero_witness :
  strlen p_B st_str
  = if is_poisoned st_str (p_B - p_B mod 8) then (Sigill, st_str)
    else (Ok 2, st_str).
Proof.
  apply (strlen_first_zero st_str p_B 2).
  - vm_compute. discriminate.
  - lia.
  - vm_compute. discriminate.
  - exact (proj1 st_str_bytes).
  - exact (proj2 st_str_bytes).
Defined.

(** A byte inside the user bytes of a live object lies in a word that is
    no token. *)
Lemma object_byte_word st p size units a :
  object_at st p size units -> p <= a < p + size ->
  is_poisoned st (a - a mod 8) = false.
Proof.
  intros [Hsize Hunits Hal Hlow Hhigh Hmm Hbase Huser Hred] Ha.
  replace (a - a mod 8) with (word_at p ((a - p) / 8))
    by (unfold word_at, sizeof_Token, sizeof_Unit in *; zdiv).
  apply Huser. unfold ceil_div. zdiv.
Qed.

(** [strcpy] to an offset inside a live object, from a string inside
    another one. *)
Lemma strcpy_at_offset st p size units q qsize qunits src k off :
  config_ok (cfg st) ->
  object_at st p size units -> object_at st q qsize qunits ->
  p + sizeof_Unit * units <= q \/ q + sizeof_Unit * qunits <= p ->
  q <= src -> src + k + 1 <= q + qsize ->
  0 <= k -> 0 <= off <= size -> off + k + 16 < 2 ^ 31 ->
  p + off + k + 9 < 2 ^ 64 ->
  (forall j, 0 <= j < k -> load8 st (src + j) <> 0) ->
  load8 st (src + k) = 0 ->
  (off + k + 1 <= size ->
   exists st',
     strcpy (p + off) src st = (Ok (p + off), st')
     /\ cfg st' = cfg st
     /\ (forall i, 0 <= i <= k ->
           load8 st' (p + off + i) = load8 st (src + i))
     /\ (forall a, a < p + off \/ p + off + k + 1 <= a ->
           load8 st' a = load8 st a))
  /\ (sizeof_Token * ceil_div size 8 < off + k + 1 ->
      strcpy (p + off) src st = (Sigill, st)).
Proof.
  intros Hc Hobj Hsrc Hdisj Hq1 Hq2 Hk Hoff Hsmall Hp64 Hnonzero Hzero.
  pose proof (pool_low _ Hc) as Plow. pose proof (pool_high _ Hc) as Phigh.
  pose proof Hobj as [Hsize Hunits Hal Hlow Hhigh Hmm Hbase Huser Hred].
  pose proof Hsrc as [Hqsize Hqunits Hqal Hqlow Hqhigh _ _ _ _].
  assert (Hu1 : size <= 8 * ceil_div size 8 /\ 8 * ceil_div size 8 + 8 <= 16 * units)
    by (subst units; unfold ceil_div, sizeof_Token, sizeof_Unit; zdiv).
  assert (Hqu1 : qsize + 8 <= 16 * qunits)
    by (subst qunits; unfold ceil_div, sizeof_Token, sizeof_Unit; zdiv).
  unfold sizeof_Unit, sizeof_Token, PAGE_SIZE in *.
  assert (Hlen : strlen src st = (Ok k, st)).
  { apply strlen_run; try assumption; try lia.
    apply (object_byte_word st q qsize qunits); [exact Hsrc | lia]. }
  assert (Hw : wrap64 (k + 1) = k + 1) by (apply wrap64_small; lia).
  assert (Hsc : check_poisoned src (k + 1) st = (Ok tt, st)).
  { apply (check_poisoned_inside st q qsize qunits); try assumption; lia. }
  unfold strcpy. rewrite (bind_ok _ _ _ _ _ Hlen), Hw.
  split.
  - intros Hfit.
    assert (Hdc : check_poisoned (p + off) (k + 1) st = (Ok tt, st)).
    { apply (check_poisoned_inside st p size units); try assumption; lia. }
    destruct (copy_forward_spec (Z.to_nat (k + 1)) (p + off) src st)
      as (m' & Hrun & Hcopy & Hframe & _).
    { rewrite Z2Nat.id by lia. lia. }
    rewrite Z2Nat.id in Hcopy, Hframe by lia.
    exists (set_mem m' st). split; [| split; [reflexivity | split]].
    + unfold memcpy. rewrite (bind_ok _ _ _ _ _ Hdc), (bind_ok _ _ _ _ _ Hsc).
      rewrite (bind_ok _ _ _ _ _ Hrun). reflexivity.
    + intros i Hi. apply Hcopy. lia.
    + intros a Ha. apply Hframe. lia.
  - intros Hlong.
    apply (memcpy_memmove_trap st (p + off) src (k + 1)
             (p + 8 * ceil_div size 8)); try lia.
    + zdiv.
    + rewrite is_poisoned_word.
      replace (p + 8 * ceil_div size 8) with (word_at p (ceil_div size 8))
        by (unfold word_at, sizeof_Token; lia).
      rewrite Hred by lia. apply word_poisoned_poison_word. exact Hc.
Qed.

(** X23: [strcpy] between two live objects.  With the string (its
    terminator included) inside the source object: if it fits the
    destination object, [strcpy] returns [dest] with the [k + 1] bytes
    copied and nothing else changed; if it is longer than the destination
    rounded up to a multiple of 8, [strcpy] ends in SIGILL before a byte is
    stored. *)
Theorem strcpy_into_object st p size units q qsize qunits src k :
  config_ok (cfg st) ->
  object_at st p size units -> object_at st q qsize qunits ->
  p + sizeof_Unit * units <= q \/ q + sizeof_Unit * qunits <= p ->
  q <= src -> src + k + 1 <= q + qsize ->
  0 <= k -> k + 16 < 2 ^ 31 -> p + k + 9 < 2 ^ 64 ->
  (forall j, 0 <= j < k -> load8 st (src + j) <> 0) ->
  load8 st (src + k) = 0 ->
  (k + 1 <= size ->
   exists st',
     strcpy p src st = (Ok p, st')
     /\ cfg st' = cfg st
     /\ (forall i, 0 <= i <= k -> load8 st' (p + i) = load8 st (src + i))
     /\ (forall a, a < p \/ p + k + 1 <= a -> load8 st' a = load8 st a))
  /\ (sizeof_Token * ceil_div size 8 < k + 1 ->
      strcpy p src st = (Sigill, st)).
Proof.
  intros Hc Hobj Hsrc Hdisj Hq1 Hq2 Hk Hsmall Hp64 Hnonzero Hzero.
  pose proof (obj_size _ _ _ _ Hobj) as Hsize.
  pose proof (strcpy_at_offset st p size units q qsize qunits src k 0
                Hc Hobj Hsrc Hdisj Hq1 Hq2 Hk ltac:(lia) ltac:(lia)
                ltac:(lia) Hnonzero Hzero) as H.
  rewrite Z.add_0_r in H. cbn [Z.add] in H. exact H.
Qed.

(** X24: [strcat] between two live objects.  With a string of [len] bytes
    in the destination object and a string of [k] bytes inside the source
    object: if [len + k + 1] bytes fit the destination, [strcat] returns
    [dest] with the source string, its terminator included, copied behind
    the destination string and nothing else changed; if they exceed the
    destination rounded up to a multiple of 8, it ends in SIGILL before a
    byte is stored. *)
Theorem strcat_into_object st p size units q qsize qunits src len k :
  config_ok (cfg st) ->
  object_at st p size units -> object_at st q qsize qunits ->
  p + sizeof_Unit * units <= q \/ q + sizeof_Unit * qunits <= p ->
  0 <= len < size ->
  (forall j, 0 <= j < len -> load8 st (p + j) <> 0) ->
  load8 st (p + len) = 0 ->
  q <= src -> src + k + 1 <= q + qsize ->
  0 <= k -> len + k + 16 < 2 ^ 31 -> p + len + k + 9 < 2 ^ 64 ->
  (forall j, 0 <= j < k -> load8 st (src + j) <> 0) ->
  load8 st (src + k) = 0 ->
  (len + k + 1 <= size ->
   exists st',
     strcat p src st = (Ok p, st')
     /\ cfg st' = cfg st
     /\ (forall i, 0 <= i <= k ->
           load8 st' (p + len + i) = load8 st (src + i))
     /\ (forall a, a < p + len \/ p + len + k + 1 <= a ->
           load8 st' a = load8 st a))
  /\ (sizeof_Token * ceil_div size 8 < len + k + 1 ->
      strcat p src st = (Sigill, st)).
Proof.
  intros Hc Hobj Hsrc Hdisj Hlen Hnz1 Hz1 Hq1 Hq2 Hk Hsmall Hp64 Hnonzero
    Hzero.
  pose proof (pool_low _ Hc) as Plow. pose proof (pool_high _ Hc) as Phigh.
  pose proof (obj_low _ _ _ _ Hobj) as Hlow.
  unfold sizeof_Unit, PAGE_SIZE in Plow, Phigh, Hlow.
  assert (Hrun1 : strlen p st = (Ok len, st)).
  { apply strlen_run; try assumption; try lia.
    apply (object_byte_word st p size units); [exact Hobj | lia]. }
  destruct (strcpy_at_offset st p size units q qsize qunits src k len
              Hc Hobj Hsrc Hdisj Hq1 Hq2 Hk ltac:(lia) Hsmall Hp64
              Hnonzero Hzero) as [Hfit Hlong].
  unfold strcat. rewrite (bind_ok _ _ _ _ _ Hrun1).
  split.
  - intros H. destruct (Hfit H) as (st' & Hrun & Hcfg & Hcopy & Hframe).
    exists st'. rewrite (bind_ok _ _ _ _ _ Hrun). auto.
  - intros H. rewrite (bind_trap _ _ _ _ (Hlong H)). reflexivity.
Qed.

Lemma st_str_config : config_ok (cfg st_str).
Proof. exact st_A_config. Qed.

Lemma st_str_object_A : object_at st_str p_A 5 1.
Proof.
  constructor.
  - lia.
  - reflexivity.
  - reflexivity.
  - vm_compute. discriminate.
  - vm_compute. discriminate.
  - vm_compute. discriminate.
  - vm_compute. reflexivity.
  - intros k Hk. assert (Hc : k = 0) by (change (ceil_div 5 8) with 1 in Hk; lia).
    subst k. vm_compute. reflexivity.
  - intros k Hk. assert (Hc : k = 1) by (change (ceil_div 5 8) with 1 in Hk; lia).
    subst k. vm_compute. reflexivity.
Qed.

Lemma st_str_object_B : object_at st_str p_B 24 2.
Proof.
  constructor.
  - lia.
  - reflexivity.
  - reflexivity.
  - vm_compute. discriminate.
  - vm_compute. discriminate.
  - vm_compute. discriminate.
  - vm_compute. reflexivity.
  - intros k Hk.
    assert (Hc : k = 0 \/ k = 1 \/ k = 2)
      by (change (ceil_div 24 8) with 3 in Hk; lia).
    destruct Hc as [-> | [-> | ->]]; vm_compute; reflexivity.
  - intros k Hk. assert (Hc : k = 3) by (change (ceil_div 24 8) with 3 in Hk; lia).
    subst k. vm_compute. reflexivity.
Qed.

Lemma strcpy_into_object_witness :
  (2 + 1 <= 5 ->
   exists st',
     strcpy p_A p_B st_str = (Ok p_A, st')
     /\ cfg st' = cfg st_str
     /\ (forall i, 0 <= i <= 2 -> load8 st' (p_A + i) = load8 st_str (p_B + i))
     /\ (forall a, a < p_A \/ p_A + 2 + 1 <= a ->
           load8 st' a = load8 st_str a))
  /\ (sizeof_Token * ceil_div 5 8 < 2 + 1 ->
      strcpy p_A p_B st_str = (Sigill, st_str)).
Proof.
  apply (strcpy_into_object st_str p_A 5 1 p_B 24 2 p_B 2).
  - exact st_str_config.
  - exact st_str_object_A.
  - exact st_str_object_B.
  - left. vm_compute. discriminate.
  - lia.
  - lia.
  - lia.
  - lia.
  - vm_compute. reflexivity.
  - exact (proj1 st_str_bytes).
  - exact (proj2 st_str_bytes).
Defined.

(** X25: [strncpy] copies one byte too many when the source has no zero
    byte among its first [n] bytes: the call is then [memcpy] of [n + 1]
    bytes.  Where both windows pass the check, byte [n] of the destination
    is overwritten with byte [n] of the source; and a destination object of
    exactly [n] bytes, [n] a multiple of 8, makes the call end in SIGILL. *)
Theorem strncpy_copies_one_more st s1 s2 n :
  0 <= n -> n + 1 < 2 ^ 64 ->
  is_poisoned st (s2 - s2 mod 8) = false ->
  (forall j, 0 <= j < n -> load8 st (s2 + j) <> 0) ->
  strncpy s1 s2 n st = memcpy s1 s2 (n + 1) st
  /\ (check_poisoned s1 (n + 1) st = (Ok tt, st) ->
      check_poisoned s2 (n + 1) st = (Ok tt, st) ->
      s1 <= s2 \/ s2 + n + 1 <= s1 ->
      exists st',
        strncpy s1 s2 n st = (Ok s1, st')
        /\ load8 st' (s1 + n) = load8 st (s2 + n))
  /\ (forall units,
        config_ok (cfg st) -> object_at st s1 n units -> n mod 8 = 0 ->
        n + 16 < 2 ^ 31 -> s1 + n + 9 < 2 ^ 64 ->
        0 <= s2 -> s2 + n + 9 < 2 ^ 64 ->
        strncpy s1 s2 n st = (Sigill, st)).
Proof.
  intros Hn Hn64 Hpo Hnonzero.
  assert (Heq : strncpy s1 s2 n st = memcpy s1 s2 (n + 1) st).
  { destruct (strnlen_run st s2 n Hn Hpo) as (r & Hrun & Hr & Hnz & Hz).
    assert (r = n).
    { destruct (Z.eq_dec r n) as [E | E]; [exact E | exfalso].
      apply (Hnonzero r); [lia |]. apply Hz. lia. }
    subst r. unfold strncpy. rewrite (bind_ok _ _ _ _ _ Hrun).
    rewrite Z.eqb_refl. cbn [negb]. unfold bind at 1, ret at 1.
    rewrite wrap64_small by lia. reflexivity. }
  split; [exact Heq |]. split.
  - intros Hd Hs Hdir.
    destruct (copy_forward_spec (Z.to_nat (n + 1)) s1 s2 st)
      as (m' & Hrun & Hcopy & _).
    { rewrite Z2Nat.id by lia. lia. }
    rewrite Z2Nat.id in Hcopy by lia.
    exists (set_mem m' st). split; [| apply Hcopy; lia].
    rewrite Heq. unfold memcpy.
    rewrite (bind_ok _ _ _ _ _ Hd), (bind_ok _ _ _ _ _ Hs).
    rewrite (bind_ok _ _ _ _ _ Hrun). reflexivity.
  - intros units Hc Hobj Hmod Hsmall Hs164 Hs2 Hs64. rewrite Heq.
    pose proof (pool_low _ Hc) as Plow. pose proof (pool_high _ Hc) as Phigh.
    destruct Hobj as [Hsize Hunits Hal Hlow Hhigh Hmm Hbase Huser Hred].
    assert (Hu : ceil_div n 8 = n / 8 /\ 8 * (n / 8) = n
                 /\ n + 8 <= 16 * units)
      by (subst units; unfold ceil_div, sizeof_Token, sizeof_Unit; zdiv).
    destruct Hu as (Eu & En & Hu).
    unfold sizeof_Unit, sizeof_Token, PAGE_SIZE in *.
    apply (memcpy_memmove_trap st s1 s2 (n + 1) (s1 + n)); try lia.
    + zdiv.
    + replace (s1 + n) with (word_at s1 (n / 8))
        by (unfold word_at, sizeof_Token; lia).
      rewrite is_poisoned_word, Hred by lia.
      apply word_poisoned_poison_word. exact Hc.
Qed.

Lemma strncpy_copies_one_more_witness :
  strncpy p_A p_B 2 st_str = memcpy p_A p_B (2 + 1) st_str
  /\ (check_poisoned p_A (2 + 1) st_str = (Ok tt, st_str) ->
      check_poisoned p_B (2 + 1) st_str = (Ok tt, st_str) ->
      p_A <= p_B \/ p_B + 2 + 1 <= p_A ->
      exists st',
        strncpy p_A p_B 2 st_str = (Ok p_A, st')
        /\ load8 st' (p_A + 2) = load8 st_str (p_B + 2))
  /\ (forall units,
        config_ok (cfg st_str) -> object_at st_str p_A 2 units ->
        2 mod 8 = 0 ->
        2 + 16 < 2 ^ 31 -> p_A + 2 + 9 < 2 ^ 64 ->
        0 <= p_B -> p_B + 2 + 9 < 2 ^ 64 ->
        strncpy p_A p_B 2 st_str = (Sigill, st_str)).
Proof.
  apply (strncpy_copies_one_more st_str p_A p_B 2).
  - lia.
  - lia.
  - vm_compute. reflexivity.
  - exact (proj1 st_str_bytes).
Defined.

(** *** strncat *)

Lemma land_m256 x : Z.land x (Z.lnot 255) = x - x mod 256.
Proof.
  change 255 with (Z.ones 8).
  rewrite <- Z.ldiff_land, Z.ldiff_ones_r by lia.
  rewrite Z.shiftr_div_pow2, Z.shiftl_mul_pow2 by lia.
  change (2 ^ 8) with 256. pose proof (Z.div_mod x 256). lia.
Qed.

(** A zero stored into the low byte of a token leaves no token, unless the
    low byte of the nonce is zero. *)
Lemma token_low_byte_cleared c size :
  config_ok c -> size mod 8 = 0 -> nonce c mod 256 <> 0 ->
  word_poisoned c (poison_word c size - poison_word c size mod 256) = false.
Proof.
  intros Hc Hsize Hn.
  pose proof (nonce_range _ Hc) as Hr.
  assert (Hw : poison_word c size = 2 ^ 64 - nonce c).
  { destruct (mode_ok _ Hc) as [E | E].
    - rewrite poison_word_61 by assumption. lia.
    - unfold poison_word. rewrite E. cbn [Z.eqb Pos.eqb].
      apply wrap64_neg. exact Hr. }
  rewrite Hw. set (w := 2 ^ 64 - nonce c).
  assert (Hlow : 0 < w mod 256 < 256) by (unfold w; zdiv).
  unfold word_poisoned.
  destruct (mode_ok _ Hc) as [E | E]; rewrite E; cbn [Z.eqb Pos.eqb].
  - rewrite land_m8.
    replace ((w - w mod 256) mod 8) with 0 by zdiv.
    apply Z.eqb_neq. rewrite wrap64_small by (unfold w in *; lia).
    unfold w in *. lia.
  - apply Z.eqb_neq. rewrite wrap64_small by (unfold w in *; lia).
    unfold w in *. lia.
Qed.

(** The bytes and words the forward loop leaves alone, whatever the
    ranges. *)
Lemma copy_forward_frame count : forall dst src st,
  exists m',
    copy_forward count dst src st = (Ok tt, set_mem m' st)
    /\ (forall w, w + sizeof_Token <= dst \/ dst + Z.of_nat count <= w
                  \/ w mod sizeof_Token <> 0 ->
          m' w = mem st w).
Proof.
  induction count as [| c IH]; intros dst src st.
  - exists (mem st). cbn [copy_forward]. unfold ret.
    rewrite set_mem_same. split; reflexivity.
  - cbn [copy_forward]. unfold bind at 1, get. unfold bind at 1.
    rewrite store8_run.
    set (st1 := set_mem (stored8 (mem st) dst (load8 st src)) st).
    destruct (IH (dst + 1) (src + 1) st1) as (m' & Hrun & Hwords).
    exists m'. change (set_mem m' st1) with (set_mem m' st) in *.
    split; [exact Hrun |].
    intros w Hw. rewrite Hwords by lia.
    unfold st1. cbn [mem set_mem]. apply stored8_other_word.
    unfold sizeof_Token in *. zdiv.
Qed.

(** A window over words that hold no token passes the check when it ends
    on a word boundary. *)
Lemma check_poisoned_aligned_end st a n :
  0 <= a -> 0 <= n -> n + 15 < 2 ^ 31 -> a + n + 8 < 2 ^ 64 ->
  (a + n) mod 8 = 0 ->
  (forall w, w mod 8 = 0 -> a - 7 <= w < a + n ->
     is_poisoned st w = false) ->
  check_poisoned a n st = (Ok tt, st).
Proof.
  intros Ha Hn Hsmall Hhi Hend Hclean.
  rewrite check_poisoned_run by lia. cbv zeta.
  rewrite any_poisoned_false.
  - unfold tail_traps.
    replace ((n + a mod 8) mod 8) with 0 by zdiv. reflexivity.
  - intros j Hj.
    assert (Hc : 0 <= (n + a mod 8 + 7) / 8) by zdiv.
    rewrite Z2Nat.id in Hj by exact Hc.
    apply Hclean; unfold word_at, sizeof_Token; zdiv.
Qed.

Lemma stored8_zero_aligned m a :
  a mod 8 = 0 -> stored8 m a 0 a = m a - m a mod 256.
Proof.
  intros Ha. unfold stored8, upd, sizeof_Token. cbv zeta. rewrite Ha.
  rewrite Z.sub_0_r, Z.eqb_refl.
  change (8 * 0) with 0. rewrite !Z.shiftl_0_r, Z.lor_0_r.
  apply land_m256.
Qed.

(** X26: [strncat] stores the terminator before any window is checked.
    When the string in a destination object of [size] bytes, [size] a
    multiple of 8, and the bytes taken from the source fill the object
    exactly, the terminator falls on the first byte of the redzone: the
    call returns [dest] as if nothing had happened, and the word after the
    object, a token before the call, is no token after it (for a nonce
    whose low byte is not zero). *)
Theorem strncat_clears_token st p size units q qsize qunits s2 n len ss :
  config_ok (cfg st) -> nonce (cfg st) mod 256 <> 0 ->
  object_at st p size units -> size mod 8 = 0 ->
  object_at st q qsize qunits ->
  p + sizeof_Unit * units < q \/ q + sizeof_Unit * qunits <= p ->
  0 <= len ->
  (forall j, 0 <= j < len -> load8 st (p + j) <> 0) ->
  load8 st (p + len) = 0 ->
  q <= s2 -> s2 + ss <= q + qsize -> 1 <= ss <= n ->
  (forall j, 0 <= j < ss -> load8 st (s2 + j) <> 0) ->
  (ss < n -> load8 st (s2 + ss) = 0) ->
  len + ss = size -> size + 16 < 2 ^ 31 ->
  exists st',
    strncat p s2 n st = (Ok p, st')
    /\ is_poisoned st (p + size) = true
    /\ is_poisoned st' (p + size) = false.
Proof.
  intros Hc Hnonce Hobj Hmod Hsrc Hdisj Hlen Hnz1 Hz1 Hq1 Hq2 Hss Hnz2 Hz2
    Hfill Hsmall.
  pose proof (pool_low _ Hc) as Plow. pose proof (pool_high _ Hc) as Phigh.
  pose proof Hobj as [Hsize Hunits Hal Hlow Hhigh Hmm Hbase Huser Hred].
  pose proof Hsrc as [Hqsize Hqunits Hqal Hqlow Hqhigh _ _ _ _].
  assert (Hu : ceil_div size 8 = size / 8 /\ 8 * (size / 8) = size
               /\ size + 8 <= 16 * units)
    by (subst units; unfold ceil_div, sizeof_Token, sizeof_Unit; zdiv).
  destruct Hu as (Eu & En & Hu).
  assert (Hqu : qsize + 8 <= 16 * qunits)
    by (subst qunits; unfold ceil_div, sizeof_Token, sizeof_Unit; zdiv).
  unfold sizeof_Unit, sizeof_Token, PAGE_SIZE in *.
  assert (Ht8 : (p + size) mod 8 = 0) by zdiv.
  assert (Htok : mem st (p + size) = poison_word (cfg st) size).
  { replace (p + size) with (word_at p (size / 8))
      by (unfold word_at, sizeof_Token; lia).
    apply Hred. lia. }
  (* the two lengths *)
  assert (Hrun1 : strlen p st = (Ok len, st)).
  { apply strlen_run; try assumption; try lia.
    apply (object_byte_word st p size units); [exact Hobj | lia]. }
  assert (Hrun2 : strnlen s2 n st = (Ok ss, st)).
  { destruct (strnlen_run st s2 n ltac:(lia)) as (r & Hrun & Hr & Hnz & Hz).
    { apply (object_byte_word st q qsize qunits); [exact Hsrc | lia]. }
    assert (r = ss); [| subst r; exact Hrun].
    destruct (Z.lt_trichotomy r ss) as [H | [H | H]]; [| exact H |]; exfalso.
    - apply (Hnz2 r); [lia |]. apply Hz. lia.
    - apply (Hnz ss); [lia |]. apply Hz2. lia. }
  (* the store of the terminator *)
  set (st1 := set_mem (stored8 (mem st) (p + size) 0) st).
  assert (Hst1 : forall w, w <> p + size -> mem st1 w = mem st w).
  { intros w Hw. unfold st1. cbn [mem set_mem]. apply stored8_other_word.
    unfold sizeof_Token. rewrite Ht8. lia. }
  (* the two window checks, after the store *)
  assert (Hdc : check_poisoned (p + len) ss st1 = (Ok tt, st1)).
  { apply check_poisoned_aligned_end; try lia.
    - replace (p + len + ss) with (p + size) by lia. exact Ht8.
    - intros w Hw1 Hw2.
      rewrite (is_poisoned_frame st st1) by (auto; apply Hst1; lia).
      replace w with (word_at p ((w - p) / 8))
        by (unfold word_at, sizeof_Token; zdiv).
      apply Huser. rewrite Eu. zdiv. }
  assert (Hsc : check_poisoned s2 ss st1 = (Ok tt, st1)).
  { apply (check_poisoned_inside st1 q qsize qunits); try assumption; try lia.
    apply (object_at_frame st st1 q qsize qunits Hsrc); [reflexivity | |].
    - unfold st1. cbn [pool_mmap set_mem]. lia.
    - intros k Hk. apply Hst1. unfold word_at, sizeof_Token. lia. }
  destruct (copy_forward_frame (Z.to_nat ss) (p + len) s2 st1)
    as (m2 & Hrun3 & Hwords).
  rewrite Z2Nat.id in Hwords by lia.
  exists (set_mem m2 st1). split; [| split].
  - unfold strncat. rewrite (bind_ok _ _ _ _ _ Hrun1).
    rewrite (bind_ok _ _ _ _ _ Hrun2).
    replace (p + len + ss) with (p + size) by lia.
    rewrite (bind_ok _ _ _ _ _ (store8_run (p + size) 0 st)). fold st1.
    assert (Hm : memcpy (p + len) s2 ss st1 = (Ok (p + len), set_mem m2 st1)).
    { unfold memcpy.
      rewrite (bind_ok _ _ _ _ _ Hdc), (bind_ok _ _ _ _ _ Hsc).
      rewrite (bind_ok _ _ _ _ _ Hrun3). reflexivity. }
    rewrite (bind_ok _ _ _ _ _ Hm). reflexivity.
  - rewrite is_poisoned_word, Htok. apply word_poisoned_poison_word. exact Hc.
  - rewrite is_poisoned_word. cbn [mem cfg set_mem].
    rewrite Hwords by (unfold sizeof_Token; lia).
    unfold st1. cbn [mem cfg set_mem].
    rewrite stored8_zero_aligned by exact Ht8. rewrite Htok.
    apply token_low_byte_cleared; assumption.
Qed.

Lemma st_cat_object_p : object_at st_cat p_cat 8 1.
Proof.
  constructor.
  - lia.
  - reflexivity.
  - reflexivity.
  - vm_compute. discriminate.
  - vm_compute. discriminate.
  - vm_compute. discriminate.
  - vm_compute. reflexivity.
  - intros k Hk. assert (Hc : k = 0) by (change (ceil_div 8 8) with 1 in Hk; lia).
    subst k. vm_compute. reflexivity.
  - intros k Hk. assert (Hc : k = 1) by (change (ceil_div 8 8) with 1 in Hk; lia).
    subst k. vm_compute. reflexivity.
Qed.

Lemma st_cat_object_q : object_at st_cat q_cat 24 2.
Proof.
  constructor.
  - lia.
  - reflexivity.
  - reflexivity.
  - vm_compute. discriminate.
  - vm_compute. discriminate.
  - vm_compute. discriminate.
  - vm_compute. reflexivity.
  - intros k Hk.
    assert (Hc : k = 0 \/ k = 1 \/ k = 2)
      by (change (ceil_div 24 8) with 3 in Hk; lia).
    destruct Hc as [-> | [-> | ->]]; vm_compute; reflexivity.
  - intros k Hk. assert (Hc : k = 3) by (change (ceil_div 24 8) with 3 in Hk; lia).
    subst k. vm_compute. reflexivity.
Qed.

Lemma st_cat_bytes :
  (forall j, 0 <= j < 3 -> load8 st_cat (p_cat + j) <> 0)
  /\ load8 st_cat (p_cat + 3) = 0
  /\ (forall j, 0 <= j < 5 -> load8 st_cat (q_cat + j) <> 0).
Proof.
  split; [| split].
  - intros j Hj. assert (Hc : j = 0 \/ j = 1 \/ j = 2) by lia.
    destruct Hc as [-> | [-> | ->]]; vm_compute; discriminate.
  - vm_compute. reflexivity.
  - intros j Hj. assert (Hc : j = 0 \/ j = 1 \/ j = 2 \/ j = 3 \/ j = 4) by lia.
    destruct Hc as [-> | [-> | [-> | [-> | ->]]]]; vm_compute; discriminate.
Qed.

Lemma strncat_clears_token_witness :
  exists st',
    strncat p_cat q_cat 5 st_cat = (Ok p_cat, st')
    /\ is_poisoned st_cat (p_cat + 8) = true
    /\ is_poisoned st' (p_cat + 8) = false.
Proof.
  apply (strncat_clears_token st_cat p_cat 8 1 q_cat 24 2 q_cat 5 3 5).
  - exact (heap_cfg _ st_init_heap_ok).
  - vm_compute. discriminate.
  - exact st_cat_object_p.
  - reflexivity.
  - exact st_cat_object_q.
  - right. vm_compute. discriminate.
  - lia.
  - exact (proj1 st_cat_bytes).
  - exact (proj1 (proj2 st_cat_bytes)).
  - lia.
  - vm_compute. discriminate.
  - lia.
  - exact (proj2 (proj2 st_cat_bytes)).
  - intros H. lia.
  - reflexivity.
  - lia.
Defined.

Lemma strcat_into_object_witness :
  (5 + 3 + 1 <= 24 ->
   exists st',
     strcat q_cat p_cat st_cat = (Ok q_cat, st')
     /\ cfg st' = cfg st_cat
     /\ (forall i, 0 <= i <= 3 ->
           load8 st' (q_cat + 5 + i) = load8 st_cat (p_cat + i))
     /\ (forall a, a < q_cat + 5 \/ q_cat + 5 + 3 + 1 <= a ->
           load8 st' a = load8 st_cat a))
  /\ (sizeof_Token * ceil_div 24 8 < 5 + 3 + 1 ->
      strcat q_cat p_cat st_cat = (Sigill, st_cat)).
Proof.
  apply (strcat_into_object st_cat q_cat 24 2 p_cat 8 1 p_cat 5 3).
  - exact (heap_cfg _ st_init_heap_ok).
  - exact st_cat_object_q.
  - exact st_cat_object_p.
  - left. vm_compute. discriminate.
  - lia.
  - exact (proj2 (proj2 st_cat_bytes)).
  - vm_compute. reflexivity.
  - lia.
  - lia.
  - lia.
  - lia.
  - vm_compute. reflexivity.
  - exact (proj1 st_cat_bytes).
  - exact (proj1 (proj2 st_cat_bytes)).
Defined.

(** ** Tokens *)

(** X27: the token primitives round-trip.  After [poison a size] the word
    at [a] tests as poisoned and, with a 61-bit nonce, its boundary field
    holds [size mod 8]; no other word changes; after [zero a] the word
    tests as not poisoned. *)
Theorem token_round_trip st a size :
  config_ok (cfg st) ->
  outcome (poison a size) st = Ok tt
  /\ is_poisoned (exec (poison a size) st) a = true
  /\ (nonce_size (cfg st) = 61 ->
      boundary (mem (exec (poison a size) st) a) = size mod 8)
  /\ (forall b, b <> a -> mem (exec (poison a size) st) b = mem st b)
  /\ is_poisoned (exec (zero a) (exec (poison a size) st)) a = false.
Proof.
  intros Hc. unfold outcome, exec.
  rewrite (poison_run (cfg st)) by (reflexivity || exact Hc).
  cbn [fst snd]. split; [reflexivity |]. split; [| split; [| split]].
  - rewrite is_poisoned_word. cbn [mem cfg set_mem]. unfold upd.
    rewrite Z.eqb_refl. apply word_poisoned_poison_word. exact Hc.
  - intros H61. cbn [mem set_mem]. unfold upd. rewrite Z.eqb_refl.
    apply boundary_poison_word; assumption.
  - intros b Hb. cbn [mem set_mem]. unfold upd.
    destruct (Z.eqb_spec b a); [contradiction | reflexivity].
  - unfold zero, rezzan_zero_token, modify. cbn [snd].
    rewrite is_poisoned_word. cbn [mem cfg set_mem]. unfold upd.
    rewrite Z.eqb_refl. apply word_poisoned_zero. exact Hc.
Qed.

Lemma token_round_trip_witness :
  outcome (poison p_A 5) st_A = Ok tt
  /\ is_poisoned (exec (poison p_A 5) st_A) p_A = true
  /\ (nonce_size (cfg st_A) = 61 ->
      boundary (mem (exec (poison p_A 5) st_A) p_A) = 5 mod 8)
  /\ (forall b, b <> p_A -> mem (exec (poison p_A 5) st_A) b = mem st_A b)
  /\ is_poisoned (exec (zero p_A) (exec (poison p_A 5) st_A)) p_A = false.
Proof.
  apply (token_round_trip st_A p_A 5). exact st_A_config.
Defined.

(** ** What the quarantine hands out *)

(** X28: in a state that satisfies the allocator invariant,
    [quarantine_malloc] either returns NULL and changes nothing, or returns
    a 16-byte aligned region of [size] units that lies inside the allocated
    part of the pool and whose words, the word before it included, are all
    poisoned; it never touches memory or the pool pointer. *)
Theorem quarantine_malloc_hands_out_poisoned st size ptr st' :
  heap_ok st -> 0 <= size ->
  quarantine_malloc size st = (Ok ptr, st') ->
  (ptr = NULL /\ st' = st)
  \/ (mem st' = mem st /\ pool_ptr st' = pool_ptr st
      /\ ptr mod sizeof_Unit = 0
      /\ pool (cfg st) + sizeof_Unit <= ptr
      /\ ptr + sizeof_Unit * size
         <= pool (cfg st) + sizeof_Unit * pool_ptr st
      /\ forall k, -1 <= k < 2 * size ->
           is_poisoned st (word_at ptr k) = true).
Proof.
  intros Hok Hsize Hrun.
  pose proof (pool_aligned _ (heap_cfg _ Hok)) as Pal.
  destruct (quarantine_malloc_ok st size ptr st' Hok Hsize Hrun)
    as [H | (Hcfg & Hmem & Hpp & Hpm & nd & d & [R1 R2 R3 R4] & Hd & Hsz & ->)];
    [left; exact H | right].
  unfold sizeof_Unit, PAGE_SIZE in *.
  split; [exact Hmem |]. split; [exact Hpp |].
  split; [zdiv |]. split; [lia |]. split; [lia |].
  intros k Hk.
  replace (word_at (pool (cfg st) + 16 * (ptr128 nd + d)) k)
    with (word_at (pool (cfg st) + sizeof_Unit * ptr128 nd) (2 * d + k))
    by (unfold word_at, sizeof_Unit, sizeof_Token; lia).
  apply R4. lia.
Qed.

Lemma quarantine_malloc_hands_out_poisoned_witness :
  (p_A = NULL /\ exec (quarantine_malloc 1) st_A_freed = st_A_freed)
  \/ (mem (exec (quarantine_malloc 1) st_A_freed) = mem st_A_freed
      /\ pool_ptr (exec (quarantine_malloc 1) st_A_freed) = pool_ptr st_A_freed
      /\ p_A mod sizeof_Unit = 0
      /\ pool (cfg st_A_freed) + sizeof_Unit <= p_A
      /\ p_A + sizeof_Unit * 1
         <= pool (cfg st_A_freed) + sizeof_Unit * pool_ptr st_A_freed
      /\ forall k, -1 <= k < 2 * 1 ->
           is_poisoned st_A_freed (word_at p_A k) = true).
Proof.
  apply (quarantine_malloc_hands_out_poisoned st_A_freed 1 p_A
           (exec (quarantine_malloc 1) st_A_freed)).
  - exact st_A_freed_heap_ok.
  - lia.
  - apply (run_known (quarantine_malloc 1) st_A_freed (Ok p_A)).
    vm_compute. reflexivity.
Defined.

(** ** The wide-character functions *)

Section FirstZeroElement.

Variable st : state.
Variables s k : Z.
Hypothesis Hnonzero : forall j, 0 <= j < k -> load32 st (s + 4 * j) <> 0.
Hypothesis Hzero : load32 st (s + 4 * k) = 0.

Lemma wcslen_loop_spec : forall n fuel len,
  0 <= len <= k -> (k - len) / 4 = Z.of_nat n -> (n < fuel)%nat ->
  wcslen_loop st fuel s len = Some k.
Proof.
  assert (Hnz : forall j, 0 <= j < k ->
            (load32 st (s + 4 * j) =? 0) = false).
  { intros j Hj. apply Z.eqb_neq. apply Hnonzero. exact Hj. }
  assert (Hz : forall j, j = k -> (load32 st (s + 4 * j) =? 0) = true).
  { intros j ->. apply Z.eqb_eq. exact Hzero. }
  induction n as [| n IH]; intros fuel len Hlen Hn Hfuel;
    (destruct fuel as [| fuel]; [lia |]); cbn [wcslen_loop];
    unfold sizeof_wchar_t.
  - assert (Hc : k = len \/ k = len + 1 \/ k = len + 2 \/ k = len + 3)
      by zdiv.
    destruct Hc as [E | [E | [E | E]]].
    + rewrite (Hz len) by lia. cbn [negb]. f_equal. lia.
    + rewrite (Hnz len) by lia. cbn [negb].
      rewrite (Hz (len + 1)) by lia. f_equal. lia.
    + rewrite (Hnz len) by lia. cbn [negb].
      rewrite (Hnz (len + 1)) by lia.
      rewrite (Hz (len + 1 + 1)) by lia. f_equal. lia.
    + rewrite (Hnz len) by lia. cbn [negb].
      rewrite (Hnz (len + 1)), (Hnz (len + 1 + 1)) by lia.
      rewrite (Hz (len + 1 + 1 + 1)) by lia. f_equal. lia.
  - assert (Hfar : 4 <= k - len) by zdiv.
    rewrite (Hnz len) by lia. cbn [negb].
    rewrite (Hnz (len + 1)), (Hnz (len + 1 + 1)),
      (Hnz (len + 1 + 1 + 1)) by lia.
    apply IH; try lia. zdiv.
Qed.

End FirstZeroElement.

(** X29: [__wcslen] tests no token: it returns the index of the first zero
    element of the string whatever the memory holds, and changes nothing.
    [wcscpy] is therefore [memcpy] of [4 * (k + 1)] bytes, the window check
    of which is its only protection. *)
Theorem wcslen_first_zero st s k dest :
  0 <= s -> 0 <= k -> s + 4 * (k + 1) <= 2 ^ 64 -> 4 * (k + 1) < 2 ^ 64 ->
  (forall j, 0 <= j < k -> load32 st (s + 4 * j) <> 0) ->
  load32 st (s + 4 * k) = 0 ->
  __wcslen s st = (Ok k, st)
  /\ wcscpy dest s st = memcpy dest s (4 * (k + 1)) st.
Proof.
  intros Hs Hk Hhi Hsmall Hnonzero Hzero.
  assert (Hlen : __wcslen s st = (Ok k, st)).
  { unfold __wcslen, bind, get.
    rewrite (wcslen_loop_spec st s k Hnonzero Hzero (Z.to_nat (k / 4))).
    - reflexivity.
    - lia.
    - rewrite Z2Nat.id by zdiv. f_equal. lia.
    - unfold sizeof_wchar_t. apply Z2Nat.inj_lt; zdiv. }
  split; [exact Hlen |].
  unfold wcscpy. rewrite (bind_ok _ _ _ _ _ Hlen).
  unfold __wmemcpy, sizeof_wchar_t.
  rewrite (wrap64_small (k + 1)) by lia.
  rewrite wrap64_small by lia. f_equal. lia.
Qed.

Lemma wcslen_first_zero_witness :
  __wcslen p_B st_str = (Ok 1, st_str)
  /\ wcscpy p_A p_B st_str = memcpy p_A p_B (4 * (1 + 1)) st_str.
Proof.
  apply (wcslen_first_zero st_str p_B 1 p_A).
  - vm_compute. discriminate.
  - lia.
  - vm_compute. discriminate.
  - vm_compute. reflexivity.
  - intros j Hj. assert (j = 0) by lia. subst j. vm_compute. discriminate.
  - vm_compute. reflexivity.
Defined.
